(** * A tiny shell with job control: embedding of [shell.c]

    The development follows the source file top-down: the job list the
    shell keeps, the process state shared with the signal handlers, the
    three handlers, [builtincmd] and [eval]; the properties come last. *)

From Stdlib Require Import ZArith String Ascii List.
From stdpp Require Import gmap list pretty.

Local Open Scope string_scope.
Local Open Scope Z_scope.

(** ** Constants of the platform (Linux numbering, as the notices
    "terminated by signal 2" and "stopped by signal 20" show). *)

Definition SIGINT : Z := 2.
Definition SIGKILL : Z := 9.
Definition SIGCHLD : Z := 17.
Definition SIGCONT : Z := 18.
Definition SIGSTOP : Z := 19.
Definition SIGTSTP : Z := 20.

Definition ENOENT : Z := 2.
Definition EACCES : Z := 13.
Definition EINTR : Z := 4.

Definition STDOUT_FILENO : Z := 1.

(** The newline character of the format strings. *)
Definition nl : string := String (ascii_of_nat 10) EmptyString.

(** ** Job list *)

Inductive job_state := FG | BG | ST.

#[global] Instance job_state_eq_dec : EqDecision job_state.
Proof. solve_decision. Defined.

Record job := mk_job {
  job_pid : Z;
  job_st : job_state;
  job_cmdline : string
}.

(** Modelled from the spec: the job list of the helper file that is not
    part of the repository.  Records are keyed by their job id, an
    integer greater than zero; ids are handed out by a counter that only
    grows, so an id is never given twice. *)
Record job_list := mk_job_list {
  slots : gmap positive job;
  nextjid : positive
}.

Definition init_job_list : job_list := mk_job_list ∅ 1%positive.

(** The first record, with its id, that satisfies a test. *)
Definition find_job (P : job → bool) (t : job_list) : option (positive * job) :=
  head (filter (λ jr, P jr.2 = true) (map_to_list (slots t))).

Definition lookup_job (t : job_list) (jid : Z) : option job :=
  match jid with
  | Zpos j => slots t !! j
  | _ => None
  end.

Section JobList.

(** Modelled from the spec: the capacity of the bounded job list. *)
Variable MAXJOBS : nat.

(** Modelled from the spec: [add(process_id, initial_state, command_text)]
    fails with the sentinel 0 when the capacity is exhausted and
    otherwise stores a record under a fresh id. *)
Definition add_job (pid : Z) (st : job_state) (cmdline : string)
           (t : job_list) : Z * job_list :=
  if decide (MAXJOBS ≤ size (slots t))%nat then (0, t)
  else (Zpos (nextjid t),
        mk_job_list (<[nextjid t := mk_job pid st cmdline]> (slots t))
                    (Pos.succ (nextjid t))).

End JobList.

(** Modelled from the spec: [remove(job_id)], a no-op returning failure
    when the id does not exist. *)
Definition delete_job (jid : Z) (t : job_list) : bool * job_list :=
  match jid with
  | Zpos j =>
      match slots t !! j with
      | Some _ => (true, mk_job_list (delete j (slots t)) (nextjid t))
      | None => (false, t)
      end
  | _ => (false, t)
  end.

(** Modelled from the spec: [exists(job_id)]. *)
Definition job_exists (t : job_list) (jid : Z) : bool :=
  bool_decide (is_Some (lookup_job t jid)).

(** Modelled from the spec: [process_id_of], [state_of] and the command
    text of a record.  The spec gives no result for an absent id; every
    call in [shell.c] follows [job_exists], [job_from_pid] or [fg_job]. *)
Definition job_get_pid (t : job_list) (jid : Z) : Z :=
  from_option job_pid 0 (lookup_job t jid).

Definition job_get_cmdline (t : job_list) (jid : Z) : string :=
  from_option job_cmdline "" (lookup_job t jid).

Definition job_get_state (t : job_list) (jid : Z) : option job_state :=
  job_st <$> lookup_job t jid.

(** Modelled from the spec: [set_state(job_id, state)]; only the state
    of the record changes. *)
Definition job_set_state (jid : Z) (st : job_state) (t : job_list) : job_list :=
  match jid with
  | Zpos j =>
      mk_job_list (alter (λ r, mk_job (job_pid r) st (job_cmdline r)) j (slots t))
                  (nextjid t)
  | _ => t
  end.

(** Modelled from the spec: [job_id_of(process_id)], 0 when no record
    has that process id. *)
Definition job_from_pid (t : job_list) (pid : Z) : Z :=
  match find_job (λ r, bool_decide (job_pid r = pid)) t with
  | Some (j, _) => Zpos j
  | None => 0
  end.

(** Modelled from the spec: [foreground_job()], the foreground job if
    one exists and 0 otherwise. *)
Definition fg_job (t : job_list) : Z :=
  match find_job (λ r, bool_decide (job_st r = FG)) t with
  | Some (j, _) => Zpos j
  | None => 0
  end.

Definition state_text (st : job_state) : string :=
  match st with
  | FG => "Foreground"
  | BG => "Background"
  | ST => "Stopped"
  end.

Definition job_line (jid pid : Z) (cmdline : string) : string :=
  "[" +:+ pretty jid +:+ "] (" +:+ pretty pid +:+ ") " +:+ cmdline +:+ nl.

(** Modelled from the spec: [list(sink)] writes every record as
    [[job_id] (process_id) state command_text], by increasing job id. *)
Definition list_jobs_lines (t : job_list) : list string :=
  omap (λ n, let j := Pos.of_nat n in
             r ← slots t !! j;
             Some ("[" +:+ pretty (Zpos j) +:+ "] (" +:+ pretty (job_pid r) +:+ ") "
                   +:+ state_text (job_st r) +:+ " " +:+ job_cmdline r +:+ nl))
       (seq 1 (Pos.to_nat (nextjid t) - 1)).

(** ** Process state

    Everything the code reads or changes: the job list, the signal mask
    and the signals waiting for it, the children whose change of status
    [waitpid] has not returned yet, and the traces of the system calls
    (text written per descriptor, open descriptors, signals sent to
    process groups, results of [fork], [dup2] and [setpgid] in the
    child). *)

(** What [waitpid] with [WNOHANG | WUNTRACED] reports about a child. *)
Inductive wstatus :=
| WExited (code : Z)
| WSignaled (sig : Z)
| WStopped (sig : Z).

Definition WIFSIGNALED (s : wstatus) : bool :=
  match s with WSignaled _ => true | _ => false end.
Definition WIFSTOPPED (s : wstatus) : bool :=
  match s with WStopped _ => true | _ => false end.
Definition WTERMSIG (s : wstatus) : Z :=
  match s with WSignaled n => n | _ => 0 end.
Definition WSTOPSIG (s : wstatus) : Z :=
  match s with WStopped n => n | _ => 0 end.

Record shell := mk_shell {
  jobs : job_list;
  sigmask : gset Z;
  pending : gset Z;
  zombies : list (Z * wstatus);
  output : list (Z * string);
  fds : gset Z;
  kills : list (Z * Z);
  forks : list Z;
  dups : list (Z * Z);
  pgrp_leader : bool;
  errno : Z
}.

Definition set_jobs (t : job_list) (sh : shell) : shell :=
  mk_shell t (sigmask sh) (pending sh) (zombies sh) (output sh) (fds sh)
           (kills sh) (forks sh) (dups sh) (pgrp_leader sh) (errno sh).
Definition set_sigmask (m : gset Z) (sh : shell) : shell :=
  mk_shell (jobs sh) m (pending sh) (zombies sh) (output sh) (fds sh)
           (kills sh) (forks sh) (dups sh) (pgrp_leader sh) (errno sh).
Definition set_pending (p : gset Z) (sh : shell) : shell :=
  mk_shell (jobs sh) (sigmask sh) p (zombies sh) (output sh) (fds sh)
           (kills sh) (forks sh) (dups sh) (pgrp_leader sh) (errno sh).
Definition set_zombies (z : list (Z * wstatus)) (sh : shell) : shell :=
  mk_shell (jobs sh) (sigmask sh) (pending sh) z (output sh) (fds sh)
           (kills sh) (forks sh) (dups sh) (pgrp_leader sh) (errno sh).
Definition set_output (o : list (Z * string)) (sh : shell) : shell :=
  mk_shell (jobs sh) (sigmask sh) (pending sh) (zombies sh) o (fds sh)
           (kills sh) (forks sh) (dups sh) (pgrp_leader sh) (errno sh).
Definition set_fds (f : gset Z) (sh : shell) : shell :=
  mk_shell (jobs sh) (sigmask sh) (pending sh) (zombies sh) (output sh) f
           (kills sh) (forks sh) (dups sh) (pgrp_leader sh) (errno sh).
Definition set_kills (k : list (Z * Z)) (sh : shell) : shell :=
  mk_shell (jobs sh) (sigmask sh) (pending sh) (zombies sh) (output sh) (fds sh)
           k (forks sh) (dups sh) (pgrp_leader sh) (errno sh).
Definition set_forks (f : list Z) (sh : shell) : shell :=
  mk_shell (jobs sh) (sigmask sh) (pending sh) (zombies sh) (output sh) (fds sh)
           (kills sh) f (dups sh) (pgrp_leader sh) (errno sh).
Definition set_dups (d : list (Z * Z)) (sh : shell) : shell :=
  mk_shell (jobs sh) (sigmask sh) (pending sh) (zombies sh) (output sh) (fds sh)
           (kills sh) (forks sh) d (pgrp_leader sh) (errno sh).
Definition set_pgrp_leader (b : bool) (sh : shell) : shell :=
  mk_shell (jobs sh) (sigmask sh) (pending sh) (zombies sh) (output sh) (fds sh)
           (kills sh) (forks sh) (dups sh) b (errno sh).
Definition set_errno (e : Z) (sh : shell) : shell :=
  mk_shell (jobs sh) (sigmask sh) (pending sh) (zombies sh) (output sh) (fds sh)
           (kills sh) (forks sh) (dups sh) (pgrp_leader sh) e.

(** *** System calls *)

(** [sio_printf] and [printf] both end up on descriptor 1. *)
Definition write_fd (fd : Z) (s : string) (sh : shell) : shell :=
  set_output (output sh ++ [(fd, s)]) sh.
Definition sio_printf (s : string) (sh : shell) : shell :=
  write_fd STDOUT_FILENO s sh.
Definition printf (s : string) (sh : shell) : shell :=
  write_fd STDOUT_FILENO s sh.

Definition killpg (pgrp sig : Z) (sh : shell) : shell :=
  set_kills (kills sh ++ [(pgrp, sig)]) sh.

Definition close (fd : Z) (sh : shell) : shell :=
  set_fds (fds sh ∖ {[fd]}) sh.

Definition dup2 (oldfd newfd : Z) (sh : shell) : shell :=
  set_dups (dups sh ++ [(oldfd, newfd)]) sh.

(** The answer of the file system to one [open]: a new descriptor, or
    the error number left in [errno]. *)
Inductive open_result :=
| Opened (fd : N)
| OpenFailed (err : Z).

Definition open (r : open_result) (sh : shell) : Z * shell :=
  match r with
  | Opened fd => (Z.of_N fd, set_fds (fds sh ∪ {[Z.of_N fd]}) sh)
  | OpenFailed e => (-1, set_errno e sh)
  end.

(** Signal sets.  [SIGKILL] and [SIGSTOP] cannot be blocked, but as no
    handler exists for them and neither is ever pending here, sets are
    kept as the program passes them. *)
Definition sigemptyset : gset Z := ∅.
Definition sigfillset : gset Z := list_to_set (seqZ 1 64).
Definition sigaddset (s : gset Z) (sig : Z) : gset Z := s ∪ {[sig]}.

(** The set built four times in the source: [SIGCHLD], [SIGINT],
    [SIGTSTP] added to an empty set. *)
Definition three_signals : gset Z :=
  sigaddset (sigaddset (sigaddset sigemptyset SIGCHLD) SIGINT) SIGTSTP.

Inductive sig_how := SIG_BLOCK | SIG_SETMASK.

(** The mask change of [sigprocmask]; the first component is the old
    mask ([oldset]). *)
Definition change_mask (how : sig_how) (set : gset Z) (sh : shell)
  : gset Z * shell :=
  (sigmask sh,
   set_sigmask (match how with
                | SIG_BLOCK => sigmask sh ∪ set
                | SIG_SETMASK => set
                end) sh).

(** ** Signal handlers *)

Definition terminated_notice (jid pid sig : Z) : string :=
  "Job [" +:+ pretty jid +:+ "] (" +:+ pretty pid
          +:+ ") terminated by signal " +:+ pretty sig +:+ nl.
Definition stopped_notice (jid pid sig : Z) : string :=
  "Job [" +:+ pretty jid +:+ "] (" +:+ pretty pid
          +:+ ") stopped by signal " +:+ pretty sig +:+ nl.

(** One turn of the [while] loop of [sigchld_handler], for the child
    [pid] that [waitpid] returned with [status]. *)
Definition reap (pid : Z) (status : wstatus) (sh : shell) : shell :=
  let jid := job_from_pid (jobs sh) pid in
  let sh :=
    if WIFSIGNALED status && negb (jid =? 0)
    then sio_printf (terminated_notice jid pid (WTERMSIG status)) sh
    else sh in
  let sh :=
    if WIFSTOPPED status
    then let sh := sio_printf (stopped_notice jid pid (WSTOPSIG status)) sh in
         set_jobs (job_set_state jid ST (jobs sh)) sh
    else sh in
  if negb (WIFSTOPPED status)
  then set_jobs (delete_job jid (jobs sh)).2 sh
  else sh.

(** [waitpid] returns the waiting children one by one until none is
    left. *)
Fixpoint reap_all (zs : list (Z * wstatus)) (sh : shell) : shell :=
  match zs with
  | [] => sh
  | (pid, status) :: zs' => reap_all zs' (reap pid status (set_zombies zs' sh))
  end.

Definition sigchld_handler (sh : shell) : shell :=
  let olderrno := errno sh in
  let '(prev_all, sh) := change_mask SIG_BLOCK three_signals sh in
  let sh := reap_all (zombies sh) sh in
  let sh := (change_mask SIG_SETMASK prev_all sh).2 in
  set_errno olderrno sh.

Definition sigint_handler (sh : shell) : shell :=
  let olderrno := errno sh in
  let '(prev_all, sh) := change_mask SIG_BLOCK three_signals sh in
  let jid := fg_job (jobs sh) in
  let sh := if negb (jid =? 0)
            then killpg (job_get_pid (jobs sh) jid) SIGINT sh
            else sh in
  let sh := (change_mask SIG_SETMASK prev_all sh).2 in
  set_errno olderrno sh.

Definition sigtstp_handler (sh : shell) : shell :=
  let olderrno := errno sh in
  let '(prev_all, sh) := change_mask SIG_BLOCK three_signals sh in
  let jid := fg_job (jobs sh) in
  let sh := if negb (jid =? 0)
            then killpg (job_get_pid (jobs sh) jid) SIGTSTP sh
            else sh in
  let sh := (change_mask SIG_SETMASK prev_all sh).2 in
  set_errno olderrno sh.

(** *** Delivery

    The handlers installed in [main].  A pending signal that the mask
    does not hold back is delivered: the kernel adds it to the mask
    while its handler runs and puts the old mask back afterwards. *)
Definition handler_of (sig : Z) : option (shell → shell) :=
  if decide (sig = SIGCHLD) then Some sigchld_handler
  else if decide (sig = SIGINT) then Some sigint_handler
  else if decide (sig = SIGTSTP) then Some sigtstp_handler
  else None.

Definition deliverable (sig : Z) (sh : shell) : bool :=
  bool_decide (sig ∈ pending sh) && negb (bool_decide (sig ∈ sigmask sh)).

Definition run_handler (sig : Z) (sh : shell) : shell :=
  match handler_of sig with
  | Some h =>
      let saved := sigmask sh in
      let sh := set_pending (pending sh ∖ {[sig]}) sh in
      let sh := h (set_sigmask (saved ∪ {[sig]}) sh) in
      set_sigmask saved sh
  | None => sh
  end.

Definition deliver_one (sig : Z) (sh : shell) : shell :=
  if deliverable sig sh then run_handler sig sh else sh.

(** When more than one of them can be delivered at once, Linux sets up
    the handler frames lowest number first, each on top of the one
    before, so that the handlers run highest number first. *)
Definition deliver (sh : shell) : shell :=
  deliver_one SIGINT (deliver_one SIGCHLD (deliver_one SIGTSTP sh)).

Definition any_deliverable (sh : shell) : bool :=
  deliverable SIGINT sh || deliverable SIGCHLD sh || deliverable SIGTSTP sh.

(** [sigprocmask] on the main flow: once the mask is changed, whatever
    became deliverable is delivered before the call returns.  Inside a
    handler the three signals stay blocked up to its last statement, so
    there [change_mask] alone is the whole effect. *)
Definition sigprocmask (how : sig_how) (set : gset Z) (sh : shell)
  : gset Z * shell :=
  let '(old, sh) := change_mask how set sh in (old, deliver sh).

(** *** What happens around the shell *)

Inductive env_event :=
| ChildChanged (pid : Z) (status : wstatus)
| KeyInterrupt
| KeySuspend.

Definition arrive (e : env_event) (sh : shell) : shell :=
  match e with
  | ChildChanged pid status =>
      set_pending (pending sh ∪ {[SIGCHLD]})
                  (set_zombies (zombies sh ++ [(pid, status)]) sh)
  | KeyInterrupt => set_pending (pending sh ∪ {[SIGINT]}) sh
  | KeySuspend => set_pending (pending sh ∪ {[SIGTSTP]}) sh
  end.

Definition arrive_all (evs : list env_event) (sh : shell) : shell :=
  fold_left (λ s e, arrive e s) evs sh.

(** [sigsuspend(mask)]: install [mask] and sleep, as one step, until a
    handler has run; then put the mask of before the call back and
    return -1 with [errno] set to [EINTR], as the call always does.  The
    events are those that arrive while the shell sleeps; when they are
    used up and no handler has run the shell is still asleep. *)
Inductive slept :=
| Woken (sh : shell) (rest : list env_event)
| StillAsleep (sh : shell).

Fixpoint sleep (evs : list env_event) (sh : shell) : slept :=
  if any_deliverable sh then Woken (deliver sh) evs
  else match evs with
       | [] => StillAsleep sh
       | e :: evs' => sleep evs' (arrive e sh)
       end.

Definition sigsuspend (mask : gset Z) (evs : list env_event) (sh : shell)
  : slept :=
  let saved := sigmask sh in
  match sleep evs (set_sigmask mask sh) with
  | Woken sh' rest => Woken (set_errno EINTR (set_sigmask saved sh')) rest
  | StillAsleep sh' => StillAsleep sh'
  end.

(** ** Command lines *)

Inductive parseline_return :=
| PARSELINE_FG
| PARSELINE_BG
| PARSELINE_EMPTY
| PARSELINE_ERROR.

Inductive builtin_state :=
| BUILTIN_NONE
| BUILTIN_QUIT
| BUILTIN_JOBS
| BUILTIN_BG
| BUILTIN_FG.

#[global] Instance builtin_state_eq_dec : EqDecision builtin_state.
Proof. solve_decision. Defined.

(** The fields of [struct cmdline_tokens] that [shell.c] reads; a [NULL]
    file name is [None]. *)
Record cmdline_tokens := mk_tokens {
  argv : list string;
  infile : option string;
  outfile : option string;
  builtin : builtin_state
}.

(** [parseline] keeps [argc] equal to the number of entries of [argv]. *)
Definition argc (token : cmdline_tokens) : Z := Z.of_nat (length (argv token)).

Definition argv_at (token : cmdline_tokens) (i : nat) : string :=
  nth i (argv token) "".

(** *** [atoi]

    The C library's conversion as glibc does it: white space, an optional
    sign, then decimal digits as far as they go; the value is that of
    [strtol], kept within [long], cut to an [int].  Only the value is
    modelled: where [strtol] has to cut the number to fit a [long] it
    also leaves [ERANGE] in [errno]. *)
Definition is_space (c : ascii) : bool :=
  let n := Z.of_nat (nat_of_ascii c) in
  (n =? 32) || ((9 <=? n) && (n <=? 13)).

Definition digit_of (c : ascii) : option Z :=
  let n := Z.of_nat (nat_of_ascii c) in
  if (48 <=? n) && (n <=? 57) then Some (n - 48) else None.

Fixpoint skip_spaces (s : string) : string :=
  match s with
  | String c s' => if is_space c then skip_spaces s' else s
  | EmptyString => s
  end.

Fixpoint digits (acc : Z) (s : string) : Z :=
  match s with
  | String c s' =>
      match digit_of c with
      | Some d => digits (10 * acc + d) s'
      | None => acc
      end
  | EmptyString => acc
  end.

Definition strtol (s : string) : Z :=
  let v := match skip_spaces s with
           | String c s' =>
               if Ascii.eqb c "-" then - digits 0 s'
               else if Ascii.eqb c "+" then digits 0 s'
               else digits 0 (String c s')
           | EmptyString => 0
           end in
  Z.max (- 2 ^ 63) (Z.min (2 ^ 63 - 1) v).

Definition to_int (v : Z) : Z := (v + 2 ^ 31) mod 2 ^ 32 - 2 ^ 31.

Definition atoi (s : string) : Z := to_int (strtol s).

(** Whether [atoi] finds a number at all: a digit after the white space
    and the optional sign. *)
Definition has_number (s : string) : bool :=
  match skip_spaces s with
  | String c s' =>
      if Ascii.eqb c "-" || Ascii.eqb c "+"
      then match s' with
           | String d _ => bool_decide (is_Some (digit_of d))
           | EmptyString => false
           end
      else bool_decide (is_Some (digit_of c))
  | EmptyString => false
  end.

(** The numeral of a job reference: [argv[1]], or [argv[1] + 1] when the
    first character is the percent sign. *)
Definition job_ref_num (arg : string) : string :=
  match arg with
  | String "%" rest => rest
  | _ => arg
  end.

(** ** Waiting for the foreground job *)

(** How a call ends for the process that runs it: it returns to the read
    loop of [main], the process exits, the process image is replaced by
    the program ([execve] does not return), or the process is still
    asleep in [sigsuspend] when the events are used up. *)
Inductive outcome :=
| Returned (sh : shell)
| Exited (status : Z) (sh : shell)
| Execed (sh : shell)
| Asleep (sh : shell).

(** The loop written three times in the source:
    [while ((fjid = fg_job()) > 0) { if (job_get_state(fjid) == ST) break;
    sigsuspend(&mask); }], with the statement [on_stopped] in front of
    [break].  [n] bounds the number of turns; [None] when it does not
    suffice. *)
Fixpoint waitfg_loop (n : nat) (on_stopped : shell → shell) (mask : gset Z)
         (evs : list env_event) (sh : shell) : option outcome :=
  match n with
  | O => None
  | S n' =>
      let fjid := fg_job (jobs sh) in
      if 0 <? fjid then
        if decide (job_get_state (jobs sh) fjid = Some ST)
        then Some (Returned (on_stopped sh))
        else match sigsuspend mask evs sh with
             | Woken sh' evs' => waitfg_loop n' on_stopped mask evs' sh'
             | StillAsleep sh' => Some (Asleep sh')
             end
      else Some (Returned sh)
  end.

(** Every turn but the first uses up an event, so one turn per event,
    one for the signals pending at the start and one for the last test
    always suffice ([waitfg_loop_enough] below). *)
Definition waitfg (on_stopped : shell → shell) (mask : gset Z)
           (evs : list env_event) (sh : shell) : outcome :=
  default (Asleep sh) (waitfg_loop (length evs + 2) on_stopped mask evs sh).

(** Run the rest of a function once the wait is over. *)
Definition and_then (o : outcome) (k : shell → outcome) : outcome :=
  match o with
  | Returned sh => k sh
  | _ => o
  end.

(** ** The answers of the system to one command

    What the calls of one [eval] get back from the world outside: the
    results of the [open] calls and of [fork] (0 in the child), whether
    [execve] fails and with which error, the events that arrive between
    [fork] and the registration of the job, and the events that arrive
    while the shell sleeps in the wait loop. *)
Record os_answers := mk_os {
  open_infile : open_result;
  open_outfile : open_result;
  fork_pid : Z;
  early : list env_event;
  execve_error : option Z;
  open_argv0 : open_result;
  wakeups : list env_event
}.

Definition fork (r : Z) (sh : shell) : Z * shell :=
  let sh := set_forks (forks sh ++ [r]) sh in
  (r, if r =? 0 then set_zombies [] (set_pending ∅ sh) else sh).

(** The two messages of a failed [open]. *)
Definition file_error (name : string) (sh : shell) : shell :=
  if errno sh =? ENOENT
  then sio_printf (name +:+ ": No such file or directory" +:+ nl) sh
  else sio_printf (name +:+ ": Permission denied" +:+ nl) sh.

Definition list_jobs (fd : Z) (sh : shell) : shell :=
  fold_left (λ s line, write_fd fd line s) (list_jobs_lines (jobs sh)) sh.

(** ** [builtincmd] *)

Definition builtincmd (parse_result : parseline_return) (token : cmdline_tokens)
           (os : os_answers) (sh : shell) : outcome :=
  let mask_all := sigfillset in
  let sigchld := three_signals in
  let prev := sigemptyset in
  let mask_one := three_signals in
  match builtin token with
  | BUILTIN_QUIT => Exited 0 sh
  | BUILTIN_JOBS =>
      let '(prev_all, sh) := sigprocmask SIG_BLOCK mask_all sh in
      match outfile token with
      | Some name =>
          let '(fdout, sh) := open (open_outfile os) sh in
          if fdout <? 0 then
            let sh := file_error name sh in
            Returned (sigprocmask SIG_SETMASK prev_all sh).2
          else
            let sh := list_jobs fdout sh in
            let sh := close fdout sh in
            Returned (sigprocmask SIG_SETMASK prev_all sh).2
      | None =>
          let sh := list_jobs STDOUT_FILENO sh in
          Returned (sigprocmask SIG_SETMASK prev_all sh).2
      end
  | BUILTIN_BG =>
      if argc token =? 1 then
        Returned (sio_printf ("bg command requires PID or %jobid argument" +:+ nl) sh)
      else
        let start := argv_at token 1 in
        let num := job_ref_num start in
        let jid := atoi num in
        if jid =? 0 then
          Returned (sio_printf ("bg: argument must be a PID or %jobid" +:+ nl) sh)
        else
          let '(prev_all, sh) := sigprocmask SIG_BLOCK mask_all sh in
          if job_exists (jobs sh) jid then
            (* jid is jid *)
            let pid := job_get_pid (jobs sh) jid in
            let cmd := job_get_cmdline (jobs sh) jid in
            let sh := sio_printf (job_line jid pid cmd) sh in
            let sh := set_jobs (job_set_state jid BG (jobs sh)) sh in
            let sh := killpg pid SIGCONT sh in
            Returned (sigprocmask SIG_SETMASK prev_all sh).2
          else
            (* jid is pid *)
            let pid := jid in
            let jid := job_from_pid (jobs sh) pid in
            if jid =? 0 then
              let sh := printf (argv_at token 1 +:+ ": No such job" +:+ nl) sh in
              Returned (sigprocmask SIG_SETMASK prev_all sh).2
            else
              let cmd := job_get_cmdline (jobs sh) jid in
              let sh := sio_printf (job_line jid pid cmd) sh in
              let sh := set_jobs (job_set_state jid BG (jobs sh)) sh in
              let sh := killpg pid SIGCONT sh in
              Returned (sigprocmask SIG_SETMASK prev_all sh).2
  | BUILTIN_FG =>
      if argc token =? 1 then
        Returned (sio_printf ("fg command requires PID or %jobid argument" +:+ nl) sh)
      else
        let start := argv_at token 1 in
        let num := job_ref_num start in
        let jid := atoi num in
        if jid =? 0 then
          Returned (sio_printf ("fg: argument must be a PID or %jobid" +:+ nl) sh)
        else
          let '(prev_all, sh) := sigprocmask SIG_BLOCK mask_all sh in
          if job_exists (jobs sh) jid then
            (* jid is jid *)
            let sh := set_jobs (job_set_state jid FG (jobs sh)) sh in
            let pid := job_get_pid (jobs sh) jid in
            let sh := killpg pid SIGCONT sh in
            let sh := (sigprocmask SIG_SETMASK prev_all sh).2 in
            let sh := (sigprocmask SIG_BLOCK sigchld sh).2 in
            and_then (waitfg id prev_all (wakeups os) sh) (λ sh,
            Returned (sigprocmask SIG_SETMASK prev_all sh).2)
          else
            (* jid is pid *)
            let pid := jid in
            let jid := job_from_pid (jobs sh) pid in
            if jid =? 0 then
              let sh := printf (argv_at token 1 +:+ ": No such job" +:+ nl) sh in
              Returned (sigprocmask SIG_SETMASK prev_all sh).2
            else
              let sh := set_jobs (job_set_state jid FG (jobs sh)) sh in
              let sh := killpg pid SIGCONT sh in
              let sh := (sigprocmask SIG_SETMASK prev_all sh).2 in
              let sh := (sigprocmask SIG_BLOCK sigchld sh).2 in
              and_then (waitfg id prev_all (wakeups os) sh) (λ sh,
              Returned (sigprocmask SIG_SETMASK prev_all sh).2)
  | BUILTIN_NONE => Returned sh
  end.

(** ** [eval]

    [parseline] is outside the repository: its result and the tokens it
    fills in are arguments.  [MAXJOBS] is the capacity of the job list. *)

Section Eval.

Variable MAXJOBS : nat.

Definition eval (cmdline : string) (parse_result : parseline_return)
           (token : cmdline_tokens) (os : os_answers) (sh : shell) : outcome :=
  let mask_all := sigfillset in
  let sigchld := three_signals in
  let prev := sigemptyset in
  let mask_one := three_signals in
  let fdin := 0 in
  let fdout := 0 in
  match parse_result with
  | PARSELINE_ERROR | PARSELINE_EMPTY => Returned sh
  | _ =>
  (* call helper function builtin *)
  and_then (builtincmd parse_result token os sh) (λ sh,
  if negb (bool_decide (builtin token = BUILTIN_NONE)) then Returned sh else
  let '(prev_all, sh) := sigprocmask SIG_BLOCK mask_one sh in
  let '(fdin, sh) := match infile token with
                     | Some _ => open (open_infile os) sh
                     | None => (fdin, sh)
                     end in
  if bool_decide (is_Some (infile token)) && (fdin <? 0) then
    let sh := file_error (default "" (infile token)) sh in
    Returned (sigprocmask SIG_SETMASK prev_all sh).2
  else
  let '(fdout, sh) := match outfile token with
                      | Some _ => open (open_outfile os) sh
                      | None => (fdout, sh)
                      end in
  if bool_decide (is_Some (outfile token)) && (fdout <? 0) then
    let sh := file_error (default "" (outfile token)) sh in
    Returned (sigprocmask SIG_SETMASK prev_all sh).2
  else
  (* fork child to run the program *)
  let '(pid, sh) := fork (fork_pid os) sh in
  if pid =? 0 then
    let sh := set_pgrp_leader true sh in
    let sh := if bool_decide (is_Some (infile token)) then dup2 fdin 0 sh else sh in
    let sh := if bool_decide (is_Some (outfile token)) then dup2 fdout 1 sh else sh in
    let sh := (sigprocmask SIG_SETMASK prev_all sh).2 in
    match execve_error os with
    | Some e =>
        let sh := set_errno e sh in
        let '(fdin, sh) := open (open_argv0 os) sh in
        let sh := if fdin <? 0 then file_error (argv_at token 0) sh else sh in
        Exited 0 sh
    | None => Execed sh
    end
  else
  let sh := arrive_all (early os) sh in
  (* add to joblist *)
  let sh := (sigprocmask SIG_BLOCK mask_all sh).2 in
  match parse_result with
  | PARSELINE_FG =>
      let '(jid, t) := add_job MAXJOBS pid FG cmdline (jobs sh) in
      let sh := set_jobs t sh in
      let sh := (sigprocmask SIG_SETMASK prev_all sh).2 in
      (* wait for child process to end *)
      let sh := (sigprocmask SIG_BLOCK sigchld sh).2 in
      and_then (waitfg (sio_printf "job is stopped") prev (wakeups os) sh) (λ sh,
      let sh := if bool_decide (is_Some (infile token)) then close fdin sh else sh in
      let sh := if bool_decide (is_Some (outfile token)) then close fdout sh else sh in
      Returned (sigprocmask SIG_SETMASK prev sh).2)
  | PARSELINE_BG =>
      let '(jid, t) := add_job MAXJOBS pid BG cmdline (jobs sh) in
      let sh := set_jobs t sh in
      let sh := (sigprocmask SIG_SETMASK prev_all sh).2 in
      (* print out background job and return *)
      let '(prev_all, sh) := sigprocmask SIG_BLOCK mask_all sh in
      let sh := sio_printf (job_line jid pid cmdline) sh in
      Returned (sigprocmask SIG_SETMASK prev_all sh).2
  | _ => Exited 0 (sio_printf ("not bg or fg" +:+ nl) sh)
  end)
  end.

End Eval.

(** ** The messages of section 6 of the specification for [bg] and [fg] *)

Definition builtin_name (b : builtin_state) : string :=
  match b with
  | BUILTIN_BG => "bg"
  | BUILTIN_FG => "fg"
  | BUILTIN_JOBS => "jobs"
  | BUILTIN_QUIT => "quit"
  | BUILTIN_NONE => ""
  end.

Definition missing_argument (b : builtin_state) : string :=
  builtin_name b +:+ " command requires PID or %jobid argument" +:+ nl.

Definition invalid_argument (b : builtin_state) : string :=
  builtin_name b +:+ ": argument must be a PID or %jobid" +:+ nl.

(** ** The rule of the specification for a job reference

    "Accepts either a bare process id or a job id prefixed by a marker
    character": with the marker the numeral is a job id, without it a
    process id.  The result is the id of the job meant, 0 when there is
    none. *)
Definition job_ref_by_marker (t : job_list) (arg : string) : Z :=
  match arg with
  | String c rest =>
      if Ascii.eqb c "%"
      then (if job_exists t (atoi rest) then atoi rest else 0)
      else job_from_pid t (atoi arg)
  | EmptyString => 0
  end.

(** [bg] follows that rule on a reference with a number: it announces
    the job the rule names, or reports that there is none. *)
Definition bg_follows_marker_rule (token : cmdline_tokens) (os : os_answers)
           (sh : shell) : Prop :=
  let arg := argv_at token 1 in
  let jid := job_ref_by_marker (jobs sh) arg in
  ∃ sh', builtincmd PARSELINE_FG token os sh = Returned sh'
         ∧ output sh' = (output sh ++
             [(STDOUT_FILENO,
               if jid =? 0 then arg +:+ ": No such job" +:+ nl
               else job_line jid (job_get_pid (jobs sh) jid)
                             (job_get_cmdline (jobs sh) jid))])%list.

(** ** The rule of the specification for a reaped child

    "If it terminated due to a signal, print a termination notice naming
    the signal; if it stopped due to a signal, print a stop notice and
    set its state to Stopped (keep the record); otherwise (normal exit
    or killed) remove its record": what has happened between the states
    [before] and [after] a run of the handler to the child [pid] that
    [waitpid] reported with [status], if the sentence holds of every
    child. *)
Definition notice_printed (before after : shell) (line : string) : Prop :=
  ∃ l, output after = (output before ++ l)%list ∧ (STDOUT_FILENO, line) ∈ l.

Definition record_removed (pid : Z) (after : shell) : Prop :=
  ∀ j r, slots (jobs after) !! j = Some r → job_pid r ≠ pid.

Definition reaped_as_stated (pid : Z) (status : wstatus) (before after : shell)
  : Prop :=
  match status with
  | WSignaled sig =>
      (∃ jid, notice_printed before after (terminated_notice jid pid sig))
      ∧ record_removed pid after
  | WStopped sig =>
      (∃ jid, notice_printed before after (stopped_notice jid pid sig))
      ∧ ∃ j r, slots (jobs after) !! j = Some r ∧ job_pid r = pid
               ∧ job_st r = ST
  | WExited _ => record_removed pid after
  end.

(** Records only leave the list or become stopped. *)
Definition shrinks (t t' : job_list) : Prop :=
  ∀ j r', slots t' !! j = Some r' →
    ∃ r, slots t !! j = Some r
         ∧ job_pid r' = job_pid r ∧ job_cmdline r' = job_cmdline r
         ∧ (job_st r' = job_st r ∨ job_st r' = ST).

(** What the handlers leave alone. *)
Definition same_process (sh sh' : shell) : Prop :=
  sigmask sh' = sigmask sh ∧ pending sh' = pending sh ∧ errno sh' = errno sh
  ∧ fds sh' = fds sh ∧ forks sh' = forks sh.

(** ** Foreground jobs *)

Definition no_fg (t : job_list) : Prop :=
  ∀ j r, slots t !! j = Some r → job_st r ≠ FG.

Definition at_most_one_fg (t : job_list) : Prop :=
  ∀ j1 j2 r1 r2, slots t !! j1 = Some r1 → slots t !! j2 = Some r2 →
                 job_st r1 = FG → job_st r2 = FG → j1 = j2.

(** Only job [j] may be in the foreground. *)
Definition fg_only (j : positive) (t : job_list) : Prop :=
  ∀ j' r, slots t !! j' = Some r → job_st r = FG → j' = j.

(** What the wait is over: the job is gone, or it is there and stopped. *)
Definition fg_gone (j : positive) (t : job_list) : Prop := slots t !! j = None.
Definition fg_stopped (j : positive) (t : job_list) : Prop :=
  ∃ r, slots t !! j = Some r ∧ job_st r = ST.
Definition fg_running (j : positive) (t : job_list) : Prop :=
  ∃ r, slots t !! j = Some r ∧ job_st r = FG.

(** What the invariant says of the way a call ends: back at the prompt
    no job is in the foreground, asleep in the wait at most one is. *)
Definition fg_inv (o : outcome) : Prop :=
  match o with
  | Returned sh => no_fg (jobs sh)
  | Asleep sh => at_most_one_fg (jobs sh)
  | _ => True
  end.

(** ** Launching a program *)

(** The command is no builtin and [parseline] classified it. *)
Definition launches (pr : parseline_return) (token : cmdline_tokens) : Prop :=
  (pr = PARSELINE_FG ∨ pr = PARSELINE_BG) ∧ builtin token = BUILTIN_NONE.

Definition redirections_open (token : cmdline_tokens) (os : os_answers) : Prop :=
  (is_Some (infile token) → ∃ fd, open_infile os = Opened fd)
  ∧ (is_Some (outfile token) → ∃ fd, open_outfile os = Opened fd).

(** ** Sample inputs *)

(** A shell as [main] leaves it before the first command, with the
    signal mask [m] it inherited. *)
Definition fresh_shell (m : gset Z) : shell :=
  mk_shell init_job_list m ∅ [] [] ∅ [] [] [] false 0.

Definition with_jobs (l : list (positive * job)) (next : positive) (sh : shell)
  : shell :=
  set_jobs (mk_job_list (list_to_map l) next) sh.

(** One stopped job, [sleep 5] with job id 1 and process id 100. *)
Definition one_stopped_job : shell :=
  with_jobs [(1%positive, mk_job 100 ST "sleep 5")] 2 (fresh_shell ∅).

(** One job in the foreground. *)
Definition one_fg_job : shell :=
  with_jobs [(1%positive, mk_job 100 FG "sleep 5")] 2 (fresh_shell ∅).

Definition no_answers : os_answers :=
  mk_os (Opened 3) (Opened 4) 100 [] None (Opened 3) [].

Definition command (b : builtin_state) (args : list string) : cmdline_tokens :=
  mk_tokens args None None b.

(** The state a call ends in, and the exit status if the process exits. *)
Definition final_state (o : outcome) : shell :=
  match o with
  | Returned sh | Exited _ sh | Execed sh | Asleep sh => sh
  end.

Definition exit_status (o : outcome) : option Z :=
  match o with
  | Exited status _ => Some status
  | _ => None
  end.

(** The number of records in state [FG]. *)
Definition count_fg (t : job_list) : nat :=
  length (filter (λ jr, job_st jr.2 = FG) (map_to_list (slots t))).

(** [cat < in.txt > /nodir/out]: the first file opens, the second does
    not exist. *)
Definition cat_tokens : cmdline_tokens :=
  mk_tokens ["/bin/cat"] (Some "in.txt") (Some "/nodir/out") BUILTIN_NONE.
Definition cat_answers : os_answers :=
  mk_os (Opened 3) (OpenFailed ENOENT) 100 [] None (Opened 3) [].

(** [./notes.txt], a readable file that cannot be executed, seen from
    the child ([fork] returned 0). *)
Definition notes_tokens : cmdline_tokens := command BUILTIN_NONE ["./notes.txt"].
Definition notes_answers : os_answers :=
  mk_os (Opened 3) (Opened 4) 0 [] (Some EACCES) (Opened 3) [].

(** [/bin/ls] in the foreground, seen from the shell; the child exits
    while the shell sleeps. *)
Definition ls_tokens : cmdline_tokens := command BUILTIN_NONE ["/bin/ls"].
Definition ls_answers : os_answers :=
  mk_os (Opened 3) (Opened 4) 100 [] None (Opened 3) [ChildChanged 100 (WExited 0)].

(** [/bin/ls &] when the job list, of capacity 1, is full: the child,
    process 200, runs without a record, and is then killed by signal 9
    while the shell is at the prompt. *)
Definition unlisted_answers : os_answers :=
  mk_os (Opened 3) (Opened 4) 200 [] None (Opened 3) [].
Definition unlisted_launched : shell :=
  final_state (eval 1 "/bin/ls &" PARSELINE_BG ls_tokens unlisted_answers
                    one_stopped_job).
Definition unlisted_killed : shell :=
  deliver (arrive (ChildChanged 200 (WSignaled 9)) unlisted_launched).

(** A signal that the shell has no use for, blocked when it starts. *)
Definition SIGUSR1 : Z := 10.

(** ** The wait, statement by statement

    The same loop with the events of the world interleaved between its
    statements: anywhere an event may arrive, and a signal that is
    pending and not blocked has its handler run, to completion (the
    handlers block the three signals themselves).  [sigsuspend] installs
    its mask and goes to sleep in one step, as the system call does; it
    returns, with the old mask back and [errno] set to [EINTR], once a
    handler has run. *)

Inductive wait_pc :=
| BeforeBlock                 (* before sigprocmask(SIG_BLOCK, &sigchld, NULL) *)
| AtCheck                     (* before (fjid = fg_job()) > 0 *)
| AtState (fjid : Z)          (* before job_get_state(fjid) == ST *)
| AtSuspend                   (* before sigsuspend(&mask) *)
| Sleeping (saved : gset Z)   (* inside sigsuspend, no handler has run yet *)
| Awake (saved : gset Z)      (* inside sigsuspend, a handler has run *)
| LoopDone.                   (* behind the loop *)

Definition in_sigsuspend (pc : wait_pc) : bool :=
  match pc with
  | Sleeping _ | Awake _ => true
  | _ => false
  end.

Inductive wait_step (mask : gset Z) : wait_pc * shell → wait_pc * shell → Prop :=
| ws_arrive pc sh e :
    wait_step mask (pc, sh) (pc, arrive e sh)
| ws_deliver pc sh sig :
    in_sigsuspend pc = false →
    is_Some (handler_of sig) → deliverable sig sh = true →
    wait_step mask (pc, sh) (pc, run_handler sig sh)
| ws_wake saved sh sig :
    is_Some (handler_of sig) → deliverable sig sh = true →
    wait_step mask (Sleeping saved, sh) (Awake saved, run_handler sig sh)
| ws_wake_more saved sh sig :
    is_Some (handler_of sig) → deliverable sig sh = true →
    wait_step mask (Awake saved, sh) (Awake saved, run_handler sig sh)
| ws_return saved sh :
    wait_step mask (Awake saved, sh)
              (AtCheck, set_errno EINTR (set_sigmask saved sh))
| ws_block sh :
    wait_step mask (BeforeBlock, sh)
              (AtCheck, (change_mask SIG_BLOCK three_signals sh).2)
| ws_fg sh :
    0 < fg_job (jobs sh) →
    wait_step mask (AtCheck, sh) (AtState (fg_job (jobs sh)), sh)
| ws_no_fg sh :
    ¬ 0 < fg_job (jobs sh) →
    wait_step mask (AtCheck, sh) (LoopDone, sh)
| ws_stopped fjid sh :
    job_get_state (jobs sh) fjid = Some ST →
    wait_step mask (AtState fjid, sh) (LoopDone, sh)
| ws_running fjid sh :
    job_get_state (jobs sh) fjid ≠ Some ST →
    wait_step mask (AtState fjid, sh) (AtSuspend, sh)
| ws_suspend sh :
    wait_step mask (AtSuspend, sh) (Sleeping (sigmask sh), set_sigmask mask sh).

(** What holds at each point of the loop: the three signals are blocked
    wherever the program is not inside [sigsuspend]; from the test to
    the sleep the job list still shows the foreground job that the test
    saw; and the shell is never asleep without a foreground job. *)
Definition wait_inv (mask : gset Z) (st : wait_pc * shell) : Prop :=
  let sh := st.2 in
  match st.1 with
  | BeforeBlock => True
  | AtCheck => three_signals ⊆ sigmask sh
  | AtState fjid =>
      three_signals ⊆ sigmask sh ∧ fg_job (jobs sh) = fjid ∧ 0 < fjid
  | AtSuspend => three_signals ⊆ sigmask sh ∧ 0 < fg_job (jobs sh)
  | Sleeping saved =>
      three_signals ⊆ saved ∧ sigmask sh = mask ∧ 0 < fg_job (jobs sh)
  | Awake saved => three_signals ⊆ saved ∧ sigmask sh = mask
  | LoopDone => three_signals ⊆ sigmask sh ∧ fg_job (jobs sh) = 0
  end.

(** ** Reachable states

    The shell starts with an empty job list.  At the prompt an event may
    arrive, and is delivered if the mask lets it through; a command line
    is evaluated and [eval] returns.  A state in which the shell sleeps
    inside the wait of [eval] is reachable too. *)

Section Reachable.

Variable MAXJOBS : nat.

Inductive at_prompt : shell → Prop :=
| prompt_start m : at_prompt (fresh_shell m)
| prompt_event e sh :
    at_prompt sh → at_prompt (deliver (arrive e sh))
| prompt_eval cmdline pr token os sh sh' :
    at_prompt sh →
    eval MAXJOBS cmdline pr token os sh = Returned sh' →
    at_prompt sh'.

Inductive reachable : shell → Prop :=
| reach_prompt sh : at_prompt sh → reachable sh
| reach_asleep cmdline pr token os sh sh' :
    at_prompt sh →
    eval MAXJOBS cmdline pr token os sh = Asleep sh' →
    reachable sh'.

End Reachable.


(** ** Notions for the properties of whole calls *)

(** No signal is waiting that the mask would let through: changing the
    mask back to what it was runs no handler. *)
Definition quiet (sh : shell) : Prop := any_deliverable sh = false.

(** No two records are of one process. *)
Definition pids_distinct (t : job_list) : Prop :=
  ∀ j1 j2 r1 r2, slots t !! j1 = Some r1 → slots t !! j2 = Some r2 →
                 job_pid r1 = job_pid r2 → j1 = j2.

(** The job list has no record of process [pid]. *)
Definition no_record_of (pid : Z) (t : job_list) : Prop :=
  ∀ j r, slots t !! j = Some r → job_pid r ≠ pid.

(** The state [sh'] is [sh] but, possibly, for what [errno] holds. *)
Definition same_but_errno (sh sh' : shell) : Prop :=
  set_errno (errno sh) sh' = sh.

(** A call that returns does so with the signal mask [m]. *)
Definition returns_with_mask (m : gset Z) (o : outcome) : Prop :=
  match o with
  | Returned sh => sigmask sh = m
  | _ => True
  end.

(** A call that returns does so in a state with [P]. *)
Definition returns (P : shell → Prop) (o : outcome) : Prop :=
  match o with
  | Returned sh => P sh
  | _ => True
  end.

(** The shell once the input file, if one is named, has been opened. *)
Definition after_infile (token : cmdline_tokens) (os : os_answers) (sh : shell)
  : shell :=
  match infile token, open_infile os with
  | Some _, Opened fd => set_fds (fds sh ∪ {[Z.of_N fd]}) sh
  | _, _ => sh
  end.

(** The process is still the shell: it returned to the prompt or sleeps
    in the wait; it neither exited nor became another program. *)
Definition survives (o : outcome) : Prop :=
  match o with
  | Returned _ | Asleep _ => True
  | _ => False
  end.

(** The shell once both files, as far as they are named, have been
    opened. *)
Definition after_outfile (token : cmdline_tokens) (os : os_answers) (sh : shell)
  : shell :=
  match outfile token, open_outfile os with
  | Some _, Opened fd => set_fds (fds sh ∪ {[Z.of_N fd]}) sh
  | _, _ => sh
  end.

(** The [dup2] calls of the child: the input descriptor onto 0, the
    output descriptor onto 1. *)
Definition redirections (token : cmdline_tokens) (os : os_answers) : list (Z * Z) :=
  match infile token, open_infile os with
  | Some _, Opened fd => [(Z.of_N fd, 0)]
  | _, _ => []
  end ++
  match outfile token, open_outfile os with
  | Some _, Opened fd => [(Z.of_N fd, 1)]
  | _, _ => []
  end.

(** What may have happened between two states when nothing but signal
    handlers ran, the shell sleeping in [sigsuspend] in between: records
    left the job list or became stopped, signals were forwarded, notices
    were written; and [errno] is what it was or, once [sigsuspend] has
    returned, [EINTR]. *)
Definition handled (sh sh' : shell) : Prop :=
  shrinks (jobs sh) (jobs sh')
  ∧ (∃ k, kills sh' = (kills sh ++ k)%list)
  ∧ (∃ o, output sh' = (output sh ++ o)%list)
  ∧ fds sh' = fds sh ∧ forks sh' = forks sh ∧ dups sh' = dups sh
  ∧ (errno sh' = errno sh ∨ errno sh' = EINTR).

(** The wait for job [j] is over. *)
Definition fg_over (j : positive) (t : job_list) : Prop :=
  fg_gone j t ∨ fg_stopped j t.

(** How a call that waits for job [j] may end: back at the prompt with
    no foreground job and [j] gone or stopped, or still asleep with [j]
    in the foreground. *)
Definition waited_for (j : positive) (o : outcome) : Prop :=
  match o with
  | Returned sh => no_fg (jobs sh) ∧ fg_over j (jobs sh)
  | Asleep sh => fg_running j (jobs sh)
  | _ => False
  end.

(** The signal an event raises, its handler, and the child it adds to
    those [waitpid] has to report. *)
Definition signal_of (e : env_event) : Z :=
  match e with
  | ChildChanged _ _ => SIGCHLD
  | KeyInterrupt => SIGINT
  | KeySuspend => SIGTSTP
  end.

Definition handler_for (e : env_event) : shell → shell :=
  match e with
  | ChildChanged _ _ => sigchld_handler
  | KeyInterrupt => sigint_handler
  | KeySuspend => sigtstp_handler
  end.

Definition child_of (e : env_event) : list (Z * wstatus) :=
  match e with
  | ChildChanged pid status => [(pid, status)]
  | _ => []
  end.

(** The processes created, the descriptors duplicated and the open
    descriptors are the same in both states. *)
Definition same_resources (sh sh' : shell) : Prop :=
  forks sh' = forks sh ∧ dups sh' = dups sh ∧ fds sh' = fds sh.

(** The descriptors that the redirections of a command opened. *)
Definition opened (token : cmdline_tokens) (os : os_answers) : gset Z :=
  match infile token, open_infile os with
  | Some _, Opened fd => {[Z.of_N fd]}
  | _, _ => ∅
  end ∪
  match outfile token, open_outfile os with
  | Some _, Opened fd => {[Z.of_N fd]}
  | _, _ => ∅
  end.

(** How a foreground launch leaves the descriptors: closed again when
    [eval] returns, open while the shell sleeps. *)
Definition files_closed (before : gset Z) (new : gset Z) (o : outcome) : Prop :=
  match o with
  | Returned sh => fds sh = (before ∪ new) ∖ new
  | Asleep sh => fds sh = before ∪ new
  | _ => False
  end.

(** A character at which [atoi] stops wherever it stands: neither white
    space nor a sign nor a digit. *)
Definition ends_number (c : ascii) : bool :=
  negb (is_space c) && negb (Ascii.eqb c "-") && negb (Ascii.eqb c "+")
  && negb (bool_decide (is_Some (digit_of c))).

(** ** [main]: the read loop

    The line that [fgets] has read is cut at its first newline
    ([strchr], then a 0 in its place) before [eval] gets it. *)
Fixpoint strip_newline (s : string) : string :=
  match s with
  | String c s' =>
      if Ascii.eqb c (ascii_of_nat 10) then EmptyString
      else String c (strip_newline s')
  | EmptyString => EmptyString
  end.

(** Whether a newline is among the characters of a line. *)
Fixpoint has_newline (s : string) : bool :=
  match s with
  | String c s' => Ascii.eqb c (ascii_of_nat 10) || has_newline s'
  | EmptyString => false
  end.

(** The states in which [main] is at the top of its loop, for a shell
    started with the signal mask [m]: as [at_prompt], with the mask of
    the start kept track of. *)
Section ReadLoop.

Variable MAXJOBS : nat.
Variable m : gset Z.

Inductive prompt_from : shell → Prop :=
| from_start : prompt_from (fresh_shell m)
| from_event e sh :
    prompt_from sh → prompt_from (deliver (arrive e sh))
| from_eval cmdline pr token os sh sh' :
    prompt_from sh →
    eval MAXJOBS cmdline pr token os sh = Returned sh' →
    prompt_from sh'.

End ReadLoop.

(** ** More sample inputs *)

(** [/bin/cat < missing.txt]: the input file does not exist. *)
Definition missing_tokens : cmdline_tokens :=
  mk_tokens ["/bin/cat"] (Some "missing.txt") None BUILTIN_NONE.
Definition missing_answers : os_answers :=
  mk_os (OpenFailed ENOENT) (Opened 4) 100 [] None (Opened 3) [].

(** [/bin/sort < in.txt > out.txt]; both files open.  Seen from the
    child ([fork] returned 0), where [execve] succeeds, and seen from
    the shell, where the child exits while the shell sleeps. *)
Definition sort_tokens : cmdline_tokens :=
  mk_tokens ["/bin/sort"] (Some "in.txt") (Some "out.txt") BUILTIN_NONE.
Definition sort_child_answers : os_answers :=
  mk_os (Opened 3) (Opened 4) 0 [] None (Opened 3) [].
Definition sort_answers : os_answers :=
  mk_os (Opened 3) (Opened 4) 100 [] None (Opened 3) [ChildChanged 100 (WExited 0)].

(** [/bin/ls] seen from the shell, the child being over before the shell
    has made its record; nothing happens afterwards. *)
Definition quick_answers : os_answers :=
  mk_os (Opened 3) (Opened 4) 100 [ChildChanged 100 (WExited 0)] None (Opened 3) [].
(** * Properties *)

(** ** The job list *)

Lemma find_job_Some P t j r :
  find_job P t = Some (j, r) → slots t !! j = Some r ∧ P r = true.
Proof.
  unfold find_job. intros H. apply head_Some_elem_of in H.
  apply list_elem_of_filter in H as [HP Hin].
  by apply elem_of_map_to_list in Hin.
Qed.

Lemma find_job_None P t j r :
  find_job P t = None → slots t !! j = Some r → P r = false.
Proof.
  unfold find_job. intros H Hl. apply head_None in H.
  destruct (P r) eqn:HP; [|done].
  exfalso. eapply (filter_nil_not_elem_of _ _ (j, r)) in H; [|done].
  apply H. by apply elem_of_map_to_list.
Qed.

Lemma fg_job_pos t j :
  fg_job t = Zpos j → ∃ r, slots t !! j = Some r ∧ job_st r = FG.
Proof.
  unfold fg_job. destruct (find_job _ t) as [[j' r]|] eqn:H; [|done].
  intros [= ->]. apply find_job_Some in H as [Hl HP].
  exists r. split; [done|]. by apply bool_decide_eq_true in HP.
Qed.

Lemma fg_job_zero t j r :
  fg_job t = 0 → slots t !! j = Some r → job_st r ≠ FG.
Proof.
  unfold fg_job. destruct (find_job _ t) as [[j' r']|] eqn:H; [done|].
  intros _ Hl. eapply find_job_None in H; [|done].
  by apply bool_decide_eq_false in H.
Qed.

Lemma fg_job_cases t :
  fg_job t = 0 ∨ ∃ j, fg_job t = Zpos j.
Proof.
  unfold fg_job. destruct (find_job _ t) as [[j r]|]; eauto.
Qed.

Lemma job_from_pid_pos t pid j :
  job_from_pid t pid = Zpos j → ∃ r, slots t !! j = Some r ∧ job_pid r = pid.
Proof.
  unfold job_from_pid. destruct (find_job _ t) as [[j' r]|] eqn:H; [|done].
  intros [= ->]. apply find_job_Some in H as [Hl HP].
  exists r. split; [done|]. by apply bool_decide_eq_true in HP.
Qed.

Lemma job_from_pid_zero t pid j r :
  job_from_pid t pid = 0 → slots t !! j = Some r → job_pid r ≠ pid.
Proof.
  unfold job_from_pid. destruct (find_job _ t) as [[j' r']|] eqn:H; [done|].
  intros _ Hl. eapply find_job_None in H; [|done].
  by apply bool_decide_eq_false in H.
Qed.

Lemma job_from_pid_cases t pid :
  job_from_pid t pid = 0 ∨ ∃ j, job_from_pid t pid = Zpos j.
Proof.
  unfold job_from_pid. destruct (find_job _ t) as [[j r]|]; eauto.
Qed.

(** ** Job references *)

Lemma digits_no_digit acc c s :
  digit_of c = None → digits acc (String c s) = acc.
Proof. intros H. simpl. by rewrite H. Qed.

Lemma atoi_no_number s : has_number s = false → atoi s = 0.
Proof.
  unfold has_number, atoi, strtol.
  destruct (skip_spaces s) as [|c s']; [done|].
  destruct (Ascii.eqb c "-") eqn:Hm; cbn [orb].
  - destruct s' as [|d s'']; [done|].
    intros H%bool_decide_eq_false. rewrite digits_no_digit; [done|].
    destruct (digit_of d); [|done]. exfalso. eauto.
  - destruct (Ascii.eqb c "+") eqn:Hp.
    + destruct s' as [|d s'']; [done|].
      intros H%bool_decide_eq_false. rewrite digits_no_digit; [done|].
      destruct (digit_of d); [|done]. exfalso. eauto.
    + intros H%bool_decide_eq_false. rewrite digits_no_digit; [done|].
      destruct (digit_of c); [|done]. exfalso. eauto.
Qed.

(** C8.  When [bg] or [fg] gets no argument, an argument without a
    number, or one that [atoi] turns into 0, [builtincmd] writes the
    matching message of the specification and changes nothing else: in
    particular the job list stays as it was, so no job and no process can
    be named by the number 0. *)
Theorem bg_fg_bad_argument pr token os sh :
  builtin token = BUILTIN_BG ∨ builtin token = BUILTIN_FG →
  argc token = 1
  ∨ has_number (job_ref_num (argv_at token 1)) = false
  ∨ atoi (job_ref_num (argv_at token 1)) = 0 →
  let msg := if argc token =? 1 then missing_argument (builtin token)
             else invalid_argument (builtin token) in
  builtincmd pr token os sh = Returned (sio_printf msg sh)
  ∧ jobs (sio_printf msg sh) = jobs sh.
Proof.
  intros Hb Hbad msg. split; [|done].
  assert (argc token ≠ 1 → atoi (job_ref_num (argv_at token 1)) = 0) as Hz.
  { intros Hn. destruct Hbad as [?|[?|?]]; [done| |done].
    by apply atoi_no_number. }
  unfold builtincmd, msg.
  destruct Hb as [-> | ->]; destruct (Z.eqb_spec (argc token) 1) as [|Hn];
    try done; rewrite (Hz Hn); done.
Qed.

Lemma bg_fg_bad_argument_witness :
  builtincmd PARSELINE_FG (command BUILTIN_BG ["bg"; "%0"]) no_answers
             one_stopped_job
  = Returned (sio_printf (invalid_argument BUILTIN_BG) one_stopped_job)
  ∧ jobs (sio_printf (invalid_argument BUILTIN_BG) one_stopped_job)
    = jobs one_stopped_job.
Proof.
  apply (bg_fg_bad_argument PARSELINE_FG (command BUILTIN_BG ["bg"; "%0"])
                            no_answers one_stopped_job).
  - left. reflexivity.
  - right. right. reflexivity.
Defined.

(** ** Signal masks *)

Lemma three_in_fill sig : sig ∈ three_signals → sig ∈ sigfillset.
Proof.
  unfold three_signals, sigaddset, sigemptyset.
  rewrite !elem_of_union, !elem_of_singleton.
  intros [[[[]%not_elem_of_empty | ->] | ->] | ->]; by vm_compute.
Qed.

Lemma deliverable_blocked sig sh :
  sig ∈ sigmask sh → deliverable sig sh = false.
Proof.
  intros H. unfold deliverable. rewrite (bool_decide_eq_true_2 _ H).
  by rewrite andb_false_r.
Qed.

Lemma deliver_blocked sh :
  three_signals ⊆ sigmask sh → deliver sh = sh.
Proof.
  intros H. unfold deliver, deliver_one.
  assert (∀ sig, sig ∈ three_signals → deliverable sig sh = false) as Hb.
  { intros sig Hs. apply deliverable_blocked. by apply H. }
  rewrite (Hb SIGTSTP), (Hb SIGCHLD), (Hb SIGINT); [done|..];
    unfold three_signals, sigaddset; set_solver.
Qed.

Lemma sigprocmask_block set sh :
  three_signals ⊆ set →
  sigprocmask SIG_BLOCK set sh = (sigmask sh, set_sigmask (sigmask sh ∪ set) sh).
Proof.
  intros H. unfold sigprocmask, change_mask.
  rewrite deliver_blocked; [done|]. simpl. set_solver.
Qed.

Lemma three_subseteq_fill : three_signals ⊆ sigfillset.
Proof. intros sig. apply three_in_fill. Qed.

Lemma job_ref_num_marker arg : job_ref_num ("%" +:+ arg) = arg.
Proof. reflexivity. Qed.

Lemma lookup_job_set_state t jid st jid' :
  lookup_job (job_set_state jid st t) jid'
  = if decide (jid = jid' ∧ 0 < jid)
    then (λ r, mk_job (job_pid r) st (job_cmdline r)) <$> lookup_job t jid'
    else lookup_job t jid'.
Proof.
  unfold job_set_state, lookup_job.
  destruct jid as [|j|j]; [case_decide as H; [by destruct H as [_ ?]|done]| |
    case_decide as H; [by destruct H as [_ ?]|done]].
  destruct jid' as [|j'|j']; cbn [slots].
  - case_decide; naive_solver.
  - destruct (decide (j = j')) as [->|Hne].
    + rewrite lookup_alter_eq. by rewrite decide_True.
    + rewrite lookup_alter_ne by done. rewrite decide_False; [done|].
      intros [[=] _]. done.
  - case_decide; naive_solver.
Qed.

Lemma job_get_pid_set_state t jid st jid' :
  job_get_pid (job_set_state jid st t) jid' = job_get_pid t jid'.
Proof.
  unfold job_get_pid. rewrite lookup_job_set_state.
  case_decide; [|done]. by destruct (lookup_job t jid').
Qed.

Lemma job_get_cmdline_set_state t jid st jid' :
  job_get_cmdline (job_set_state jid st t) jid' = job_get_cmdline t jid'.
Proof.
  unfold job_get_cmdline. rewrite lookup_job_set_state.
  case_decide; [|done]. by destruct (lookup_job t jid').
Qed.

(** C1 (as amended).  For [bg] and [fg] the marker does not decide how
    the numeral is read: a reference that resolves to a job is treated
    alike with and without the percent sign.  In particular, when job 1
    is live and its process id is not itself the id of a live job,
    [%1] and any spelling of that process id make the builtin do exactly
    the same: same job, same output. *)
Theorem job_ref_marker_optional b pr os sh name arg inf outf :
  b = BUILTIN_BG ∨ b = BUILTIN_FG →
  (job_ref_num arg = arg →
   job_exists (jobs sh) (atoi arg) = true ∨ job_from_pid (jobs sh) (atoi arg) ≠ 0 →
   builtincmd pr (mk_tokens [name; "%" +:+ arg] inf outf b) os sh
   = builtincmd pr (mk_tokens [name; arg] inf outf b) os sh)
  ∧ (∀ p, atoi (job_ref_num arg) = p → p ≠ 0 →
     job_exists (jobs sh) 1 = true →
     job_get_pid (jobs sh) 1 = p →
     job_exists (jobs sh) p = false →
     job_from_pid (jobs sh) p = 1 →
     builtincmd pr (mk_tokens [name; "%1"] inf outf b) os sh
     = builtincmd pr (mk_tokens [name; arg] inf outf b) os sh).
Proof.
  intros Hb. split.
  - intros Hnum Hres.
    unfold builtincmd, argc, argv_at. cbn [builtin argv nth length].
    rewrite job_ref_num_marker, Hnum.
    destruct Hb as [-> | ->]; cbn [Z.of_nat Pos.of_succ_nat Pos.succ Z.eqb Pos.eqb];
      (destruct (atoi arg =? 0); [done|]);
      rewrite (sigprocmask_block _ _ three_subseteq_fill); cbn [jobs set_sigmask];
      (destruct (job_exists (jobs sh) (atoi arg)) eqn:He; [done|]);
      (destruct (Z.eqb_spec (job_from_pid (jobs sh) (atoi arg)) 0) as [Hz|];
       [destruct Hres; done|done]).
  - intros p Hp Hp0 He1 Hpid Hep Hfrom.
    unfold builtincmd, argc, argv_at. cbn [builtin argv nth length].
    rewrite Hp. change (atoi (job_ref_num "%1")) with 1.
    destruct Hb as [-> | ->]; cbn [Z.of_nat Pos.of_succ_nat Pos.succ Z.eqb Pos.eqb];
      (destruct (Z.eqb_spec p 0); [done|]);
      rewrite (sigprocmask_block _ _ three_subseteq_fill); cbn [jobs set_sigmask];
      rewrite He1, Hep, Hfrom; cbn [jobs set_jobs];
      rewrite ?job_get_pid_set_state, Hpid; reflexivity.
Qed.

Lemma job_ref_marker_optional_witness :
  builtincmd PARSELINE_FG (command BUILTIN_BG ["bg"; "%100"]) no_answers
             one_stopped_job
  = builtincmd PARSELINE_FG (command BUILTIN_BG ["bg"; "100"]) no_answers
               one_stopped_job
  ∧ builtincmd PARSELINE_FG (command BUILTIN_BG ["bg"; "%1"]) no_answers
               one_stopped_job
    = builtincmd PARSELINE_FG (command BUILTIN_BG ["bg"; "100"]) no_answers
                 one_stopped_job.
Proof.
  pose proof (job_ref_marker_optional BUILTIN_BG PARSELINE_FG no_answers
                one_stopped_job "bg" "100" None None (or_introl eq_refl))
    as [HA HC].
  split.
  - apply HA; [reflexivity|]. right. by vm_compute.
  - apply (HC 100); by vm_compute.
Defined.

(** C1 (as stated) fails: with job 1 stopped and no process 1 anywhere,
    the rule of the specification reads the bare [1] as a process id and
    finds no job, while [bg 1] restarts job 1 and announces it. *)
Lemma bare_number_read_as_job_id :
  ¬ bg_follows_marker_rule (command BUILTIN_BG ["bg"; "1"]) no_answers
      one_stopped_job.
Proof.
  intros (sh' & H & Hout). vm_compute in H. injection H as <-.
  vm_compute in Hout. discriminate.
Qed.
Lemma lookup_job_delete t jid jid' :
  lookup_job (delete_job jid t).2 jid'
  = if decide (jid = jid') then None else lookup_job t jid'.
Proof.
  unfold delete_job, lookup_job.
  destruct jid as [|j|j]; cbn [snd].
  - case_decide; [by subst|done].
  - destruct (slots t !! j) eqn:Hj; cbn [snd slots].
    + destruct jid' as [|j'|j']; [by rewrite decide_False|..|by rewrite decide_False].
      destruct (decide (j = j')) as [->|Hne].
      * rewrite lookup_delete_eq. by rewrite decide_True.
      * rewrite lookup_delete_ne by done. rewrite decide_False; [done|]. by intros [=].
    + case_decide as H; [|done]. by subst.
  - case_decide; [by subst|done].
Qed.

Lemma reap_with_record sh pid status j :
  job_from_pid (jobs sh) pid = Zpos j →
  let sh' := reap pid status sh in
  match status with
  | WSignaled sig =>
      output sh' = (output sh ++ [(STDOUT_FILENO, terminated_notice (Zpos j) pid sig)])%list
      ∧ lookup_job (jobs sh') (Zpos j) = None
  | WStopped sig =>
      output sh' = (output sh ++ [(STDOUT_FILENO, stopped_notice (Zpos j) pid sig)])%list
      ∧ ∃ r, lookup_job (jobs sh) (Zpos j) = Some r
             ∧ lookup_job (jobs sh') (Zpos j) = Some (mk_job pid ST (job_cmdline r))
  | WExited _ =>
      output sh' = output sh
      ∧ lookup_job (jobs sh') (Zpos j) = None
  end
  ∧ ∀ jid, jid ≠ Zpos j → lookup_job (jobs sh') jid = lookup_job (jobs sh) jid.
Proof.
  intros Hj sh'. subst sh'. unfold reap. rewrite Hj.
  destruct (job_from_pid_pos _ _ _ Hj) as (r & Hr & Hpid).
  destruct status as [c|sig|sig]; cbn -[delete_job job_set_state lookup_job].
  - rewrite !lookup_job_delete. split; [split; [done|by rewrite decide_True]|].
    intros jid Hne. rewrite lookup_job_delete. by rewrite decide_False.
  - rewrite !lookup_job_delete. split; [split; [done|by rewrite decide_True]|].
    intros jid Hne. rewrite lookup_job_delete. by rewrite decide_False.
  - split; [split; [done|]|].
    + exists r. split; [done|]. rewrite lookup_job_set_state.
      rewrite decide_True by done. cbn [lookup_job]. rewrite Hr. cbn. by rewrite Hpid.
    + intros jid Hne. rewrite lookup_job_set_state. rewrite decide_False; [done|].
      intros [? _]. done.
Qed.

Lemma reap_without_record sh pid status :
  job_from_pid (jobs sh) pid = 0 →
  let sh' := reap pid status sh in
  jobs sh' = jobs sh
  ∧ output sh'
    = match status with
      | WStopped sig =>
          (output sh ++ [(STDOUT_FILENO, stopped_notice 0 pid sig)])%list
      | _ => output sh
      end.
Proof.
  intros Hj sh'. subst sh'. unfold reap. rewrite Hj.
  by destruct status as [c|sig|sig]; cbn.
Qed.

(** [reap] looks neither at the signal mask nor at the children still
    waiting. *)
Lemma reap_set_sigmask m pid status sh :
  reap pid status (set_sigmask m sh) = set_sigmask m (reap pid status sh).
Proof.
  unfold reap. cbn [jobs set_sigmask].
  destruct (WIFSIGNALED status && _), (WIFSTOPPED status); reflexivity.
Qed.

Lemma reap_kept pid status sh :
  zombies (reap pid status sh) = zombies sh
  ∧ sigmask (reap pid status sh) = sigmask sh
  ∧ errno (reap pid status sh) = errno sh.
Proof.
  unfold reap. by destruct (WIFSIGNALED status && _), (WIFSTOPPED status).
Qed.

(** The handler takes the children that wait one after the other: to
    run it with [(pid, status)] first in line is to reap that child and
    to run it for the others. *)
Lemma sigchld_handler_next sh pid status zs :
  zombies sh = (pid, status) :: zs →
  sigchld_handler sh = sigchld_handler (reap pid status (set_zombies zs sh)).
Proof.
  intros Hz. unfold sigchld_handler. cbn [change_mask fst snd].
  destruct (reap_kept pid status (set_zombies zs sh)) as (Hz' & Hm' & He').
  cbn [zombies sigmask errno set_sigmask set_zombies] in *.
  rewrite Hz, Hz', Hm', He'. cbn [reap_all].
  change (set_zombies zs (set_sigmask ?m sh))
    with (set_sigmask m (set_zombies zs sh)).
  by rewrite reap_set_sigmask.
Qed.



Lemma open_opened_nonneg fd sh : ((open (Opened fd) sh).1 <? 0) = false.
Proof. simpl. apply Z.ltb_ge. lia. Qed.

Lemma child_exits_zero MAXJOBS cmdline pr token os sh e :
  launches pr token → redirections_open token os →
  fork_pid os = 0 → execve_error os = Some e →
  ∃ sh', eval MAXJOBS cmdline pr token os sh = Exited 0 sh'.
Proof.
  intros [Hpr Hb] [Hin Hout] Hf He.
  unfold eval, builtincmd. rewrite Hb, Hf, He. cbn [and_then].
  rewrite bool_decide_eq_true_2 by done. cbn [negb].
  destruct (sigprocmask SIG_BLOCK three_signals sh) as [prev_all sh1].
  assert (∀ sh0, ∃ sh', (let '(fdin, sh2) := open (open_argv0 os) (set_errno e sh0) in
              let sh3 := if fdin <? 0 then file_error (argv_at token 0) sh2 else sh2 in
              Exited 0 sh3) = Exited 0 sh') as Hend.
  { intros sh0. destruct (open _ _) as [fdin sh2]. eauto. }
  destruct Hpr as [-> | ->].
  all: destruct (infile token) as [fin|].
  all: try (destruct Hin as [fd1 ->]; [done|]).
  all: destruct (outfile token) as [fo|].
  all: try (destruct Hout as [fd2 ->]; [done|]).
  all: cbn [open bool_decide decide_rel andb fork fst snd Z.eqb].
  all: rewrite ?bool_decide_eq_true_2 by eauto.
  all: rewrite ?bool_decide_eq_false_2 by (intros [? [=]]).
  all: cbn [andb].
  all: repeat match goal with |- context [Z.of_N ?n <? 0] =>
         replace (Z.of_N n <? 0) with false by (symmetry; apply Z.ltb_ge; lia) end.
  all: apply Hend.
Qed.
Lemma shrinks_refl t : shrinks t t.
Proof. intros j r H. exists r. auto. Qed.

Lemma shrinks_trans t1 t2 t3 : shrinks t1 t2 → shrinks t2 t3 → shrinks t1 t3.
Proof.
  intros H12 H23 j r3 H3.
  destruct (H23 _ _ H3) as (r2 & H2 & Hp & Hc & Hs).
  destruct (H12 _ _ H2) as (r1 & H1 & Hp' & Hc' & Hs').
  exists r1. repeat split; [done|congruence|congruence|].
  destruct Hs as [Hs|Hs]; [|by right]. rewrite Hs. done.
Qed.

Lemma shrinks_delete jid t : shrinks t (delete_job jid t).2.
Proof.
  unfold delete_job. destruct jid as [|j|j]; try apply shrinks_refl.
  destruct (slots t !! j) eqn:Hj; [|apply shrinks_refl].
  intros j' r' H. cbn in H. apply lookup_delete_Some in H as [_ H].
  exists r'. auto.
Qed.

Lemma shrinks_stop jid t : shrinks t (job_set_state jid ST t).
Proof.
  unfold job_set_state. destruct jid as [|j|j]; try apply shrinks_refl.
  intros j' r' H. cbn in H.
  destruct (decide (j = j')) as [->|Hne].
  - rewrite lookup_alter_eq in H. destruct (slots t !! j') as [r|] eqn:Hr; [|done].
    injection H as <-. exists r. auto.
  - rewrite lookup_alter_ne in H by done. exists r'. auto.
Qed.

Lemma reap_shrinks pid status sh : shrinks (jobs sh) (jobs (reap pid status sh)).
Proof.
  unfold reap.
  destruct status as [c|sig|sig]; cbn [WIFSIGNALED WIFSTOPPED negb andb].
  - apply shrinks_delete.
  - destruct (negb _); apply shrinks_delete.
  - apply shrinks_stop.
Qed.

Lemma same_process_refl sh : same_process sh sh.
Proof. by repeat split. Qed.

Lemma same_process_trans sh1 sh2 sh3 :
  same_process sh1 sh2 → same_process sh2 sh3 → same_process sh1 sh3.
Proof. unfold same_process. intros (?&?&?&?&?) (?&?&?&?&?). repeat split; congruence. Qed.

Lemma reap_same pid status sh : same_process sh (reap pid status sh).
Proof.
  unfold reap.
  destruct status as [c|sig|sig]; cbn [WIFSIGNALED WIFSTOPPED negb andb];
    try destruct (negb _); by repeat split.
Qed.

Lemma reap_all_same zs sh : same_process sh (reap_all zs sh).
Proof.
  revert sh. induction zs as [|[pid status] zs IH]; intros sh; [apply same_process_refl|].
  cbn [reap_all]. eapply same_process_trans; [|apply IH].
  apply (reap_same pid status (set_zombies zs sh)).
Qed.

Lemma reap_all_shrinks zs sh : shrinks (jobs sh) (jobs (reap_all zs sh)).
Proof.
  revert sh. induction zs as [|[pid status] zs IH]; intros sh; [apply shrinks_refl|].
  cbn [reap_all]. eapply shrinks_trans; [|apply IH].
  apply (reap_shrinks pid status (set_zombies zs sh)).
Qed.

Lemma sigchld_handler_shrinks sh : shrinks (jobs sh) (jobs (sigchld_handler sh)).
Proof. unfold sigchld_handler. cbn. apply (reap_all_shrinks _ (set_sigmask _ sh)). Qed.

Lemma sigchld_handler_same sh : same_process sh (sigchld_handler sh).
Proof.
  unfold sigchld_handler. cbn.
  destruct (reap_all_same (zombies sh) (set_sigmask (sigmask sh ∪ three_signals) sh))
    as (?&?&?&?&?).
  by repeat split.
Qed.

Lemma sigint_handler_jobs sh : jobs (sigint_handler sh) = jobs sh.
Proof. unfold sigint_handler. cbn. by destruct (negb _). Qed.

Lemma sigint_handler_same sh : same_process sh (sigint_handler sh).
Proof. unfold sigint_handler. cbn. by destruct (negb _). Qed.

Lemma sigtstp_handler_jobs sh : jobs (sigtstp_handler sh) = jobs sh.
Proof. unfold sigtstp_handler. cbn. by destruct (negb _). Qed.

Lemma sigtstp_handler_same sh : same_process sh (sigtstp_handler sh).
Proof. unfold sigtstp_handler. cbn. by destruct (negb _). Qed.

Lemma handler_of_cases sig h :
  handler_of sig = Some h →
  (sig = SIGCHLD ∧ h = sigchld_handler) ∨ (sig = SIGINT ∧ h = sigint_handler)
  ∨ (sig = SIGTSTP ∧ h = sigtstp_handler).
Proof.
  unfold handler_of. repeat case_decide; intros [=]; subst; auto.
Qed.

Lemma handler_shrinks sig h sh :
  handler_of sig = Some h → shrinks (jobs sh) (jobs (h sh)).
Proof.
  intros [[_ ->]|[[_ ->]|[_ ->]]]%handler_of_cases.
  - apply sigchld_handler_shrinks.
  - rewrite sigint_handler_jobs. apply shrinks_refl.
  - rewrite sigtstp_handler_jobs. apply shrinks_refl.
Qed.

Lemma handler_same sig h sh :
  handler_of sig = Some h → same_process sh (h sh).
Proof.
  intros [[_ ->]|[[_ ->]|[_ ->]]]%handler_of_cases.
  - apply sigchld_handler_same.
  - apply sigint_handler_same.
  - apply sigtstp_handler_same.
Qed.

Lemma run_handler_shrinks sig sh : shrinks (jobs sh) (jobs (run_handler sig sh)).
Proof.
  unfold run_handler. destruct (handler_of sig) as [h|] eqn:Hh; [|apply shrinks_refl].
  cbn. apply (handler_shrinks sig h (set_sigmask _ (set_pending _ sh)) Hh).
Qed.

Lemma run_handler_sigmask sig sh : sigmask (run_handler sig sh) = sigmask sh.
Proof. unfold run_handler. by destruct (handler_of sig). Qed.

Lemma run_handler_pending sig sh :
  is_Some (handler_of sig) →
  pending (run_handler sig sh) = pending sh ∖ {[sig]}.
Proof.
  unfold run_handler. intros [h Hh]. rewrite Hh. cbn.
  by destruct (handler_same sig h (set_sigmask (sigmask sh ∪ {[sig]})
                 (set_pending (pending sh ∖ {[sig]}) sh)) Hh) as (_&->&_).
Qed.

Lemma deliver_one_shrinks sig sh : shrinks (jobs sh) (jobs (deliver_one sig sh)).
Proof.
  unfold deliver_one. destruct (deliverable sig sh); [|apply shrinks_refl].
  apply run_handler_shrinks.
Qed.

Lemma deliver_one_sigmask sig sh : sigmask (deliver_one sig sh) = sigmask sh.
Proof.
  unfold deliver_one. destruct (deliverable sig sh); [|done].
  apply run_handler_sigmask.
Qed.

Lemma deliver_shrinks sh : shrinks (jobs sh) (jobs (deliver sh)).
Proof.
  unfold deliver.
  eapply shrinks_trans; [|apply deliver_one_shrinks].
  eapply shrinks_trans; [|apply deliver_one_shrinks].
  apply deliver_one_shrinks.
Qed.

Lemma deliver_sigmask sh : sigmask (deliver sh) = sigmask sh.
Proof. unfold deliver. by rewrite !deliver_one_sigmask. Qed.

(** *** Pending signals and the sleep *)

Lemma run_handler_deliverable sig sig' sh :
  is_Some (handler_of sig) →
  deliverable sig' (run_handler sig sh)
  = deliverable sig' sh && negb (bool_decide (sig' = sig)).
Proof.
  intros Hh. unfold deliverable.
  rewrite run_handler_sigmask, (run_handler_pending _ _ Hh).
  destruct (bool_decide (sig' ∈ sigmask sh)); [by rewrite !andb_false_r|].
  rewrite !andb_true_r.
  apply eq_true_iff_eq. rewrite andb_true_iff, negb_true_iff.
  rewrite !bool_decide_eq_true, bool_decide_eq_false. set_solver.
Qed.

Lemma deliver_one_deliverable sig sig' sh :
  is_Some (handler_of sig) →
  deliverable sig' (deliver_one sig sh)
  = deliverable sig' sh && negb (bool_decide (sig' = sig)).
Proof.
  intros Hh. unfold deliver_one.
  destruct (deliverable sig sh) eqn:Hd; [by apply run_handler_deliverable|].
  case_bool_decide as Heq; [subst; by rewrite Hd|by rewrite andb_true_r].
Qed.

Lemma handler_of_three sig :
  sig = SIGINT ∨ sig = SIGCHLD ∨ sig = SIGTSTP → is_Some (handler_of sig).
Proof. intros [-> | [-> | ->]]; by eexists. Qed.

Lemma deliver_nothing_left sh : any_deliverable (deliver sh) = false.
Proof.
  unfold any_deliverable, deliver.
  set (s1 := deliver_one SIGTSTP sh). set (s2 := deliver_one SIGCHLD s1).
  assert (is_Some (handler_of SIGINT)) as Hi by (apply handler_of_three; auto).
  assert (is_Some (handler_of SIGCHLD)) as Hc by (apply handler_of_three; auto).
  assert (is_Some (handler_of SIGTSTP)) as Ht by (apply handler_of_three; auto).
  rewrite (deliver_one_deliverable SIGINT SIGINT s2 Hi).
  rewrite (deliver_one_deliverable SIGINT SIGCHLD s2 Hi).
  rewrite (deliver_one_deliverable SIGINT SIGTSTP s2 Hi).
  subst s2.
  rewrite (deliver_one_deliverable SIGCHLD SIGCHLD s1 Hc).
  rewrite (deliver_one_deliverable SIGCHLD SIGTSTP s1 Hc).
  subst s1.
  rewrite (deliver_one_deliverable SIGTSTP SIGTSTP sh Ht).
  rewrite !(bool_decide_eq_true_2 (_ = _) eq_refl).
  cbn [negb]. by rewrite !andb_false_r.
Qed.

Lemma arrive_jobs e sh : jobs (arrive e sh) = jobs sh.
Proof. by destruct e. Qed.

Lemma arrive_sigmask e sh : sigmask (arrive e sh) = sigmask sh.
Proof. by destruct e. Qed.

Lemma arrive_all_jobs evs sh : jobs (arrive_all evs sh) = jobs sh.
Proof.
  revert sh. induction evs as [|e evs IH]; intros sh; [done|].
  cbn. rewrite IH. apply arrive_jobs.
Qed.

Lemma arrive_all_sigmask evs sh : sigmask (arrive_all evs sh) = sigmask sh.
Proof.
  revert sh. induction evs as [|e evs IH]; intros sh; [done|].
  cbn. rewrite IH. apply arrive_sigmask.
Qed.

Lemma sleep_woken evs sh sh' rest :
  sleep evs sh = Woken sh' rest →
  shrinks (jobs sh) (jobs sh') ∧ sigmask sh' = sigmask sh
  ∧ any_deliverable sh' = false
  ∧ (length rest ≤ length evs)%nat
  ∧ (any_deliverable sh = false → (length rest < length evs)%nat).
Proof.
  revert sh. induction evs as [|e evs IH]; intros sh; cbn [sleep].
  - destruct (any_deliverable sh) eqn:Hd; [|done]. intros [= <- <-].
    split_and!; [apply deliver_shrinks|apply deliver_sigmask|
                 apply deliver_nothing_left|done|done].
  - destruct (any_deliverable sh) eqn:Hd.
    + intros [= <- <-].
      split_and!; [apply deliver_shrinks|apply deliver_sigmask|
                   apply deliver_nothing_left|done|done].
    + intros H. apply IH in H as (Hs & Hm & Hn & Hle & _).
      rewrite arrive_jobs in Hs. rewrite arrive_sigmask in Hm.
      split_and!; [done|done|done|cbn; lia|cbn; lia].
Qed.

Lemma sleep_still evs sh sh' :
  sleep evs sh = StillAsleep sh' →
  jobs sh' = jobs sh ∧ sigmask sh' = sigmask sh.
Proof.
  revert sh. induction evs as [|e evs IH]; intros sh; cbn [sleep].
  - destruct (any_deliverable sh); [done|]. by intros [= <-].
  - destruct (any_deliverable sh); [done|].
    intros H. apply IH in H as [-> ->].
    by rewrite arrive_jobs, arrive_sigmask.
Qed.

Lemma any_deliverable_mask m sh sh' :
  pending sh' = pending sh →
  any_deliverable (set_sigmask m sh') = any_deliverable (set_sigmask m sh).
Proof. unfold any_deliverable, deliverable. cbn. by intros ->. Qed.

Lemma sigsuspend_woken m evs sh sh' rest :
  sigsuspend m evs sh = Woken sh' rest →
  shrinks (jobs sh) (jobs sh') ∧ sigmask sh' = sigmask sh
  ∧ any_deliverable (set_sigmask m sh') = false
  ∧ (length rest ≤ length evs)%nat
  ∧ (any_deliverable (set_sigmask m sh) = false → (length rest < length evs)%nat).
Proof.
  unfold sigsuspend.
  destruct (sleep evs (set_sigmask m sh)) as [sh1 rest1|sh1] eqn:Hs; [|done].
  intros [= <- <-]. apply sleep_woken in Hs as (Hj & Hm & Hn & Hle & Hlt).
  split_and!; [done|done| |done|done].
  rewrite <- Hn. unfold any_deliverable, deliverable. cbn. by rewrite Hm.
Qed.

Lemma sigsuspend_still m evs sh sh' :
  sigsuspend m evs sh = StillAsleep sh' →
  jobs sh' = jobs sh ∧ sigmask sh' = m.
Proof.
  unfold sigsuspend.
  destruct (sleep evs (set_sigmask m sh)) as [sh1 rest1|sh1] eqn:Hs; [done|].
  intros [= <-]. by apply sleep_still in Hs.
Qed.

(** The bound on the turns in [waitfg] suffices. *)
Lemma waitfg_loop_enough n on_stopped m evs sh :
  (length evs + (if any_deliverable (set_sigmask m sh) then 1 else 0) < n)%nat →
  is_Some (waitfg_loop n on_stopped m evs sh).
Proof.
  revert evs sh. induction n as [|n IH]; intros evs sh Hn; [lia|].
  cbn [waitfg_loop]. destruct (0 <? fg_job (jobs sh)); [|by eexists].
  case_decide; [by eexists|].
  destruct (sigsuspend m evs sh) as [sh' rest|sh'] eqn:Hs; [|by eexists].
  apply sigsuspend_woken in Hs as (_ & _ & Hq & Hle & Hlt).
  apply IH. rewrite Hq.
  destruct (any_deliverable (set_sigmask m sh)); [lia|].
  specialize (Hlt eq_refl). lia.
Qed.

Lemma waitfg_unfold on_stopped m evs sh :
  waitfg_loop (length evs + 2) on_stopped m evs sh
  = Some (waitfg on_stopped m evs sh).
Proof.
  unfold waitfg.
  destruct (waitfg_loop_enough (length evs + 2) on_stopped m evs sh) as [o ->];
    [|done].
  destruct (any_deliverable _); lia.
Qed.

(** ** Foreground jobs *)

Lemma no_fg_fg_only j t : no_fg t → fg_only j t.
Proof. intros H j' r Hr Hs. by destruct (H _ _ Hr). Qed.

Lemma fg_only_at_most_one j t : fg_only j t → at_most_one_fg t.
Proof. intros H j1 j2 r1 r2 H1 H2 Hs1 Hs2. rewrite (H _ _ H1 Hs1). symmetry. eauto. Qed.

Lemma no_fg_at_most_one t : no_fg t → at_most_one_fg t.
Proof. intros H. apply (fg_only_at_most_one 1%positive). by apply no_fg_fg_only. Qed.

Lemma no_fg_shrinks t t' : shrinks t t' → no_fg t → no_fg t'.
Proof.
  intros Hs H j r' Hr' Hfg. destruct (Hs _ _ Hr') as (r & Hr & _ & _ & [Hst|Hst]).
  - apply (H _ _ Hr). congruence.
  - congruence.
Qed.

Lemma fg_only_shrinks j t t' : shrinks t t' → fg_only j t → fg_only j t'.
Proof.
  intros Hs H j' r' Hr' Hfg. destruct (Hs _ _ Hr') as (r & Hr & _ & _ & [Hst|Hst]).
  - apply (H _ _ Hr). congruence.
  - congruence.
Qed.

Lemma at_most_one_fg_shrinks t t' : shrinks t t' → at_most_one_fg t → at_most_one_fg t'.
Proof.
  intros Hs H j1 j2 r1' r2' H1 H2 Hf1 Hf2.
  destruct (Hs _ _ H1) as (r1 & Hr1 & _ & _ & [Hst1|Hst1]); [|congruence].
  destruct (Hs _ _ H2) as (r2 & Hr2 & _ & _ & [Hst2|Hst2]); [|congruence].
  apply (H _ _ _ _ Hr1 Hr2); congruence.
Qed.

Lemma fg_job_zero_no_fg t : fg_job t = 0 ↔ no_fg t.
Proof.
  split.
  - intros H j r. by apply fg_job_zero.
  - intros H. destruct (fg_job_cases t) as [|[j Hj]]; [done|].
    apply fg_job_pos in Hj as (r & Hr & Hfg). by destruct (H _ _ Hr).
Qed.

Lemma waitfg_loop_exact n on_stopped m j t evs sh o :
  fg_running j t → fg_only j t → shrinks t (jobs sh) →
  waitfg_loop n on_stopped m evs sh = Some o →
  match o with
  | Returned sh' =>
      shrinks t (jobs sh') ∧ no_fg (jobs sh')
      ∧ (fg_gone j (jobs sh') ∨ fg_stopped j (jobs sh'))
      ∧ sigmask sh' = sigmask sh
  | Asleep sh' =>
      shrinks t (jobs sh') ∧ fg_running j (jobs sh') ∧ sigmask sh' = m
  | _ => False
  end.
Proof.
  intros (r0 & Hr0 & Hfg0) Honly.
  revert evs sh. induction n as [|n IH]; intros evs sh Hsh; [done|].
  cbn [waitfg_loop].
  assert (fg_only j (jobs sh)) as Honly' by by eapply fg_only_shrinks.
  destruct (fg_job_cases (jobs sh)) as [Hz|[j' Hj']].
  - rewrite Hz. cbn. intros [= <-].
    apply fg_job_zero_no_fg in Hz.
    split_and!; [done|done| |done].
    destruct (slots (jobs sh) !! j) as [r'|] eqn:Hr'; [right|by left].
    exists r'. split; [done|].
    destruct (Hsh _ _ Hr') as (r & Hr & _ & _ & [Hst|Hst]); [|done].
    rewrite Hr0 in Hr. injection Hr as <-. destruct (Hz _ _ Hr'). congruence.
  - rewrite Hj'. cbn.
    pose proof (fg_job_pos _ _ Hj') as (r' & Hr' & Hfg').
    assert (j' = j) as -> by eauto.
    rewrite decide_False; last first.
    { unfold job_get_state. cbn. rewrite Hr'. cbn. congruence. }
    destruct (sigsuspend m evs sh) as [sh1 rest|sh1] eqn:Hs.
    + intros H.
      pose proof (sigsuspend_woken _ _ _ _ _ Hs) as (Hs1 & Hm1 & _).
      apply IH in H; [|by eapply shrinks_trans].
      destruct o as [sh'| | |sh']; try done.
      by rewrite Hm1 in H.
    + intros [= <-]. apply sigsuspend_still in Hs as [Hj1 Hm1].
      rewrite Hj1. split_and!; [done| |done]. by exists r'.
Qed.

Lemma fg_job_fg_only t j : fg_job t = Zpos j → at_most_one_fg t → fg_only j t.
Proof.
  intros Hj Hone. apply fg_job_pos in Hj as (r0 & Hr0 & Hfg0).
  intros j' r Hr Hfg. by apply (Hone _ _ _ _ Hr Hr0).
Qed.

Lemma waitfg_exact on_stopped m evs sh j :
  fg_job (jobs sh) = Zpos j → at_most_one_fg (jobs sh) →
  match waitfg on_stopped m evs sh with
  | Returned sh' =>
      shrinks (jobs sh) (jobs sh') ∧ no_fg (jobs sh')
      ∧ (fg_gone j (jobs sh') ∨ fg_stopped j (jobs sh'))
      ∧ sigmask sh' = sigmask sh
  | Asleep sh' =>
      shrinks (jobs sh) (jobs sh') ∧ fg_running j (jobs sh') ∧ sigmask sh' = m
  | _ => False
  end.
Proof.
  intros Hj Hone.
  apply (waitfg_loop_exact (length evs + 2) on_stopped m j (jobs sh) evs sh).
  - by apply fg_job_pos.
  - by apply fg_job_fg_only.
  - apply shrinks_refl.
  - apply waitfg_unfold.
Qed.

Lemma waitfg_no_fg on_stopped m evs sh :
  fg_job (jobs sh) = 0 → waitfg on_stopped m evs sh = Returned sh.
Proof.
  intros Hz. unfold waitfg. destruct (length evs + 2)%nat eqn:Hn; [lia|].
  cbn [waitfg_loop]. by rewrite Hz.
Qed.


(** ** The invariant of the job list *)

Lemma and_then_inv o k :
  fg_inv o → (∀ sh, no_fg (jobs sh) → fg_inv (k sh)) → fg_inv (and_then o k).
Proof. destruct o; cbn; auto. Qed.

Lemma waitfg_inv on_stopped m evs sh :
  at_most_one_fg (jobs sh) → fg_inv (waitfg on_stopped m evs sh).
Proof.
  intros Hone. destruct (fg_job_cases (jobs sh)) as [Hz|[j Hj]].
  - rewrite waitfg_no_fg by done. by apply fg_job_zero_no_fg.
  - pose proof (waitfg_exact on_stopped m evs sh j Hj Hone) as H.
    destruct (waitfg on_stopped m evs sh) as [sh'| | |sh']; try done; cbn.
    + by destruct H as (_ & H & _).
    + destruct H as (H & _). by eapply at_most_one_fg_shrinks.
Qed.

Lemma no_fg_deliver sh : no_fg (jobs sh) → no_fg (jobs (deliver sh)).
Proof. apply no_fg_shrinks, deliver_shrinks. Qed.

Lemma at_most_one_fg_deliver sh :
  at_most_one_fg (jobs sh) → at_most_one_fg (jobs (deliver sh)).
Proof. apply at_most_one_fg_shrinks, deliver_shrinks. Qed.

Lemma no_fg_set_state jid st t :
  st ≠ FG → no_fg t → no_fg (job_set_state jid st t).
Proof.
  intros Hst H. unfold job_set_state. destruct jid as [|j|j]; try done.
  intros j' r' Hr'. cbn in Hr'.
  destruct (decide (j = j')) as [->|Hne].
  - rewrite lookup_alter_eq in Hr'. destruct (slots t !! j'); [|done].
    by injection Hr' as <-.
  - rewrite lookup_alter_ne in Hr' by done. eauto.
Qed.

Lemma at_most_one_fg_set_state jid st t :
  no_fg t → at_most_one_fg (job_set_state jid st t).
Proof.
  intros H. unfold job_set_state.
  destruct jid as [|j|j]; try by apply no_fg_at_most_one.
  apply (fg_only_at_most_one j). intros j' r' Hr' Hfg. cbn in Hr'.
  destruct (decide (j = j')) as [->|Hne]; [done|].
  rewrite lookup_alter_ne in Hr' by done. by destruct (H _ _ Hr').
Qed.

Lemma no_fg_add_job n pid st cmd t :
  st ≠ FG → no_fg t → no_fg (add_job n pid st cmd t).2.
Proof.
  intros Hst H. unfold add_job. case_decide; [done|].
  intros j r Hr. cbn in Hr.
  destruct (decide (nextjid t = j)) as [<-|Hne].
  - rewrite lookup_insert_eq in Hr. by injection Hr as <-.
  - rewrite lookup_insert_ne in Hr by done. eauto.
Qed.

Lemma at_most_one_fg_add_job n pid st cmd t :
  no_fg t → at_most_one_fg (add_job n pid st cmd t).2.
Proof.
  intros H. unfold add_job. case_decide; [by apply no_fg_at_most_one|].
  apply (fg_only_at_most_one (nextjid t)). intros j r Hr Hfg. cbn in Hr.
  destruct (decide (nextjid t = j)) as [<-|Hne]; [done|].
  rewrite lookup_insert_ne in Hr by done. by destruct (H _ _ Hr).
Qed.

Lemma jobs_set_sigmask x sh : jobs (set_sigmask x sh) = jobs sh.
Proof. done. Qed.
Lemma jobs_set_pending x sh : jobs (set_pending x sh) = jobs sh.
Proof. done. Qed.
Lemma jobs_set_zombies x sh : jobs (set_zombies x sh) = jobs sh.
Proof. done. Qed.
Lemma jobs_set_output x sh : jobs (set_output x sh) = jobs sh.
Proof. done. Qed.
Lemma jobs_set_fds x sh : jobs (set_fds x sh) = jobs sh.
Proof. done. Qed.
Lemma jobs_set_kills x sh : jobs (set_kills x sh) = jobs sh.
Proof. done. Qed.
Lemma jobs_set_forks x sh : jobs (set_forks x sh) = jobs sh.
Proof. done. Qed.
Lemma jobs_set_dups x sh : jobs (set_dups x sh) = jobs sh.
Proof. done. Qed.
Lemma jobs_set_pgrp_leader x sh : jobs (set_pgrp_leader x sh) = jobs sh.
Proof. done. Qed.
Lemma jobs_set_errno x sh : jobs (set_errno x sh) = jobs sh.
Proof. done. Qed.
Lemma jobs_set_jobs t sh : jobs (set_jobs t sh) = t.
Proof. done. Qed.
Lemma jobs_write_fd fd s sh : jobs (write_fd fd s sh) = jobs sh.
Proof. done. Qed.
Lemma jobs_sio_printf s sh : jobs (sio_printf s sh) = jobs sh.
Proof. done. Qed.
Lemma jobs_printf s sh : jobs (printf s sh) = jobs sh.
Proof. done. Qed.
Lemma jobs_killpg p sig sh : jobs (killpg p sig sh) = jobs sh.
Proof. done. Qed.
Lemma jobs_close fd sh : jobs (close fd sh) = jobs sh.
Proof. done. Qed.
Lemma jobs_dup2 a b sh : jobs (dup2 a b sh) = jobs sh.
Proof. done. Qed.

Create Rewrite HintDb shell_jobs.
#[global] Hint Rewrite jobs_set_sigmask jobs_set_pending jobs_set_zombies jobs_set_output jobs_set_fds jobs_set_kills jobs_set_forks jobs_set_dups jobs_set_pgrp_leader jobs_set_errno jobs_set_jobs
  jobs_write_fd jobs_sio_printf jobs_printf jobs_killpg jobs_close jobs_dup2
  : shell_jobs.

Lemma list_jobs_jobs fd sh : jobs (list_jobs fd sh) = jobs sh.
Proof.
  unfold list_jobs. generalize (list_jobs_lines (jobs sh)).
  intros l. revert sh. induction l as [|x l IH]; intros sh; [done|].
  cbn. by rewrite IH.
Qed.

Lemma file_error_jobs name sh : jobs (file_error name sh) = jobs sh.
Proof. unfold file_error. by destruct (errno sh =? ENOENT). Qed.

Lemma open_jobs r sh : jobs (open r sh).2 = jobs sh.
Proof. by destruct r. Qed.

Lemma sigprocmask_shrinks how set sh :
  shrinks (jobs sh) (jobs (sigprocmask how set sh).2).
Proof.
  unfold sigprocmask, change_mask. cbn [snd].
  apply (deliver_shrinks (set_sigmask _ sh)).
Qed.

Lemma sigprocmask_pair how set sh old sh' :
  sigprocmask how set sh = (old, sh') →
  old = sigmask sh ∧ sh' = (sigprocmask how set sh).2.
Proof. intros H. rewrite H. split; [|done]. by injection H as <- _. Qed.

Lemma no_fg_sigprocmask how set sh :
  no_fg (jobs sh) → no_fg (jobs (sigprocmask how set sh).2).
Proof. apply no_fg_shrinks, sigprocmask_shrinks. Qed.

Lemma at_most_one_fg_sigprocmask how set sh :
  at_most_one_fg (jobs sh) → at_most_one_fg (jobs (sigprocmask how set sh).2).
Proof. apply at_most_one_fg_shrinks, sigprocmask_shrinks. Qed.

Ltac fg_step :=
  match goal with
  | |- no_fg (jobs (sigprocmask _ _ _).2) => apply no_fg_sigprocmask
  | |- at_most_one_fg (jobs (sigprocmask _ _ _).2) => apply at_most_one_fg_sigprocmask
  | |- context [sigprocmask ?h ?s ?sh] =>
      lazymatch goal with
      | |- context [(sigprocmask h s sh).2] => fail
      | |- _ => idtac
      end;
      let E := fresh "E" in
      destruct (sigprocmask h s sh) as [? ?] eqn:E;
      apply sigprocmask_pair in E as [-> ->]
  | |- context [jobs (file_error _ _)] => rewrite file_error_jobs
  | |- context [jobs (list_jobs _ _)] => rewrite list_jobs_jobs
  | |- context [jobs (open _ _).2] => rewrite open_jobs
  | |- context [jobs (arrive_all _ _)] => rewrite arrive_all_jobs
  | |- no_fg (job_set_state _ BG _) => apply no_fg_set_state; [done|]
  | |- at_most_one_fg (job_set_state _ _ _) => apply at_most_one_fg_set_state
  | |- fg_inv (and_then _ _) => apply and_then_inv; [|intros ? ?]
  | |- fg_inv (waitfg _ _ _ _) => apply waitfg_inv
  | |- fg_inv (Returned ?s) => change (no_fg (jobs s))
  | |- fg_inv (Exited _ _) => exact I
  | |- fg_inv (Execed _) => exact I
  | |- fg_inv (let '(_, _) := open ?r ?s in _) => destruct r; cbn [open]
  | |- fg_inv (if ?c then _ else _) => destruct c
  | |- fg_inv (match ?c with _ => _ end) => destruct c eqn:?
  | |- _ => progress autorewrite with shell_jobs
  | |- _ => assumption
  end.

Lemma builtincmd_inv pr token os sh :
  no_fg (jobs sh) → fg_inv (builtincmd pr token os sh).
Proof.
  intros H. unfold builtincmd.
  destruct (builtin token); repeat fg_step.
Qed.
Lemma add_job_pair n pid st cmd t jid t' :
  add_job n pid st cmd t = (jid, t') → t' = (add_job n pid st cmd t).2.
Proof. by intros ->. Qed.

Lemma open_if_jobs (o : option string) r fd0 sh fd sh' :
  match o with Some _ => open r sh | None => (fd0, sh) end = (fd, sh') →
  jobs sh' = jobs sh.
Proof. destruct o; [|by intros [= _ <-]]. intros H. by rewrite <- (open_jobs r sh), H. Qed.

Lemma eval_inv MAXJOBS cmdline pr token os sh :
  no_fg (jobs sh) → fg_inv (eval MAXJOBS cmdline pr token os sh).
Proof.
  intros H. unfold eval.
  destruct pr; try done.
  all: apply and_then_inv; [by apply builtincmd_inv|].
  all: clear sh H; intros sh H.
  all: destruct (negb _); [done|].
  all: destruct (sigprocmask SIG_BLOCK three_signals sh) as [prev_all sh0] eqn:E;
    apply sigprocmask_pair in E as [-> E];
    assert (no_fg (jobs sh0)) as H0 by (subst sh0; by apply no_fg_sigprocmask);
    clear E.
  all: destruct (match infile token with Some _ => _ | None => _ end)
         as [fdin sh1] eqn:E1;
    apply open_if_jobs in E1; rewrite <- E1 in H0; clear E1 sh0.
  all: destruct (_ && _); [repeat fg_step|].
  all: destruct (match outfile token with Some _ => _ | None => _ end)
         as [fdout sh2] eqn:E2;
    apply open_if_jobs in E2; rewrite <- E2 in H0; clear E2 sh1.
  all: destruct (_ && _); [repeat fg_step|].
  all: unfold fork; cbn [fst snd].
  all: destruct (fork_pid os =? 0).
  all: try (destruct (execve_error os); [destruct (open _ _)|]; exact I).
  all: repeat first
         [ match goal with
           | |- context [add_job ?n ?p ?st ?c ?t] =>
               lazymatch goal with
               | |- context [(add_job n p st c t).2] => fail
               | |- _ => idtac
               end;
               let E := fresh "E" in
               destruct (add_job n p st c t) as [? ?] eqn:E;
               apply add_job_pair in E as ->
           | |- no_fg (add_job _ _ BG _ _).2 => apply no_fg_add_job; [done|]
           | |- at_most_one_fg (add_job _ _ _ _ _).2 => apply at_most_one_fg_add_job
           end
         | fg_step
         | match goal with
           | |- context [if bool_decide ?P then _ else _] => destruct (bool_decide P)
           end ].
Qed.

(** ** Counting the foreground jobs *)

Lemma count_fg_at_most_one t : (count_fg t ≤ 1)%nat → at_most_one_fg t.
Proof.
  unfold count_fg. intros Hlen j1 j2 r1 r2 H1 H2 Hf1 Hf2.
  assert (∀ j r, slots t !! j = Some r → job_st r = FG →
                 (j, r) ∈ filter (λ jr, job_st jr.2 = FG) (map_to_list (slots t)))
    as Hin.
  { intros j r Hr Hf. apply list_elem_of_filter. split; [done|].
    by apply elem_of_map_to_list. }
  pose proof (Hin _ _ H1 Hf1) as Hi1. pose proof (Hin _ _ H2 Hf2) as Hi2.
  destruct (filter _ _) as [|x [|y l]]; cbn in Hlen; [|clear Hlen|lia].
  - by apply not_elem_of_nil in Hi1.
  - apply list_elem_of_singleton in Hi1, Hi2. congruence.
Qed.


(** ** The invariant in every reachable state *)

Lemma at_prompt_no_fg MAXJOBS sh : at_prompt MAXJOBS sh → no_fg (jobs sh).
Proof.
  induction 1 as [m|e sh _ IH|cmdline pr token os sh sh' _ IH Hev].
  - intros j r Hr. cbn in Hr. by rewrite lookup_empty in Hr.
  - apply no_fg_deliver. by rewrite arrive_jobs.
  - pose proof (eval_inv MAXJOBS cmdline pr token os sh IH) as Hinv.
    by rewrite Hev in Hinv.
Qed.

(** C7.  In every reachable state, at the prompt or asleep in the wait
    for the foreground job, the job list holds at most one record in
    state [FG]; the steps are those that create a job or change a state:
    [eval] with its registration, the builtins, the handlers. *)
Theorem at_most_one_foreground MAXJOBS sh :
  reachable MAXJOBS sh → at_most_one_fg (jobs sh).
Proof.
  intros [sh0 H|cmdline pr token os sh0 sh' H Hev].
  - by apply no_fg_at_most_one, (at_prompt_no_fg MAXJOBS).
  - pose proof (eval_inv MAXJOBS cmdline pr token os sh0
                         (at_prompt_no_fg _ _ H)) as Hinv.
    by rewrite Hev in Hinv.
Qed.

Lemma at_most_one_foreground_witness :
  at_most_one_fg
    (jobs (final_state (eval 16 "/bin/ls" PARSELINE_FG ls_tokens no_answers
                             (fresh_shell ∅)))).
Proof.
  apply (at_most_one_foreground 16).
  apply (reach_asleep 16 "/bin/ls" PARSELINE_FG ls_tokens no_answers (fresh_shell ∅)).
  - apply prompt_start.
  - by vm_compute.
Defined.

(** ** Launching: what fails and how *)



(** C6, at the failing input.  [./notes.txt] can be read but not run:
    [execve] fails with [EACCES], the [open] that follows succeeds, and
    the child exits with status 0 without having written a word. *)
Theorem exec_failure_unreported_when_readable :
  let o := eval 16 "./notes.txt" PARSELINE_FG notes_tokens notes_answers
                (fresh_shell ∅) in
  exit_status o = Some 0 ∧ output (final_state o) = [].
Proof. by vm_compute. Qed.

(** C5, at the failing input.  The input file of [cat < in.txt >
    /nodir/out] opens as descriptor 3 and the output file does not
    exist: [eval] reports the output file, creates no process and no job,
    and returns with descriptor 3 still open. *)
Theorem redirect_failure_leaves_descriptor_open :
  let sh := fresh_shell ∅ in
  let o := eval 16 "cat < in.txt > /nodir/out" PARSELINE_FG cat_tokens
                cat_answers sh in
  (∃ sh', o = Returned sh')
  ∧ output (final_state o)
    = [(STDOUT_FILENO, "/nodir/out: No such file or directory" +:+ nl)]
  ∧ forks (final_state o) = []
  ∧ jobs (final_state o) = jobs sh
  ∧ fds sh = ∅ ∧ fds (final_state o) = {[3]}.
Proof.
  split; [eexists; by vm_compute|]. by vm_compute.
Qed.

(** C3, at the failing input.  The shell starts with [SIGUSR1] blocked
    and runs [/bin/ls] in the foreground; when [eval] returns the mask
    is empty, not the mask of its entry. *)
Theorem eval_foreground_mask_not_restored :
  let sh := fresh_shell {[SIGUSR1]} in
  let o := eval 16 "/bin/ls" PARSELINE_FG ls_tokens ls_answers sh in
  (∃ sh', o = Returned sh')
  ∧ sigmask (final_state o) = ∅
  ∧ sigmask (final_state o) ≠ sigmask sh.
Proof.
  intros sh o.
  assert (o = Returned (final_state o)) as Ho by by vm_compute.
  assert (sigmask (final_state o) = ∅) as Hm by by vm_compute.
  split; [by eexists|]. split; [done|].
  rewrite Hm. cbn [sh sigmask fresh_shell]. intros H.
  assert (SIGUSR1 ∈ (∅ : gset Z)) as Hin by (rewrite H; by apply elem_of_singleton).
  by apply not_elem_of_empty in Hin.
Qed.

(** ** No lost wake-up *)

Lemma handled_in_three sig : is_Some (handler_of sig) → sig ∈ three_signals.
Proof.
  intros [h Hh]. apply handler_of_cases in Hh as [[-> _]|[[-> _]|[-> _]]];
    unfold three_signals, sigaddset; set_solver.
Qed.

Lemma not_deliverable_blocked sig sh :
  three_signals ⊆ sigmask sh → is_Some (handler_of sig) →
  deliverable sig sh = true → False.
Proof.
  intros Hb Hh Hd. rewrite deliverable_blocked in Hd; [done|].
  by apply Hb, handled_in_three.
Qed.

Lemma wait_step_inv mask st st' :
  wait_step mask st st' → wait_inv mask st → wait_inv mask st'.
Proof.
  unfold wait_inv.
  destruct 1 as [pc sh e|pc sh sig Hpc Hh Hd|saved sh sig Hh Hd|saved sh sig Hh Hd
                 |saved sh|sh|sh Hfg|sh Hfg|fjid sh Hst|fjid sh Hst|sh];
    cbn [fst snd].
  - rewrite arrive_jobs, arrive_sigmask. by destruct pc.
  - destruct pc; try done; intros H; exfalso;
      apply (not_deliverable_blocked sig sh); try done; by destruct H.
  - intros (Hs & Hm & _). by rewrite run_handler_sigmask.
  - intros (Hs & Hm). by rewrite run_handler_sigmask.
  - by intros (Hs & _).
  - intros _. cbn. set_solver.
  - done.
  - intros Hb. split; [done|]. destruct (fg_job_cases (jobs sh)) as [|[j Hj]]; [done|].
    rewrite Hj in Hfg. lia.
  - intros (Hb & <- & Hpos). exfalso.
    destruct (fg_job_cases (jobs sh)) as [Hz|[j Hj]]; [lia|].
    rewrite Hj in Hst. apply fg_job_pos in Hj as (r & Hr & Hfg).
    unfold job_get_state in Hst. cbn in Hst. rewrite Hr in Hst. cbn in Hst. congruence.
  - by intros (Hb & <- & Hpos).
  - by intros (Hb & Hpos).
Qed.

(** C9.  Started before its [sigprocmask(SIG_BLOCK, ...)], with events
    arriving and handlers running wherever the mask lets them, the wait
    keeps [wait_inv]: no handler runs between the test of the foreground
    job and the sleep, so the shell never sleeps when the foreground job
    is already gone or stopped; and asleep, a pending signal that the
    mask of [sigsuspend] lets through wakes it. *)
Theorem no_lost_wakeup mask sh0 st :
  rtc (wait_step mask) (BeforeBlock, sh0) st →
  wait_inv mask st
  ∧ ∀ saved sig, st.1 = Sleeping saved → is_Some (handler_of sig) →
                 deliverable sig st.2 = true →
                 wait_step mask st (Awake saved, run_handler sig st.2).
Proof.
  intros Hr. split.
  - revert st Hr. apply rtc_ind_r; [done|].
    intros st st' _ Hstep IH. by eapply wait_step_inv.
  - intros saved sig Hpc Hh Hd. destruct st as [pc sh]. cbn in *. subst pc.
    by apply ws_wake.
Qed.

Lemma no_lost_wakeup_witness :
  let st := (Sleeping (three_signals), set_sigmask ∅
               (set_sigmask three_signals one_fg_job)) in
  wait_inv ∅ st
  ∧ ∀ saved sig, st.1 = Sleeping saved → is_Some (handler_of sig) →
                 deliverable sig st.2 = true →
                 wait_step ∅ st (Awake saved, run_handler sig st.2).
Proof.
  apply (no_lost_wakeup ∅ one_fg_job).
  set (sh1 := set_sigmask three_signals one_fg_job).
  apply (rtc_l _ _ (AtCheck, sh1)).
  { replace sh1 with (change_mask SIG_BLOCK three_signals one_fg_job).2
      by (unfold sh1; cbn; f_equal; set_solver).
    apply ws_block. }
  apply (rtc_l _ _ (AtState 1, sh1)).
  { apply (ws_fg ∅ sh1). reflexivity. }
  apply (rtc_l _ _ (AtSuspend, sh1)).
  { apply ws_running. discriminate. }
  apply (rtc_l _ _ (Sleeping three_signals, set_sigmask ∅ sh1)).
  { apply (ws_suspend ∅ sh1). }
  apply rtc_refl.
Defined.

(** * The rest of the shell

    What the handlers, the builtins, [eval] and the read loop of [main]
    do on the paths that the properties above leave out. *)

Lemma count_fg_zero t : count_fg t = 0%nat → no_fg t.
Proof.
  unfold count_fg. intros Hlen j r Hr Hfg.
  apply length_zero_iff_nil in Hlen.
  apply (filter_nil_not_elem_of _ _ (j, r)) in Hlen; [|done].
  apply Hlen. by apply elem_of_map_to_list.
Qed.

Lemma NoDup_pids_distinct t :
  NoDup ((λ jr, job_pid jr.2) <$> map_to_list (slots t)) → pids_distinct t.
Proof.
  intros Hnd j1 j2 r1 r2 H1 H2 Hp.
  apply elem_of_map_to_list in H1, H2.
  assert (∀ (l : list (positive * job)) x y,
            NoDup ((λ jr, job_pid jr.2) <$> l) → x ∈ l → y ∈ l →
            job_pid x.2 = job_pid y.2 → x = y) as Hinj.
  { clear. induction l as [|z l IH]; intros x y Hnd Hx Hy Hp.
    - by apply not_elem_of_nil in Hx.
    - cbn in Hnd. apply NoDup_cons in Hnd as [Hz Hnd].
      apply elem_of_cons in Hx as [->|Hx], Hy as [->|Hy]; [done| | |by apply IH].
      + exfalso. apply Hz. apply list_elem_of_fmap. by exists y.
      + exfalso. apply Hz. apply list_elem_of_fmap. by exists x. }
  by injection (Hinj _ _ _ Hnd H1 H2 Hp).
Qed.

(** ** The handlers *)

Lemma sigint_handler_eq sh :
  sigint_handler sh
  = if fg_job (jobs sh) =? 0 then sh
    else killpg (job_get_pid (jobs sh) (fg_job (jobs sh))) SIGINT sh.
Proof.
  unfold sigint_handler. destruct sh as [t m p z o f k fk d g e]. cbn.
  by destruct (fg_job t =? 0).
Qed.

(** X1.  The interrupt handler forwards the signal and does nothing else.  With
    no job in the foreground it leaves the shell as it found it, mask and
    [errno] included; otherwise the one thing it changes is that [SIGINT]
    has been sent to the process group of the foreground job. *)
Theorem sigint_handler_forwards sh :
  (fg_job (jobs sh) = 0 ∧ sigint_handler sh = sh)
  ∨ (∃ j r, fg_job (jobs sh) = Zpos j ∧ slots (jobs sh) !! j = Some r
            ∧ job_st r = FG
            ∧ sigint_handler sh = killpg (job_pid r) SIGINT sh).
Proof.
  rewrite sigint_handler_eq.
  destruct (fg_job_cases (jobs sh)) as [Hz|[j Hj]].
  - left. by rewrite Hz.
  - right. destruct (fg_job_pos _ _ Hj) as (r & Hr & Hfg).
    exists j, r. split_and!; [done..|].
    rewrite Hj. unfold job_get_pid. cbn. by rewrite Hr.
Qed.

Lemma sigtstp_handler_eq sh :
  sigtstp_handler sh
  = if fg_job (jobs sh) =? 0 then sh
    else killpg (job_get_pid (jobs sh) (fg_job (jobs sh))) SIGTSTP sh.
Proof.
  unfold sigtstp_handler. destruct sh as [t m p z o f k fk d g e]. cbn.
  by destruct (fg_job t =? 0).
Qed.

(** X2.  The suspend handler forwards the signal and does nothing else.  With
    no job in the foreground it leaves the shell as it found it, mask and
    [errno] included; otherwise the one thing it changes is that
    [SIGTSTP] has been sent to the process group of the foreground job. *)
Theorem sigtstp_handler_forwards sh :
  (fg_job (jobs sh) = 0 ∧ sigtstp_handler sh = sh)
  ∨ (∃ j r, fg_job (jobs sh) = Zpos j ∧ slots (jobs sh) !! j = Some r
            ∧ job_st r = FG
            ∧ sigtstp_handler sh = killpg (job_pid r) SIGTSTP sh).
Proof.
  rewrite sigtstp_handler_eq.
  destruct (fg_job_cases (jobs sh)) as [Hz|[j Hj]].
  - left. by rewrite Hz.
  - right. destruct (fg_job_pos _ _ Hj) as (r & Hr & Hfg).
    exists j, r. split_and!; [done..|].
    rewrite Hj. unfold job_get_pid. cbn. by rewrite Hr.
Qed.

(** X3.  A child that no record of the job list belongs to ([job_from_pid]
    gives 0).  The notice of a child ended by a signal is guarded by
    [jid != 0] and is not printed; the notice of a stopped child is not
    guarded and is printed with job id 0; nothing else changes.  (The
    job list is modelled from the spec: id 0 names no record, so setting
    its state or deleting it changes nothing.) *)
Theorem reap_unknown_child pid status sh :
  job_from_pid (jobs sh) pid = 0 →
  reap pid status sh
  = match status with
    | WStopped sig => sio_printf (stopped_notice 0 pid sig) sh
    | _ => sh
    end.
Proof.
  intros H. unfold reap. rewrite H.
  destruct status as [c|sig|sig]; cbn; by destruct sh.
Qed.

Lemma reap_unknown_child_witness :
  reap 7 (WStopped 20) one_stopped_job
  = sio_printf (stopped_notice 0 7 20) one_stopped_job.
Proof.
  apply (reap_unknown_child 7 (WStopped 20) one_stopped_job). reflexivity.
Defined.

Lemma reap_untouched pid status sh :
  zombies (reap pid status sh) = zombies sh
  ∧ kills (reap pid status sh) = kills sh
  ∧ dups (reap pid status sh) = dups sh
  ∧ pgrp_leader (reap pid status sh) = pgrp_leader sh.
Proof.
  unfold reap.
  destruct status as [c|sig|sig]; cbn [WIFSIGNALED WIFSTOPPED negb andb];
    try destruct (negb _); done.
Qed.

Lemma reap_all_untouched zs sh :
  zombies (reap_all zs sh) = match zs with [] => zombies sh | _ => [] end
  ∧ kills (reap_all zs sh) = kills sh
  ∧ dups (reap_all zs sh) = dups sh
  ∧ pgrp_leader (reap_all zs sh) = pgrp_leader sh.
Proof.
  revert sh. induction zs as [|[pid status] zs IH]; intros sh; [done|].
  cbn [reap_all].
  destruct (IH (reap pid status (set_zombies zs sh))) as (Hz & Hk & Hd & Hg).
  destruct (reap_untouched pid status (set_zombies zs sh)) as (Hz' & Hk' & Hd' & Hg').
  rewrite Hz, Hk, Hd, Hg, Hz', Hk', Hd', Hg'. by destruct zs.
Qed.

Lemma sigchld_handler_eq sh :
  sigchld_handler sh
  = set_errno (errno sh)
      (set_sigmask (sigmask sh)
         (reap_all (zombies sh) (set_sigmask (sigmask sh ∪ three_signals) sh))).
Proof. reflexivity. Qed.

(** X4.  What the child-status handler leaves alone.  When it returns the
    signal mask and [errno] are those of its entry, no signal became
    pending, no descriptor was opened or closed, no process was created
    and no signal was sent; no child is left for [waitpid] to report;
    and the job list has only lost records or seen them stopped. *)
Theorem sigchld_handler_frame sh :
  let sh' := sigchld_handler sh in
  sigmask sh' = sigmask sh ∧ errno sh' = errno sh ∧ pending sh' = pending sh
  ∧ fds sh' = fds sh ∧ forks sh' = forks sh ∧ kills sh' = kills sh
  ∧ zombies sh' = []
  ∧ shrinks (jobs sh) (jobs sh').
Proof.
  intros sh'. subst sh'.
  destruct (sigchld_handler_same sh) as (Hm & Hp & He & Hf & Hk).
  split_and!; try done; [| |apply sigchld_handler_shrinks].
  - rewrite sigchld_handler_eq. cbn [kills set_errno set_sigmask].
    by destruct (reap_all_untouched (zombies sh)
                   (set_sigmask (sigmask sh ∪ three_signals) sh)) as (_ & -> & _).
  - rewrite sigchld_handler_eq. cbn [zombies set_errno set_sigmask].
    destruct (reap_all_untouched (zombies sh)
                (set_sigmask (sigmask sh ∪ three_signals) sh)) as (-> & _).
    by destruct (zombies sh) eqn:Hz.
Qed.

Lemma pids_distinct_shrinks t t' : shrinks t t' → pids_distinct t → pids_distinct t'.
Proof.
  intros Hs H j1 j2 r1' r2' H1 H2 Hp.
  destruct (Hs _ _ H1) as (r1 & Hr1 & Hp1 & _).
  destruct (Hs _ _ H2) as (r2 & Hr2 & Hp2 & _).
  apply (H _ _ _ _ Hr1 Hr2). congruence.
Qed.

Lemma no_record_of_shrinks pid t t' : shrinks t t' → no_record_of pid t → no_record_of pid t'.
Proof.
  intros Hs H j r' Hr'. destruct (Hs _ _ Hr') as (r & Hr & Hp & _).
  rewrite Hp. by apply (H j).
Qed.

Lemma reap_removes pid status sh :
  pids_distinct (jobs sh) → WIFSTOPPED status = false →
  no_record_of pid (jobs (reap pid status sh)).
Proof.
  intros Hd Hst. unfold reap. rewrite Hst. cbn [negb].
  set (sh1 := if WIFSIGNALED status && _ then _ else sh).
  assert (jobs sh1 = jobs sh) as Hj by (unfold sh1; by destruct (_ && _)).
  rewrite jobs_set_jobs, Hj.
  destruct (job_from_pid_cases (jobs sh) pid) as [Hz|[j Hj0]].
  - rewrite Hz. cbn. intros j r Hr. by apply (job_from_pid_zero _ _ j r Hz).
  - rewrite Hj0. destruct (job_from_pid_pos _ _ _ Hj0) as (r0 & Hr0 & Hp0).
    cbn. rewrite Hr0. cbn. intros j' r' Hr' Hp'. cbn [slots] in Hr'.
    apply lookup_delete_Some in Hr' as [Hne Hr'].
    apply Hne. apply (Hd _ _ _ _ Hr0 Hr'). congruence.
Qed.

Lemma reap_all_removes zs sh pid status :
  pids_distinct (jobs sh) → (pid, status) ∈ zs → WIFSTOPPED status = false →
  no_record_of pid (jobs (reap_all zs sh)).
Proof.
  revert sh. induction zs as [|[pid' status'] zs IH]; intros sh Hd Hin Hst.
  - by apply not_elem_of_nil in Hin.
  - cbn [reap_all]. apply elem_of_cons in Hin as [[= <- <-]|Hin].
    + eapply no_record_of_shrinks; [apply reap_all_shrinks|].
      by apply (reap_removes pid status (set_zombies zs sh)).
    + apply IH; [|done..].
      eapply pids_distinct_shrinks; [|exact Hd].
      apply (reap_shrinks pid' status' (set_zombies zs sh)).
Qed.

(** X5.  The handler reaps every child, not only the first.  If no two
    records are of one process, then whichever child [waitpid] reports as
    ended (exited or killed, not stopped) during one run of the handler
    has no record in the job list once the handler returns. *)
Theorem sigchld_handler_reaps_all sh pid status :
  pids_distinct (jobs sh) →
  (pid, status) ∈ zombies sh → WIFSTOPPED status = false →
  no_record_of pid (jobs (sigchld_handler sh)).
Proof.
  intros Hd Hin Hst. rewrite sigchld_handler_eq.
  cbn [jobs set_errno set_sigmask].
  by apply (reap_all_removes (zombies sh) (set_sigmask _ sh) pid status).
Qed.

Lemma sigchld_handler_reaps_all_witness :
  no_record_of 100
    (jobs (sigchld_handler
             (set_zombies [(7, WExited 0); (100, WSignaled 2)] one_fg_job))).
Proof.
  apply (sigchld_handler_reaps_all
           (set_zombies [(7, WExited 0); (100, WSignaled 2)] one_fg_job)
           100 (WSignaled 2)).
  - apply NoDup_pids_distinct. vm_compute. apply NoDup_singleton.
  - do 2 constructor.
  - reflexivity.
Defined.

(** ** The signal mask on return *)

Lemma sigprocmask_sigmask how set sh :
  sigmask (sigprocmask how set sh).2
  = match how with SIG_BLOCK => sigmask sh ∪ set | SIG_SETMASK => set end.
Proof.
  unfold sigprocmask, change_mask. cbn [snd]. by rewrite deliver_sigmask.
Qed.

Lemma and_then_mask m o k :
  (∀ s, returns_with_mask m (k s)) → returns_with_mask m (and_then o k).
Proof. destruct o; cbn; auto. Qed.

Lemma returned_setmask m sh :
  returns_with_mask m (Returned (sigprocmask SIG_SETMASK m sh).2).
Proof. exact (sigprocmask_sigmask SIG_SETMASK m sh). Qed.

Lemma builtincmd_mask pr token os sh :
  returns_with_mask (sigmask sh) (builtincmd pr token os sh).
Proof.
  unfold builtincmd.
  destruct (builtin token); try done.
  - destruct (sigprocmask SIG_BLOCK sigfillset sh) as [prev_all sh0] eqn:E.
    apply sigprocmask_pair in E as [-> _].
    destruct (outfile token); [|apply returned_setmask].
    destruct (open _ _) as [fdout sh1]. destruct (fdout <? 0); apply returned_setmask.
  - destruct (argc token =? 1); [done|]. destruct (_ =? 0); [done|].
    destruct (sigprocmask SIG_BLOCK sigfillset sh) as [prev_all sh0] eqn:E.
    apply sigprocmask_pair in E as [-> _].
    destruct (job_exists _ _); [apply returned_setmask|].
    destruct (_ =? 0); apply returned_setmask.
  - destruct (argc token =? 1); [done|]. destruct (_ =? 0); [done|].
    destruct (sigprocmask SIG_BLOCK sigfillset sh) as [prev_all sh0] eqn:E.
    apply sigprocmask_pair in E as [-> _].
    destruct (job_exists _ _).
    + apply and_then_mask. intros s. apply returned_setmask.
    + destruct (_ =? 0); [apply returned_setmask|].
      apply and_then_mask. intros s. apply returned_setmask.
Qed.

Lemma and_then_returns (Q P : shell → Prop) o k :
  returns Q o → (∀ s, Q s → returns P (k s)) → returns P (and_then o k).
Proof. destruct o; cbn; auto. Qed.

(** X6.  Whenever [builtincmd] returns, for whatever builtin and on whatever
    path (the early returns of the error cases included), the signal
    mask is the mask of its entry. *)
Theorem builtincmd_restores_mask pr token os sh sh' :
  builtincmd pr token os sh = Returned sh' → sigmask sh' = sigmask sh.
Proof.
  intros H. pose proof (builtincmd_mask pr token os sh) as Hm.
  by rewrite H in Hm.
Qed.

Lemma builtincmd_restores_mask_witness :
  sigmask (final_state (builtincmd PARSELINE_FG (command BUILTIN_JOBS ["jobs"])
                                   no_answers (fresh_shell {[SIGUSR1]})))
  = sigmask (fresh_shell {[SIGUSR1]}).
Proof.
  apply (builtincmd_restores_mask PARSELINE_FG (command BUILTIN_JOBS ["jobs"])
                                  no_answers (fresh_shell {[SIGUSR1]})).
  by vm_compute.
Defined.

Lemma eval_mask_returns MAXJOBS cmdline pr token os sh :
  returns (λ sh', sigmask sh' = sigmask sh
                  ∨ (pr = PARSELINE_FG ∧ builtin token = BUILTIN_NONE
                     ∧ fork_pid os ≠ 0 ∧ sigmask sh' = ∅))
          (eval MAXJOBS cmdline pr token os sh).
Proof.
  unfold eval.
  destruct pr; [| |by left..].
  all: apply (and_then_returns (λ s, sigmask s = sigmask sh));
    [exact (builtincmd_mask _ token os sh)|].
  all: intros s Hs.
  all: destruct (bool_decide (builtin token = BUILTIN_NONE)) eqn:Hb;
    [apply bool_decide_eq_true in Hb|by left].
  all: cbn [negb].
  all: destruct (sigprocmask SIG_BLOCK three_signals s) as [prev_all s0] eqn:E;
    apply sigprocmask_pair in E as [-> _]; rewrite Hs.
  all: destruct (match infile token with Some _ => _ | None => _ end) as [fdin s1].
  all: destruct (_ && _); [left; exact (sigprocmask_sigmask SIG_SETMASK _ _)|].
  all: destruct (match outfile token with Some _ => _ | None => _ end) as [fdout s2].
  all: destruct (_ && _); [left; exact (sigprocmask_sigmask SIG_SETMASK _ _)|].
  all: destruct (fork (fork_pid os) s2) as [pid s3] eqn:Ef.
  all: assert (pid = fork_pid os) as -> by (by injection Ef as <- _).
  all: destruct (Z.eqb_spec (fork_pid os) 0) as [Hz|Hnz].
  all: try (destruct (execve_error os); [destruct (open _ _)|]; exact I).
  - destruct (add_job _ _ _ _ _) as [jid t].
    apply (and_then_returns (λ _, True)); [by destruct (waitfg _ _ _ _)|].
    intros s4 _. right. split_and!; [done..|].
    exact (sigprocmask_sigmask SIG_SETMASK _ _).
  - destruct (add_job _ _ _ _ _) as [jid t].
    destruct (sigprocmask SIG_BLOCK sigfillset _) as [prev_all' s4] eqn:E.
    apply sigprocmask_pair in E as [-> _].
    left. cbn [returns]. rewrite !sigprocmask_sigmask. done.
Qed.

(** X7.  The mask when [eval] returns.  On every path that returns the mask is
    the mask of the entry, with one exception: a program launched in the
    foreground, seen from the shell; there the mask is empty. *)
Theorem eval_mask_on_return MAXJOBS cmdline pr token os sh sh' :
  eval MAXJOBS cmdline pr token os sh = Returned sh' →
  sigmask sh' = sigmask sh
  ∨ (pr = PARSELINE_FG ∧ builtin token = BUILTIN_NONE
     ∧ fork_pid os ≠ 0 ∧ sigmask sh' = ∅).
Proof.
  intros H. pose proof (eval_mask_returns MAXJOBS cmdline pr token os sh) as Hm.
  by rewrite H in Hm.
Qed.

Lemma eval_mask_on_return_witness :
  let sh' := final_state (eval 16 "/bin/ls" PARSELINE_FG ls_tokens ls_answers
                               (fresh_shell {[SIGUSR1]})) in
  sigmask sh' = sigmask (fresh_shell {[SIGUSR1]})
  ∨ (PARSELINE_FG = PARSELINE_FG ∧ builtin ls_tokens = BUILTIN_NONE
     ∧ fork_pid ls_answers ≠ 0 ∧ sigmask sh' = ∅).
Proof.
  apply (eval_mask_on_return 16 "/bin/ls" PARSELINE_FG ls_tokens ls_answers
                             (fresh_shell {[SIGUSR1]})).
  by vm_compute.
Defined.

(** ** Launching: redirections, the child, the background *)

Lemma deliver_one_quiet sig sh : deliverable sig sh = false → deliver_one sig sh = sh.
Proof. unfold deliver_one. by intros ->. Qed.

Lemma deliver_quiet sh : quiet sh → deliver sh = sh.
Proof.
  unfold quiet, any_deliverable. intros H.
  apply orb_false_elim in H as [H Ht]. apply orb_false_elim in H as [Hi Hc].
  unfold deliver. by rewrite (deliver_one_quiet _ _ Ht), (deliver_one_quiet _ _ Hc),
    (deliver_one_quiet _ _ Hi).
Qed.

Lemma quiet_same sh sh' :
  pending sh' = pending sh → sigmask sh' = sigmask sh → quiet sh → quiet sh'.
Proof. unfold quiet, any_deliverable, deliverable. by intros -> ->. Qed.

Lemma sigprocmask_setmask_quiet m sh :
  quiet (set_sigmask m sh) →
  sigprocmask SIG_SETMASK m sh = (sigmask sh, set_sigmask m sh).
Proof. intros H. unfold sigprocmask, change_mask. by rewrite deliver_quiet. Qed.

Lemma three_subseteq_three : three_signals ⊆ three_signals.
Proof. done. Qed.

Lemma builtincmd_none pr token os sh :
  builtin token = BUILTIN_NONE → builtincmd pr token os sh = Returned sh.
Proof. unfold builtincmd. by intros ->. Qed.

(** X8.  The input file of a command cannot be opened.  [eval] returns, and
    all it has done is leave the error number in [errno] and print the
    message for the name of the file, [No such file or directory] for
    [ENOENT] and [Permission denied] otherwise: no descriptor is open, no
    process was created, the job list and the mask are as before. *)
Theorem infile_failure MAXJOBS cmdline pr token os sh name e :
  launches pr token → quiet sh →
  infile token = Some name → open_infile os = OpenFailed e →
  eval MAXJOBS cmdline pr token os sh
  = Returned (file_error name (set_errno e sh)).
Proof.
  intros [Hpr Hb] Hq Hin Hop. unfold eval.
  rewrite (builtincmd_none _ _ _ _ Hb).
  assert (quiet (set_sigmask (sigmask sh)
            (file_error name (set_errno e (set_sigmask (sigmask sh ∪ three_signals) sh)))))
    as Hq'.
  { apply (quiet_same sh); [|done..]. unfold file_error. by destruct (_ =? _). }
  destruct Hpr as [-> | ->]; cbn [and_then].
  all: rewrite Hb, Hin, Hop, (sigprocmask_block _ _ three_subseteq_three).
  all: rewrite bool_decide_eq_true_2 by done.
  all: rewrite bool_decide_eq_true_2 by eauto.
  all: cbn [negb open fst snd andb Z.ltb Z.compare default from_option id].
  all: rewrite (sigprocmask_setmask_quiet _ _ Hq'); cbn [snd].
  all: f_equal; unfold file_error; destruct sh; cbn; by destruct (_ =? _).
Qed.

Lemma infile_failure_witness :
  eval 16 "/bin/cat < missing.txt" PARSELINE_FG missing_tokens missing_answers
       (fresh_shell ∅)
  = Returned (file_error "missing.txt" (set_errno ENOENT (fresh_shell ∅))).
Proof.
  apply (infile_failure 16 "/bin/cat < missing.txt" PARSELINE_FG missing_tokens
                        missing_answers (fresh_shell ∅) "missing.txt" ENOENT).
  - split; [by left|reflexivity].
  - by vm_compute.
  - reflexivity.
  - reflexivity.
Defined.

(** X9.  The output file of a command cannot be opened.  [eval] returns, and
    the shell is as it was once the input file, if one is named, had been
    opened, but for [errno] and the message for the name of the output
    file: no process was created, the job list and the mask are as
    before, and the input descriptor is still open. *)
Theorem outfile_failure MAXJOBS cmdline pr token os sh name e :
  launches pr token → quiet sh →
  (is_Some (infile token) → ∃ fd, open_infile os = Opened fd) →
  outfile token = Some name → open_outfile os = OpenFailed e →
  eval MAXJOBS cmdline pr token os sh
  = Returned (file_error name (set_errno e (after_infile token os sh))).
Proof.
  intros [Hpr Hb] Hq Hin Hout Hop. unfold eval, after_infile.
  rewrite (builtincmd_none _ _ _ _ Hb).
  destruct Hpr as [-> | ->]; cbn [and_then].
  all: rewrite Hb, Hout, Hop, (sigprocmask_block _ _ three_subseteq_three).
  all: rewrite bool_decide_eq_true_2 by done.
  all: destruct (infile token) as [n|].
  all: try (destruct Hin as [fd ->]; [done|]).
  all: rewrite ?(bool_decide_eq_true_2 (is_Some (Some _))) by eauto.
  all: rewrite ?(bool_decide_eq_false_2 (is_Some None)) by (intros [? [=]]).
  all: cbn [negb open fst snd andb default from_option id].
  all: repeat match goal with |- context [Z.of_N ?n <? 0] =>
         replace (Z.of_N n <? 0) with false by (symmetry; apply Z.ltb_ge; lia) end.
  all: cbn [Z.ltb Z.compare andb].
  all: rewrite sigprocmask_setmask_quiet;
    [|apply (quiet_same sh); [unfold file_error; by destruct (_ =? _)|done|done]].
  all: cbn [snd]; f_equal; unfold file_error; destruct sh; cbn; by destruct (_ =? _).
Qed.

Lemma outfile_failure_witness :
  eval 16 "cat < in.txt > /nodir/out" PARSELINE_FG cat_tokens cat_answers
       (fresh_shell ∅)
  = Returned (file_error "/nodir/out"
                (set_errno ENOENT (after_infile cat_tokens cat_answers
                                                (fresh_shell ∅)))).
Proof.
  apply (outfile_failure 16 "cat < in.txt > /nodir/out" PARSELINE_FG cat_tokens
                         cat_answers (fresh_shell ∅) "/nodir/out" ENOENT).
  - split; [by left|reflexivity].
  - by vm_compute.
  - intros _. by exists 3%N.
  - reflexivity.
  - reflexivity.
Defined.

Lemma waitfg_loop_survives n on_stopped m evs sh o :
  waitfg_loop n on_stopped m evs sh = Some o → survives o.
Proof.
  revert evs sh. induction n as [|n IH]; intros evs sh; [done|].
  cbn [waitfg_loop]. destruct (0 <? fg_job (jobs sh)); [|by intros [= <-]].
  destruct (decide _); [by intros [= <-]|].
  destruct (sigsuspend m evs sh) as [sh1 rest|sh1]; [apply IH|by intros [= <-]].
Qed.

Lemma waitfg_survives on_stopped m evs sh : survives (waitfg on_stopped m evs sh).
Proof. eapply waitfg_loop_survives, waitfg_unfold. Qed.

Lemma and_then_survives o k :
  survives o → (∀ s, survives (k s)) → survives (and_then o k).
Proof. destruct o; cbn; auto. Qed.

(** X10.  The shell outlives every launch.  In the parent ([fork] did not
    return 0) [eval] never exits and never becomes another program: it
    returns to the prompt or sleeps in the wait for the foreground job;
    and a launch in the background always returns. *)
Theorem launch_parent_survives MAXJOBS cmdline pr token os sh :
  launches pr token → fork_pid os ≠ 0 →
  survives (eval MAXJOBS cmdline pr token os sh)
  ∧ (pr = PARSELINE_BG →
     ∃ sh', eval MAXJOBS cmdline pr token os sh = Returned sh').
Proof.
  intros [Hpr Hb] Hf. unfold eval.
  rewrite (builtincmd_none _ _ _ _ Hb).
  destruct Hpr as [-> | ->]; cbn [and_then].
  all: rewrite Hb, bool_decide_eq_true_2 by done; cbn [negb].
  all: destruct (sigprocmask SIG_BLOCK three_signals sh) as [prev_all s0].
  all: destruct (match infile token with Some _ => _ | None => _ end) as [fdin s1].
  all: destruct (_ && _); [split; [done|]; intros; by eexists|].
  all: destruct (match outfile token with Some _ => _ | None => _ end) as [fdout s2].
  all: destruct (_ && _); [split; [done|]; intros; by eexists|].
  all: destruct (fork (fork_pid os) s2) as [pid s3] eqn:Ef.
  all: assert (pid = fork_pid os) as -> by (by injection Ef as <- _).
  all: destruct (Z.eqb_spec (fork_pid os) 0) as [Hz|Hnz]; [done|].
  all: destruct (add_job _ _ _ _ _) as [jid t].
  - split; [|done]. apply and_then_survives; [apply waitfg_survives|done].
  - destruct (sigprocmask SIG_BLOCK sigfillset _) as [prev_all' s4].
    split; [done|]. intros _. by eexists.
Qed.

Lemma launch_parent_survives_witness :
  survives (eval 16 "/bin/ls" PARSELINE_FG ls_tokens ls_answers (fresh_shell ∅))
  ∧ (PARSELINE_FG = PARSELINE_BG →
     ∃ sh', eval 16 "/bin/ls" PARSELINE_FG ls_tokens ls_answers (fresh_shell ∅)
            = Returned sh').
Proof.
  apply (launch_parent_survives 16 "/bin/ls" PARSELINE_FG ls_tokens ls_answers
                                (fresh_shell ∅)).
  - split; [by left|reflexivity].
  - by vm_compute.
Defined.

Lemma quiet_no_pending sh : pending sh = ∅ → quiet sh.
Proof.
  intros H. unfold quiet, any_deliverable, deliverable. rewrite H.
  by rewrite !bool_decide_eq_false_2 by set_solver.
Qed.

(** X11.  The child up to [execve].  When the redirections open and [execve]
    succeeds, the child has made itself the leader of a process group of
    its own, has put the input descriptor on 0 and the output descriptor
    on 1 (in that order, and only those that are named), runs the program
    with the signal mask the shell had when [eval] was entered, with no
    signal pending, and has written nothing and changed no job. *)
Theorem child_before_exec MAXJOBS cmdline pr token os sh :
  launches pr token → redirections_open token os →
  fork_pid os = 0 → execve_error os = None →
  ∃ sh', eval MAXJOBS cmdline pr token os sh = Execed sh'
         ∧ sigmask sh' = sigmask sh
         ∧ pending sh' = ∅
         ∧ pgrp_leader sh' = true
         ∧ dups sh' = (dups sh ++ redirections token os)%list
         ∧ jobs sh' = jobs sh
         ∧ output sh' = output sh.
Proof.
  intros [Hpr Hb] [Hin Hout] Hf He. unfold eval, redirections.
  rewrite (builtincmd_none _ _ _ _ Hb).
  destruct Hpr as [-> | ->]; cbn [and_then].
  all: rewrite Hb, Hf, He, (sigprocmask_block _ _ three_subseteq_three).
  all: rewrite bool_decide_eq_true_2 by done.
  all: destruct (infile token) as [n|].
  all: try (destruct Hin as [fd1 ->]; [done|]).
  all: destruct (outfile token) as [n'|].
  all: try (destruct Hout as [fd2 ->]; [done|]).
  all: rewrite ?(bool_decide_eq_true_2 (is_Some (Some _))) by eauto.
  all: rewrite ?(bool_decide_eq_false_2 (is_Some None)) by (intros [? [=]]).
  all: cbn [negb open fork fst snd andb Z.eqb].
  all: repeat match goal with |- context [Z.of_N ?n <? 0] =>
         replace (Z.of_N n <? 0) with false by (symmetry; apply Z.ltb_ge; lia) end.
  all: cbn [andb].
  all: rewrite sigprocmask_setmask_quiet by (by apply quiet_no_pending).
  all: eexists; split; [reflexivity|].
  all: cbn; by rewrite ?app_nil_r, <- ?app_assoc.
Qed.

Lemma child_before_exec_witness :
  ∃ sh', eval 16 "/bin/sort < in.txt > out.txt" PARSELINE_FG sort_tokens
              sort_child_answers (fresh_shell {[SIGUSR1]}) = Execed sh'
         ∧ sigmask sh' = sigmask (fresh_shell {[SIGUSR1]})
         ∧ pending sh' = ∅
         ∧ pgrp_leader sh' = true
         ∧ dups sh' = (dups (fresh_shell {[SIGUSR1]})
                       ++ redirections sort_tokens sort_child_answers)%list
         ∧ jobs sh' = jobs (fresh_shell {[SIGUSR1]})
         ∧ output sh' = output (fresh_shell {[SIGUSR1]}).
Proof.
  apply (child_before_exec 16 "/bin/sort < in.txt > out.txt" PARSELINE_FG
                           sort_tokens sort_child_answers (fresh_shell {[SIGUSR1]})).
  - split; [by left|reflexivity].
  - split; intros _; [by exists 3%N|by exists 4%N].
  - reflexivity.
  - reflexivity.
Defined.

(** X12.  A launch in the background, from the command to the prompt.  With
    nothing happening in between, [eval] returns, and the shell differs
    from the one before in exactly this: the redirection files are open
    (the background path closes neither), the child is recorded as
    created, [add_job] was called with the process id, state [BG] and the
    command line, and the line [[jid] (pid) cmdline] was printed. *)
Theorem background_launch MAXJOBS cmdline token os sh :
  builtin token = BUILTIN_NONE → quiet sh → redirections_open token os →
  fork_pid os ≠ 0 → early os = [] →
  eval MAXJOBS cmdline PARSELINE_BG token os sh
  = let pid := fork_pid os in
    let sh1 := set_forks (forks sh ++ [pid])
                 (after_outfile token os (after_infile token os sh)) in
    let '(jid, t) := add_job MAXJOBS pid BG cmdline (jobs sh) in
    Returned (sio_printf (job_line jid pid cmdline) (set_jobs t sh1)).
Proof.
  intros Hb Hq [Hin Hout] Hf He. unfold eval.
  rewrite (builtincmd_none _ _ _ _ Hb). cbn [and_then].
  rewrite Hb, He, (sigprocmask_block _ _ three_subseteq_three).
  rewrite bool_decide_eq_true_2 by done.
  unfold after_outfile, after_infile.
  destruct (infile token) as [n|].
  all: try (destruct Hin as [fd1 ->]; [done|]).
  all: destruct (outfile token) as [n'|].
  all: try (destruct Hout as [fd2 ->]; [done|]).
  all: rewrite ?(bool_decide_eq_true_2 (is_Some (Some _))) by eauto.
  all: rewrite ?(bool_decide_eq_false_2 (is_Some None)) by (intros [? [=]]).
  all: cbn [negb open fork fst snd andb].
  all: repeat match goal with |- context [Z.of_N ?n <? 0] =>
         replace (Z.of_N n <? 0) with false by (symmetry; apply Z.ltb_ge; lia) end.
  all: cbn [andb].
  all: destruct (Z.eqb_spec (fork_pid os) 0) as [|_]; [done|].
  all: cbn [arrive_all fold_left].
  all: rewrite (sigprocmask_block _ _ three_subseteq_fill); cbn [fst snd].
  all: cbn [jobs set_sigmask set_forks set_fds].
  all: destruct (add_job MAXJOBS (fork_pid os) BG cmdline (jobs sh)) as [jid t].
  all: rewrite sigprocmask_setmask_quiet;
    [|apply (quiet_same sh); [done|done|exact Hq]]; cbn [snd].
  all: rewrite (sigprocmask_block _ _ three_subseteq_fill); cbn [fst snd].
  all: rewrite sigprocmask_setmask_quiet;
    [|apply (quiet_same sh); [done|done|exact Hq]]; cbn [snd].
  all: f_equal; destruct sh; cbn; f_equal.
Qed.

Lemma background_launch_witness :
  eval 16 "/bin/ls &" PARSELINE_BG ls_tokens no_answers (fresh_shell ∅)
  = let pid := fork_pid no_answers in
    let sh1 := set_forks (forks (fresh_shell ∅) ++ [pid])
                 (after_outfile ls_tokens no_answers
                    (after_infile ls_tokens no_answers (fresh_shell ∅))) in
    let '(jid, t) := add_job 16 pid BG "/bin/ls &" (jobs (fresh_shell ∅)) in
    Returned (sio_printf (job_line jid pid "/bin/ls &") (set_jobs t sh1)).
Proof.
  apply (background_launch 16 "/bin/ls &" ls_tokens no_answers (fresh_shell ∅)).
  - reflexivity.
  - by vm_compute.
  - split; intros [? [=]].
  - by vm_compute.
  - reflexivity.
Defined.

(** ** The builtins *)

(** X13.  A reference that names nothing.  When the number given to [bg] or
    [fg] is not 0, is not the id of a job and is not the process id of a
    job, the builtin prints the argument as typed followed by
    [: No such job] and returns; the job list, the signals sent, the
    descriptors and the signal mask are as before.  Nothing is said of
    [errno]: [atoi] leaves [ERANGE] there when the numeral does not fit
    a [long]. *)
Theorem no_such_job pr token os sh :
  builtin token = BUILTIN_BG ∨ builtin token = BUILTIN_FG →
  quiet sh → argc token ≠ 1 →
  let n := atoi (job_ref_num (argv_at token 1)) in
  n ≠ 0 → job_exists (jobs sh) n = false → job_from_pid (jobs sh) n = 0 →
  ∃ sh', builtincmd pr token os sh = Returned sh'
         ∧ same_but_errno
             (printf (argv_at token 1 +:+ ": No such job" +:+ nl) sh) sh'.
Proof.
  intros Hb Hq Hargc n Hn He Hp. subst n. unfold builtincmd.
  destruct Hb as [-> | ->].
  all: destruct (Z.eqb_spec (argc token) 1) as [|_]; [done|].
  all: destruct (Z.eqb_spec (atoi (job_ref_num (argv_at token 1))) 0) as [|_]; [done|].
  all: rewrite (sigprocmask_block _ _ three_subseteq_fill); cbn [jobs set_sigmask].
  all: rewrite He, Hp; cbn [Z.eqb].
  all: rewrite sigprocmask_setmask_quiet by (by apply (quiet_same sh)).
  all: cbn [snd]; eexists; split; [reflexivity|].
  all: unfold same_but_errno; by destruct sh.
Qed.

Lemma no_such_job_witness :
  ∃ sh', builtincmd PARSELINE_FG (command BUILTIN_FG ["fg"; "%7"]) no_answers
                    one_stopped_job = Returned sh'
         ∧ same_but_errno
             (printf ("%7" +:+ ": No such job" +:+ nl) one_stopped_job) sh'.
Proof.
  apply (no_such_job PARSELINE_FG (command BUILTIN_FG ["fg"; "%7"]) no_answers
                     one_stopped_job).
  - right. reflexivity.
  - by vm_compute.
  - by vm_compute.
  - by vm_compute.
  - by vm_compute.
  - by vm_compute.
Defined.

Lemma list_jobs_same fd sh :
  pending (list_jobs fd sh) = pending sh ∧ sigmask (list_jobs fd sh) = sigmask sh
  ∧ fds (list_jobs fd sh) = fds sh ∧ errno (list_jobs fd sh) = errno sh.
Proof.
  unfold list_jobs. generalize (list_jobs_lines (jobs sh)).
  intros l. revert sh. induction l as [|x l IH]; intros sh; [done|].
  cbn [fold_left]. destruct (IH (write_fd fd x sh)) as (-> & -> & -> & ->). done.
Qed.

Lemma list_jobs_set_sigmask fd m sh :
  list_jobs fd (set_sigmask m sh) = set_sigmask m (list_jobs fd sh).
Proof.
  unfold list_jobs. cbn [jobs set_sigmask]. generalize (list_jobs_lines (jobs sh)).
  intros l. revert sh. induction l as [|x l IH]; intros sh; [done|].
  cbn [fold_left]. by rewrite <- IH.
Qed.

(** X14.  The [jobs] builtin.  Without an output file the list is written to
    standard output.  With one that opens the list is written to the new
    descriptor, which is closed again.  With one that does not open the
    message for its name is printed and no list is written.  In all three
    cases the builtin returns and changes nothing else. *)
Theorem jobs_builtin pr token os sh :
  builtin token = BUILTIN_JOBS → quiet sh →
  builtincmd pr token os sh
  = Returned
      match outfile token, open_outfile os with
      | None, _ => list_jobs STDOUT_FILENO sh
      | Some _, Opened fd =>
          close (Z.of_N fd) (list_jobs (Z.of_N fd)
                               (set_fds (fds sh ∪ {[Z.of_N fd]}) sh))
      | Some name, OpenFailed e => file_error name (set_errno e sh)
      end.
Proof.
  intros Hb Hq. unfold builtincmd. rewrite Hb.
  rewrite (sigprocmask_block _ _ three_subseteq_fill).
  destruct (outfile token) as [name|]; [destruct (open_outfile os) as [fd|e]|].
  all: cbn [open].
  - replace (Z.of_N fd <? 0) with false by (symmetry; apply Z.ltb_ge; lia).
    rewrite sigprocmask_setmask_quiet; cbn [snd].
    + f_equal. change (set_fds ?f (set_sigmask ?m sh)) with (set_sigmask m (set_fds f sh)).
      rewrite list_jobs_set_sigmask.
      match goal with |- context [close _ (set_sigmask _ ?X)] =>
        destruct (list_jobs_same (Z.of_N fd) (set_fds (fds sh ∪ {[Z.of_N fd]}) sh))
          as (_ & Hm & _);
        change (sigmask X = sigmask sh) in Hm;
        change (list_jobs (Z.of_N fd) (set_fds (fds sh ∪ {[Z.of_N fd]}) sh)) with X;
        revert Hm; generalize X end.
      intros [] Hm. cbn in *. by subst.
    + apply (quiet_same sh); [|done..]. cbn.
      change (set_fds ?f (set_sigmask ?m sh)) with (set_sigmask m (set_fds f sh)).
      rewrite list_jobs_set_sigmask. cbn.
      by destruct (list_jobs_same (Z.of_N fd) (set_fds (fds sh ∪ {[Z.of_N fd]}) sh))
        as (-> & _).
  - cbn [Z.ltb Z.compare]. rewrite sigprocmask_setmask_quiet; cbn [snd].
    + f_equal. unfold file_error. destruct sh; cbn. by destruct (_ =? _).
    + apply (quiet_same sh); [|done..]. unfold file_error. by destruct (_ =? _).
  - rewrite sigprocmask_setmask_quiet; cbn [snd].
    + f_equal. rewrite list_jobs_set_sigmask.
      destruct (list_jobs_same STDOUT_FILENO sh) as (_ & Hm & _).
      revert Hm. generalize (list_jobs STDOUT_FILENO sh).
      intros [] Hm. cbn in *. by subst.
    + apply (quiet_same sh); [|done..]. rewrite list_jobs_set_sigmask. cbn.
      by destruct (list_jobs_same STDOUT_FILENO sh) as (-> & _).
Qed.

Lemma jobs_builtin_witness :
  builtincmd PARSELINE_FG (command BUILTIN_JOBS ["jobs"]) no_answers
             one_stopped_job
  = Returned (list_jobs STDOUT_FILENO one_stopped_job).
Proof.
  apply (jobs_builtin PARSELINE_FG (command BUILTIN_JOBS ["jobs"]) no_answers
                      one_stopped_job).
  - reflexivity.
  - by vm_compute.
Defined.

(** ** The wait for the foreground job *)

Lemma handled_refl sh : handled sh sh.
Proof.
  split_and!; try done;
    [apply shrinks_refl|exists []; by rewrite app_nil_r..|by left].
Qed.

Lemma handled_trans sh1 sh2 sh3 : handled sh1 sh2 → handled sh2 sh3 → handled sh1 sh3.
Proof.
  intros (Hj & [k Hk] & [o Ho] & Hf & Hfk & Hd & He)
         (Hj' & [k' Hk'] & [o' Ho'] & Hf' & Hfk' & Hd' & He').
  split_and!; try congruence.
  - by eapply shrinks_trans.
  - exists (k ++ k')%list. by rewrite Hk', Hk, app_assoc.
  - exists (o ++ o')%list. by rewrite Ho', Ho, app_assoc.
  - destruct He' as [-> | ->]; [done|by right].
Qed.

Lemma handled_eq sh sh' :
  jobs sh' = jobs sh → kills sh' = kills sh → output sh' = output sh →
  fds sh' = fds sh → forks sh' = forks sh → dups sh' = dups sh →
  errno sh' = errno sh → handled sh sh'.
Proof.
  intros Hj Hk Ho Hf Hfk Hd He. split_and!; try done.
  - rewrite Hj. apply shrinks_refl.
  - exists []. by rewrite app_nil_r.
  - exists []. by rewrite app_nil_r.
  - by left.
Qed.

Lemma handled_eintr sh : handled sh (set_errno EINTR sh).
Proof.
  split_and!; try done;
    [apply shrinks_refl|exists []; by rewrite app_nil_r..|by right].
Qed.

Lemma reap_handled pid status sh : handled sh (reap pid status sh).
Proof.
  destruct (reap_same pid status sh) as (_ & _ & He & Hf & Hfk).
  destruct (reap_untouched pid status sh) as (_ & Hk & Hd & _).
  split_and!; try done.
  - apply reap_shrinks.
  - exists []. by rewrite app_nil_r.
  - unfold reap. destruct status as [c|sig|sig]; cbn [WIFSIGNALED WIFSTOPPED negb andb].
    + exists []. by rewrite app_nil_r.
    + destruct (negb _); [by eexists|exists []; by rewrite app_nil_r].
    + by eexists.
  - by left.
Qed.

Lemma reap_all_handled zs sh : handled sh (reap_all zs sh).
Proof.
  revert sh. induction zs as [|[pid status] zs IH]; intros sh; [apply handled_refl|].
  cbn [reap_all].
  apply (handled_trans _ (set_zombies zs sh)); [by apply handled_eq|].
  apply (handled_trans _ (reap pid status (set_zombies zs sh)));
    [apply reap_handled|apply IH].
Qed.

Lemma sigchld_handler_handled sh : handled sh (sigchld_handler sh).
Proof.
  rewrite sigchld_handler_eq.
  set (sh1 := set_sigmask (sigmask sh ∪ three_signals) sh).
  apply (handled_trans _ sh1); [by apply handled_eq|].
  apply (handled_trans _ (reap_all (zombies sh) sh1)); [apply reap_all_handled|].
  apply handled_eq; try done. cbn [errno set_errno].
  by destruct (reap_all_same (zombies sh) sh1) as (_ & _ & -> & _).
Qed.

Lemma sigint_handler_handled sh : handled sh (sigint_handler sh).
Proof.
  unfold sigint_handler. cbn [change_mask fst snd].
  destruct (negb _); split_and!; try done; try apply shrinks_refl;
    try (exists []; by rewrite app_nil_r); try (by left); by eexists.
Qed.

Lemma sigtstp_handler_handled sh : handled sh (sigtstp_handler sh).
Proof.
  unfold sigtstp_handler. cbn [change_mask fst snd].
  destruct (negb _); split_and!; try done; try apply shrinks_refl;
    try (exists []; by rewrite app_nil_r); try (by left); by eexists.
Qed.

Lemma run_handler_handled sig sh : handled sh (run_handler sig sh).
Proof.
  unfold run_handler. destruct (handler_of sig) as [h|] eqn:Hh; [|apply handled_refl].
  set (sh1 := set_sigmask (sigmask sh ∪ {[sig]}) (set_pending (pending sh ∖ {[sig]}) sh)).
  apply (handled_trans _ sh1); [by apply handled_eq|].
  apply (handled_trans _ (h sh1)); [|by apply handled_eq].
  apply handler_of_cases in Hh as [[_ ->]|[[_ ->]|[_ ->]]].
  - apply sigchld_handler_handled.
  - apply sigint_handler_handled.
  - apply sigtstp_handler_handled.
Qed.

Lemma deliver_handled sh : handled sh (deliver sh).
Proof.
  assert (∀ sig s, handled s (deliver_one sig s)) as Hone.
  { intros sig s. unfold deliver_one.
    destruct (deliverable sig s); [apply run_handler_handled|apply handled_refl]. }
  unfold deliver.
  apply (handled_trans _ (deliver_one SIGTSTP sh)); [apply Hone|].
  apply (handled_trans _ (deliver_one SIGCHLD (deliver_one SIGTSTP sh))); apply Hone.
Qed.

Lemma arrive_handled e sh : handled sh (arrive e sh).
Proof. destruct e; by apply handled_eq. Qed.

Lemma sigprocmask_handled how set sh : handled sh (sigprocmask how set sh).2.
Proof.
  unfold sigprocmask, change_mask. cbn [snd].
  match goal with |- handled _ (deliver ?X) =>
    apply (handled_trans _ X); [by apply handled_eq|apply deliver_handled] end.
Qed.

Lemma sleep_handled evs sh :
  handled sh match sleep evs sh with Woken s _ | StillAsleep s => s end.
Proof.
  revert sh. induction evs as [|e evs IH]; intros sh; cbn [sleep].
  - destruct (any_deliverable sh); [apply deliver_handled|apply handled_refl].
  - destruct (any_deliverable sh); [apply deliver_handled|].
    apply (handled_trans _ (arrive e sh)); [apply arrive_handled|apply IH].
Qed.

Lemma sigsuspend_handled m evs sh :
  handled sh match sigsuspend m evs sh with Woken s _ | StillAsleep s => s end.
Proof.
  unfold sigsuspend. pose proof (sleep_handled evs (set_sigmask m sh)) as H.
  destruct (sleep evs (set_sigmask m sh)) as [s rest|s].
  - apply (handled_trans _ (set_sigmask (sigmask sh) s)); [|apply handled_eintr].
    apply (handled_trans _ s); [|by apply handled_eq].
    apply (handled_trans _ (set_sigmask m sh)); [by apply handled_eq|exact H].
  - apply (handled_trans _ (set_sigmask m sh)); [by apply handled_eq|exact H].
Qed.

Lemma waitfg_loop_handled n on_stopped m evs sh o :
  (∀ s, handled s (on_stopped s)) →
  waitfg_loop n on_stopped m evs sh = Some o → handled sh (final_state o).
Proof.
  intros Hon. revert evs sh. induction n as [|n IH]; intros evs sh; [done|].
  cbn [waitfg_loop]. destruct (0 <? fg_job (jobs sh)); [|intros [= <-]; apply handled_refl].
  destruct (decide _); [intros [= <-]; apply Hon|].
  pose proof (sigsuspend_handled m evs sh) as H.
  destruct (sigsuspend m evs sh) as [sh1 rest|sh1].
  - intros Ho. apply (handled_trans _ sh1); [exact H|by eapply IH].
  - by intros [= <-].
Qed.

Lemma waitfg_loop_turn n on_stopped m evs sh j :
  fg_job (jobs sh) = Zpos j →
  waitfg_loop (S n) on_stopped m evs sh
  = match sigsuspend m evs sh with
    | Woken sh' evs' => waitfg_loop n on_stopped m evs' sh'
    | StillAsleep sh' => Some (Asleep sh')
    end.
Proof.
  intros Hj. cbn [waitfg_loop]. rewrite Hj. cbn [Z.ltb Z.compare].
  rewrite decide_False; [done|].
  destruct (fg_job_pos _ _ Hj) as (r & Hr & Hfg).
  unfold job_get_state. cbn [lookup_job]. rewrite Hr. cbn. congruence.
Qed.

Lemma waitfg_loop_exit n on_stopped m evs sh :
  fg_job (jobs sh) = 0 →
  waitfg_loop (S n) on_stopped m evs sh = Some (Returned sh).
Proof. intros Hz. cbn [waitfg_loop]. by rewrite Hz. Qed.

Lemma sigsuspend_woken_errno m evs sh sh' rest :
  sigsuspend m evs sh = Woken sh' rest → errno sh' = EINTR.
Proof.
  unfold sigsuspend. destruct (sleep evs (set_sigmask m sh)); [|done].
  by intros [= <- _].
Qed.

Lemma waitfg_loop_eintr n on_stopped m evs sh sh' :
  (∀ s, handled s (on_stopped s)) →
  fg_job (jobs sh) ≠ 0 →
  waitfg_loop n on_stopped m evs sh = Some (Returned sh') → errno sh' = EINTR.
Proof.
  intros Hon Hfg. destruct n as [|n]; [done|].
  destruct (fg_job_cases (jobs sh)) as [|[j Hj]]; [done|].
  rewrite (waitfg_loop_turn _ _ _ _ _ j Hj).
  destruct (sigsuspend m evs sh) as [sh1 rest|sh1] eqn:Hs; [|done].
  apply sigsuspend_woken_errno in Hs. intros Ho.
  apply (waitfg_loop_handled _ _ _ _ _ _ Hon) in Ho as (_ & _ & _ & _ & _ & _ & He).
  cbn [final_state] in He. rewrite Hs in He. by destruct He.
Qed.

Lemma waitfg_handled on_stopped m evs sh :
  (∀ s, handled s (on_stopped s)) →
  handled sh (final_state (waitfg on_stopped m evs sh)).
Proof.
  intros Hon. eapply waitfg_loop_handled; [done|apply waitfg_unfold].
Qed.

(** X15.  While the shell waits for the foreground job nothing but signal
    handlers touch its state: when the wait is over, or for as long as
    the shell sleeps, the job list has only lost records or seen them
    stopped, signals sent and lines written have only been added to, and
    the open descriptors and the processes created are as they were.
    [errno] is what it was or, once [sigsuspend] has returned, [EINTR]:
    the handlers put it back, [sigsuspend] does not; a wait that began
    with a job in the foreground and is over leaves [EINTR] there. *)
Theorem waitfg_only_handlers on_stopped m evs sh :
  (∀ s, handled s (on_stopped s)) →
  handled sh (final_state (waitfg on_stopped m evs sh))
  ∧ (fg_job (jobs sh) ≠ 0 →
     ∀ sh', waitfg on_stopped m evs sh = Returned sh' → errno sh' = EINTR).
Proof.
  intros Hon. split; [by apply waitfg_handled|].
  intros Hfg sh' Ho. pose proof (waitfg_unfold on_stopped m evs sh) as Hu.
  rewrite Ho in Hu. by eapply waitfg_loop_eintr.
Qed.

Lemma waitfg_only_handlers_witness :
  let o := waitfg id ∅ [ChildChanged 100 (WExited 0)] one_fg_job in
  handled one_fg_job (final_state o)
  ∧ (fg_job (jobs one_fg_job) ≠ 0 →
     ∀ sh', o = Returned sh' → errno sh' = EINTR).
Proof.
  apply (waitfg_only_handlers id ∅ [ChildChanged 100 (WExited 0)] one_fg_job).
  intros s. apply handled_refl.
Defined.

Lemma fg_over_shrinks j t t' : shrinks t t' → fg_over j t → fg_over j t'.
Proof.
  intros Hs [Hg|(r & Hr & Hst)]; unfold fg_over, fg_gone, fg_stopped in *.
  - destruct (slots t' !! j) as [r'|] eqn:Hr'; [|by left].
    destruct (Hs _ _ Hr') as (r & Hr & _). congruence.
  - destruct (slots t' !! j) as [r'|] eqn:Hr'; [right|by left].
    exists r'. split; [done|].
    destruct (Hs _ _ Hr') as (r0 & Hr0 & _ & _ & [Hst'|Hst']); [|done].
    congruence.
Qed.

Lemma waitfg_waited_for on_stopped m evs sh j :
  fg_only j (jobs sh) →
  (∀ r, slots (jobs sh) !! j = Some r → job_st r = FG ∨ job_st r = ST) →
  waited_for j (waitfg on_stopped m evs sh).
Proof.
  intros Honly Hst. destruct (fg_job_cases (jobs sh)) as [Hz|[j' Hj']].
  - rewrite (waitfg_no_fg _ _ _ _ Hz). apply fg_job_zero_no_fg in Hz.
    split; [done|]. unfold fg_over, fg_gone, fg_stopped.
    destruct (slots (jobs sh) !! j) as [r|] eqn:Hr; [right|by left].
    exists r. split; [done|]. destruct (Hst r eq_refl) as [Hfg|?]; [|done].
    by destruct (Hz _ _ Hr).
  - assert (j' = j) as ->.
    { destruct (fg_job_pos _ _ Hj') as (r & Hr & Hfg). eauto. }
    pose proof (waitfg_exact on_stopped m evs sh j Hj'
                  (fg_only_at_most_one _ _ Honly)) as H.
    destruct (waitfg on_stopped m evs sh); try done; cbn.
    + destruct H as (_ & ? & ? & _). by split.
    + by destruct H as (_ & ? & _).
Qed.

Lemma waited_for_and_then j o k :
  waited_for j o →
  (∀ s, no_fg (jobs s) → fg_over j (jobs s) → waited_for j (k s)) →
  waited_for j (and_then o k).
Proof. destruct o; cbn; try done. intros [? ?] Hk. by apply Hk. Qed.

Lemma waited_for_returned j sh how set :
  no_fg (jobs sh) → fg_over j (jobs sh) →
  waited_for j (Returned (sigprocmask how set sh).2).
Proof.
  intros Hno Hov. split.
  - by apply no_fg_sigprocmask.
  - eapply fg_over_shrinks; [apply sigprocmask_shrinks|done].
Qed.

Lemma fg_only_running_shrinks j t t' :
  shrinks t t' → fg_only j t → fg_running j t →
  fg_only j t' ∧ ∀ r, slots t' !! j = Some r → job_st r = FG ∨ job_st r = ST.
Proof.
  intros Hs Honly (r0 & Hr0 & Hfg0). split; [by eapply fg_only_shrinks|].
  intros r Hr. destruct (Hs _ _ Hr) as (r1 & Hr1 & _ & _ & [Hst|Hst]); [left|by right].
  congruence.
Qed.

Lemma handled_kills sh sh' x : handled sh sh' → x ∈ kills sh → x ∈ kills sh'.
Proof. intros (_ & [k ->] & _) H. apply elem_of_app. by left. Qed.

Lemma and_then_handled sh o k :
  handled sh (final_state o) → (∀ s, handled s (final_state (k s))) →
  handled sh (final_state (and_then o k)).
Proof.
  destruct o; cbn [and_then]; try done.
  intros H Hk. eapply handled_trans; [exact H|apply Hk].
Qed.

Lemma set_state_fg t j r :
  no_fg t → slots t !! j = Some r →
  fg_only j (job_set_state (Zpos j) FG t)
  ∧ fg_running j (job_set_state (Zpos j) FG t).
Proof.
  intros Hno Hr. split.
  - intros j' r' Hr' Hfg. cbn in Hr'.
    destruct (decide (j = j')) as [->|Hne]; [done|].
    rewrite lookup_alter_ne in Hr' by done. by destruct (Hno _ _ Hr').
  - exists (mk_job (job_pid r) FG (job_cmdline r)). split; [|done].
    cbn. by rewrite lookup_alter_eq, Hr.
Qed.

(** X16.  [fg], from the command to the prompt.  For a reference that resolves
    to job [j], by job id or by process id, and with no job in the
    foreground before, [SIGCONT] is sent to the process group of the job,
    and the builtin does not return before the job is gone or stopped: it
    returns with no job in the foreground and [j] gone or stopped, or the
    shell is asleep with [j] in the foreground. *)
Theorem fg_builtin_waits pr token os sh j :
  builtin token = BUILTIN_FG → argc token ≠ 1 → no_fg (jobs sh) →
  let n := atoi (job_ref_num (argv_at token 1)) in
  n ≠ 0 →
  (job_exists (jobs sh) n = true ∧ n = Zpos j)
  ∨ (job_exists (jobs sh) n = false ∧ job_from_pid (jobs sh) n = Zpos j) →
  waited_for j (builtincmd pr token os sh)
  ∧ (job_get_pid (jobs sh) (Zpos j), SIGCONT)
      ∈ kills (final_state (builtincmd pr token os sh)).
Proof.
  intros Hb Hargc Hno n Hn Hres. subst n. unfold builtincmd. rewrite Hb.
  destruct (Z.eqb_spec (argc token) 1) as [|_]; [done|].
  destruct (Z.eqb_spec (atoi (job_ref_num (argv_at token 1))) 0) as [|_]; [done|].
  rewrite (sigprocmask_block _ _ three_subseteq_fill). cbn [jobs set_sigmask].
  assert (∃ r, slots (jobs sh) !! j = Some r) as [r Hr].
  { destruct Hres as [[He Hj]|[_ Hp]].
    - rewrite Hj in He. apply bool_decide_eq_true in He as [r Hr]. by exists r.
    - apply job_from_pid_pos in Hp as (r & Hr & _). by exists r. }
  destruct (set_state_fg _ _ _ Hno Hr) as [Honly Hrun].
  assert (∀ (S1 : shell) evs,
    jobs S1 = job_set_state (Zpos j) FG (jobs sh) →
    (job_get_pid (jobs sh) (Zpos j), SIGCONT) ∈ kills S1 →
    let o := and_then
      (waitfg id (sigmask sh) evs
         (sigprocmask SIG_BLOCK three_signals
            (sigprocmask SIG_SETMASK (sigmask sh) S1).2).2)
      (λ s, Returned (sigprocmask SIG_SETMASK (sigmask sh) s).2) in
    waited_for j o
    ∧ (job_get_pid (jobs sh) (Zpos j), SIGCONT) ∈ kills (final_state o)) as Hmain.
  { intros S1 evs HS1 Hk o. subst o.
    set (S2 := (sigprocmask SIG_SETMASK (sigmask sh) S1).2).
    set (S3 := (sigprocmask SIG_BLOCK three_signals S2).2).
    assert (handled S1 S3) as H13.
    { apply (handled_trans _ S2); apply sigprocmask_handled. }
    split.
    - apply waited_for_and_then; [|intros; by apply waited_for_returned].
      destruct (fg_only_running_shrinks j (jobs S1) (jobs S3)) as [? ?];
        [by destruct H13|by rewrite HS1..|].
      by apply waitfg_waited_for.
    - apply (handled_kills S1); [|done].
      apply and_then_handled; [|intros s; apply sigprocmask_handled].
      apply (handled_trans _ S3); [done|].
      apply waitfg_handled. intros s. apply handled_refl. }
  destruct Hres as [[He Hj]|[He Hp]]; rewrite He.
  - rewrite Hj. apply Hmain; [done|].
    cbn [kills killpg set_kills jobs set_jobs set_sigmask].
    rewrite job_get_pid_set_state. apply elem_of_app. right. by apply list_elem_of_singleton.
  - rewrite Hp. cbn [Z.eqb]. apply Hmain; [done|].
    cbn [kills killpg set_kills set_jobs set_sigmask].
    apply elem_of_app. right. apply list_elem_of_singleton. f_equal.
    destruct (job_from_pid_pos _ _ _ Hp) as (r' & Hr' & Hpid).
    unfold job_get_pid. cbn [lookup_job]. by rewrite Hr'.
Qed.

Lemma fg_builtin_waits_witness :
  waited_for 1 (builtincmd PARSELINE_FG (command BUILTIN_FG ["fg"; "%1"])
                           ls_answers one_stopped_job)
  ∧ (job_get_pid (jobs one_stopped_job) 1, SIGCONT)
      ∈ kills (final_state (builtincmd PARSELINE_FG
                              (command BUILTIN_FG ["fg"; "%1"])
                              ls_answers one_stopped_job)).
Proof.
  apply (fg_builtin_waits PARSELINE_FG (command BUILTIN_FG ["fg"; "%1"])
                          ls_answers one_stopped_job 1%positive).
  - reflexivity.
  - by vm_compute.
  - apply count_fg_zero. by vm_compute.
  - by vm_compute.
  - left. split; by vm_compute.
Defined.

Lemma add_fg_job t pid cmd :
  no_fg t →
  let t' := mk_job_list (<[nextjid t := mk_job pid FG cmd]> (slots t))
                        (Pos.succ (nextjid t)) in
  fg_only (nextjid t) t' ∧ fg_running (nextjid t) t'.
Proof.
  intros Hno t'. split.
  - intros j r Hr Hfg. cbn in Hr.
    destruct (decide (nextjid t = j)) as [<-|Hne]; [done|].
    rewrite lookup_insert_ne in Hr by done. by destruct (Hno _ _ Hr).
  - eexists. split; [apply lookup_insert_eq|done].
Qed.

Lemma waited_for_close j (b1 b2 : bool) fd1 fd2 how set :
  ∀ s, no_fg (jobs s) → fg_over j (jobs s) →
  waited_for j
    (let sh := if b1 then close fd1 s else s in
     let sh := if b2 then close fd2 sh else sh in
     Returned (sigprocmask how set sh).2).
Proof.
  intros s Hno Hov. cbn zeta. apply waited_for_returned; by destruct b1, b2.
Qed.

(** X17.  A launch in the foreground, from the command to the prompt.  With
    room in the job list and no job in the foreground before, the new job
    gets the next id, and [eval] does not return before that job is gone
    or stopped: it returns with no job in the foreground, or the shell is
    asleep with the new job in the foreground. *)
Theorem foreground_launch_waits MAXJOBS cmdline token os sh :
  builtin token = BUILTIN_NONE → redirections_open token os →
  fork_pid os ≠ 0 → no_fg (jobs sh) →
  (size (slots (jobs sh)) < MAXJOBS)%nat →
  waited_for (nextjid (jobs sh))
             (eval MAXJOBS cmdline PARSELINE_FG token os sh).
Proof.
  intros Hb [Hin Hout] Hf Hno Hcap. unfold eval.
  rewrite (builtincmd_none _ _ _ _ Hb). cbn [and_then].
  rewrite Hb, (sigprocmask_block _ _ three_subseteq_three).
  rewrite bool_decide_eq_true_2 by done.
  destruct (infile token) as [n|].
  all: try (destruct Hin as [fd1 ->]; [done|]).
  all: destruct (outfile token) as [n'|].
  all: try (destruct Hout as [fd2 ->]; [done|]).
  all: cbn [negb open fork fst snd andb].
  all: repeat match goal with |- context [Z.of_N ?n <? 0] =>
         replace (Z.of_N n <? 0) with false by (symmetry; apply Z.ltb_ge; lia) end.
  all: rewrite ?andb_false_r; cbn [andb].
  all: destruct (Z.eqb_spec (fork_pid os) 0) as [|_]; [done|].
  all: rewrite (sigprocmask_block _ _ three_subseteq_fill); cbn [fst snd].
  all: rewrite jobs_set_sigmask, arrive_all_jobs.
  all: autorewrite with shell_jobs.
  all: unfold add_job; rewrite decide_False by lia.
  all: destruct (add_fg_job (jobs sh) (fork_pid os) cmdline Hno) as [Honly Hrun].
  all: apply waited_for_and_then; [|apply waited_for_close].
  all: match goal with |- waited_for _ (waitfg _ _ _ ?S3) =>
         destruct (fg_only_running_shrinks (nextjid (jobs sh)) _ (jobs S3)
                     (shrinks_trans _ _ _ (sigprocmask_shrinks _ _ _)
                                    (sigprocmask_shrinks _ _ _)) Honly Hrun)
           as [? ?] end.
  all: by apply waitfg_waited_for.
Qed.

Lemma foreground_launch_waits_witness :
  waited_for 1 (eval 16 "/bin/ls" PARSELINE_FG ls_tokens ls_answers
                     (fresh_shell ∅)).
Proof.
  apply (foreground_launch_waits 16 "/bin/ls" ls_tokens ls_answers
                                 (fresh_shell ∅)).
  - reflexivity.
  - split; intros [? [=]].
  - by vm_compute.
  - apply count_fg_zero. by vm_compute.
  - vm_compute. lia.
Defined.

Lemma returned_close_handled (b1 b2 : bool) fd1 fd2 how set s0 s :
  shrinks (jobs s0) (jobs s) →
  ∃ sh', (let sh := if b1 then close fd1 s else s in
          let sh := if b2 then close fd2 sh else sh in
          Returned (sigprocmask how set sh).2) = Returned sh'
         ∧ shrinks (jobs s0) (jobs sh').
Proof.
  intros Hs. eexists. split; [reflexivity|]. cbn zeta.
  eapply shrinks_trans; [|apply sigprocmask_shrinks]. by destruct b1, b2.
Qed.

(** X18.  A launch in the foreground when the job list is full.  The result of
    [add_job] is not tested: the child was created, no record of it
    exists, the wait finds no foreground job and [eval] returns at once,
    while the child runs on; the job list has at most lost records. *)
Theorem foreground_launch_full_list MAXJOBS cmdline token os sh :
  builtin token = BUILTIN_NONE → redirections_open token os →
  fork_pid os ≠ 0 → no_fg (jobs sh) →
  (MAXJOBS ≤ size (slots (jobs sh)))%nat →
  ∃ sh', eval MAXJOBS cmdline PARSELINE_FG token os sh = Returned sh'
         ∧ shrinks (jobs sh) (jobs sh').
Proof.
  intros Hb [Hin Hout] Hf Hno Hcap. unfold eval.
  rewrite (builtincmd_none _ _ _ _ Hb). cbn [and_then].
  rewrite Hb, (sigprocmask_block _ _ three_subseteq_three).
  rewrite bool_decide_eq_true_2 by done.
  destruct (infile token) as [n|].
  all: try (destruct Hin as [fd1 ->]; [done|]).
  all: destruct (outfile token) as [n'|].
  all: try (destruct Hout as [fd2 ->]; [done|]).
  all: cbn [negb open fork fst snd andb].
  all: repeat match goal with |- context [Z.of_N ?n <? 0] =>
         replace (Z.of_N n <? 0) with false by (symmetry; apply Z.ltb_ge; lia) end.
  all: rewrite ?andb_false_r; cbn [andb].
  all: destruct (Z.eqb_spec (fork_pid os) 0) as [|_]; [done|].
  all: rewrite (sigprocmask_block _ _ three_subseteq_fill); cbn [fst snd].
  all: rewrite jobs_set_sigmask, arrive_all_jobs.
  all: autorewrite with shell_jobs.
  all: unfold add_job; rewrite decide_True by lia.
  all: match goal with |- context [waitfg _ _ _ ?S3] =>
         assert (shrinks (jobs sh) (jobs S3)) as Hs3
           by (eapply shrinks_trans; [|apply sigprocmask_shrinks];
               eapply shrinks_trans; [|apply sigprocmask_shrinks];
               autorewrite with shell_jobs; apply shrinks_refl);
         rewrite (waitfg_no_fg _ _ _ S3)
           by (apply fg_job_zero_no_fg; by eapply no_fg_shrinks)
       end.
  all: cbn [and_then]; by apply returned_close_handled.
Qed.

Lemma foreground_launch_full_list_witness :
  ∃ sh', eval 1 "/bin/ls" PARSELINE_FG ls_tokens ls_answers one_stopped_job
         = Returned sh'
         ∧ shrinks (jobs one_stopped_job) (jobs sh').
Proof.
  apply (foreground_launch_full_list 1 "/bin/ls" ls_tokens ls_answers
                                     one_stopped_job).
  - reflexivity.
  - split; intros [? [=]].
  - by vm_compute.
  - apply count_fg_zero. by vm_compute.
  - vm_compute. lia.
Defined.

(** X19.  [bg] on a reference that resolves to job [j], by job id or by process
    id.  The builtin returns, and what it has done is exactly this: it
    printed the line [[jid] (pid) cmdline] of the job, set the state of
    the job to [BG] and sent [SIGCONT] to its process group. *)
Theorem bg_builtin_resumes pr token os sh j :
  builtin token = BUILTIN_BG → argc token ≠ 1 → quiet sh →
  let n := atoi (job_ref_num (argv_at token 1)) in
  n ≠ 0 →
  (job_exists (jobs sh) n = true ∧ n = Zpos j)
  ∨ (job_exists (jobs sh) n = false ∧ job_from_pid (jobs sh) n = Zpos j) →
  let pid := job_get_pid (jobs sh) (Zpos j) in
  let cmd := job_get_cmdline (jobs sh) (Zpos j) in
  builtincmd pr token os sh
  = Returned (killpg pid SIGCONT
                (set_jobs (job_set_state (Zpos j) BG (jobs sh))
                   (sio_printf (job_line (Zpos j) pid cmd) sh))).
Proof.
  intros Hb Hargc Hq n Hn Hres pid cmd. subst n pid cmd. unfold builtincmd. rewrite Hb.
  destruct (Z.eqb_spec (argc token) 1) as [|_]; [done|].
  destruct (Z.eqb_spec (atoi (job_ref_num (argv_at token 1))) 0) as [|_]; [done|].
  rewrite (sigprocmask_block _ _ three_subseteq_fill). cbn [jobs set_sigmask].
  destruct Hres as [[He Hj]|[He Hp]]; rewrite He.
  - rewrite Hj.
    rewrite sigprocmask_setmask_quiet by (by apply (quiet_same sh)).
    done.
  - rewrite Hp. cbn [Z.eqb].
    rewrite sigprocmask_setmask_quiet by (by apply (quiet_same sh)).
    cbn [snd]. f_equal.
    destruct (job_from_pid_pos _ _ _ Hp) as (r & Hr & Hpid).
    unfold job_get_pid. cbn [lookup_job]. rewrite Hr. cbn [from_option].
    by rewrite Hpid.
Qed.

Lemma bg_builtin_resumes_witness :
  let pid := job_get_pid (jobs one_stopped_job) 1 in
  let cmd := job_get_cmdline (jobs one_stopped_job) 1 in
  builtincmd PARSELINE_FG (command BUILTIN_BG ["bg"; "%1"]) no_answers
             one_stopped_job
  = Returned (killpg pid SIGCONT
                (set_jobs (job_set_state 1 BG (jobs one_stopped_job))
                   (sio_printf (job_line 1 pid cmd) one_stopped_job))).
Proof.
  apply (bg_builtin_resumes PARSELINE_FG (command BUILTIN_BG ["bg"; "%1"])
                            no_answers one_stopped_job 1%positive).
  - reflexivity.
  - by vm_compute.
  - by vm_compute.
  - by vm_compute.
  - left. split; by vm_compute.
Defined.

(** ** Keys during the wait *)

Lemma handler_for_of e : handler_of (signal_of e) = Some (handler_for e).
Proof. by destruct e. Qed.

Lemma arrive_eq e sh :
  arrive e sh
  = set_pending (pending sh ∪ {[signal_of e]})
                (set_zombies (zombies sh ++ child_of e) sh).
Proof. destruct e; cbn; rewrite ?app_nil_r; by destruct sh. Qed.

Lemma deliverable_eq sig sh :
  deliverable sig sh
  = bool_decide (sig ∈ pending sh) && negb (bool_decide (sig ∈ sigmask sh)).
Proof. done. Qed.

Lemma deliver_only sig sh :
  sig = SIGINT ∨ sig = SIGCHLD ∨ sig = SIGTSTP →
  pending sh = {[sig]} → sig ∉ sigmask sh →
  deliver sh = run_handler sig sh.
Proof.
  intros Hsig Hp Hm.
  assert (∀ s, deliverable s sh = bool_decide (s = sig)) as Hd.
  { intros s. rewrite deliverable_eq, Hp.
    destruct (decide (s = sig)) as [->|Hne].
    - rewrite bool_decide_eq_true_2 by set_solver.
      rewrite (bool_decide_eq_false_2 _ Hm). by rewrite bool_decide_eq_true_2.
    - rewrite (bool_decide_eq_false_2 (s ∈ _)) by set_solver.
      by rewrite (bool_decide_eq_false_2 (s = sig)). }
  assert (∀ s, s ≠ sig → deliverable s (run_handler sig sh) = false) as Hd'.
  { intros s Hne. rewrite run_handler_deliverable by (apply handler_of_three; tauto).
    rewrite Hd. by rewrite (bool_decide_eq_false_2 (s = sig)). }
  unfold deliver, deliver_one.
  destruct Hsig as [-> | [-> | ->]].
  - rewrite (Hd SIGTSTP), bool_decide_eq_false_2 by done.
    rewrite (Hd SIGCHLD), bool_decide_eq_false_2 by done.
    by rewrite (Hd SIGINT), bool_decide_eq_true_2 by done.
  - rewrite (Hd SIGTSTP), bool_decide_eq_false_2 by done.
    rewrite (Hd SIGCHLD), bool_decide_eq_true_2 by done.
    by rewrite !Hd' by done.
  - rewrite (Hd SIGTSTP), bool_decide_eq_true_2 by done.
    by rewrite !Hd' by done.
Qed.

Lemma sigsuspend_one m e evs sh :
  pending sh = ∅ → signal_of e ∉ m →
  sigsuspend m (e :: evs) sh
  = Woken (set_errno EINTR
             (set_sigmask (sigmask sh)
                (handler_for e
                   (set_sigmask (m ∪ {[signal_of e]})
                      (set_zombies (zombies sh ++ child_of e) sh)))))
          evs.
Proof.
  intros Hp Hm. unfold sigsuspend. cbn [sleep].
  assert (any_deliverable (set_sigmask m sh) = false) as ->.
  { apply quiet_no_pending. by cbn. }
  assert (any_deliverable (arrive e (set_sigmask m sh)) = true) as Hany.
  { unfold any_deliverable. rewrite !deliverable_eq, arrive_eq.
    cbn [pending sigmask set_pending set_zombies set_sigmask].
    rewrite Hp. destruct e; cbn [signal_of] in *.
    - rewrite (bool_decide_eq_true_2 (SIGCHLD ∈ _)) by set_solver.
      rewrite (bool_decide_eq_false_2 (SIGCHLD ∈ m)) by done. cbn. by rewrite orb_true_r.
    - rewrite (bool_decide_eq_true_2 (SIGINT ∈ _)) by set_solver.
      by rewrite (bool_decide_eq_false_2 (SIGINT ∈ m)) by done.
    - rewrite (bool_decide_eq_true_2 (SIGTSTP ∈ _)) by set_solver.
      rewrite (bool_decide_eq_false_2 (SIGTSTP ∈ m)) by done. cbn. by rewrite !orb_true_r. }
  assert (sleep evs (arrive e (set_sigmask m sh))
          = Woken (deliver (arrive e (set_sigmask m sh))) evs) as ->.
  { destruct evs; cbn [sleep]; by rewrite Hany. }
  f_equal. apply (f_equal (set_errno EINTR)). rewrite (deliver_only (signal_of e)).
  - unfold run_handler. rewrite handler_for_of.
    rewrite arrive_eq. cbn [pending sigmask set_pending set_zombies set_sigmask zombies].
    rewrite Hp, union_empty_l_L, difference_diag_L.
    match goal with |- set_sigmask _ (set_sigmask _ (_ ?A)) = set_sigmask _ (_ ?B) =>
      replace A with B by (destruct sh; cbn in *; by subst) end.
    by destruct (handler_for e _).
  - destruct e; auto.
  - rewrite arrive_eq. cbn [pending set_pending set_zombies set_sigmask].
    by rewrite Hp, union_empty_l_L.
  - by rewrite arrive_eq.
Qed.

(** X20.  The interrupt key while the shell waits for the foreground job.  The
    key wakes the shell, the handler sends [SIGINT] to the process group
    of the job, and the shell sleeps again; the child ended by the signal
    wakes it a second time, the child is reaped, the notice
    [Job [jid] (pid) terminated by signal 2] is printed and the record
    deleted; the wait then returns, with the mask it was entered with. *)
Theorem wait_interrupted on_stopped m sh j r :
  pending sh = ∅ → zombies sh = [] →
  SIGINT ∉ m → SIGCHLD ∉ m →
  fg_job (jobs sh) = Zpos j → slots (jobs sh) !! j = Some r →
  job_from_pid (jobs sh) (job_pid r) = Zpos j →
  at_most_one_fg (jobs sh) →
  ∃ sh', waitfg on_stopped m
           [KeyInterrupt; ChildChanged (job_pid r) (WSignaled SIGINT)] sh
         = Returned sh'
         ∧ kills sh' = (kills sh ++ [(job_pid r, SIGINT)])%list
         ∧ output sh' = (output sh ++ [(STDOUT_FILENO,
                           terminated_notice (Zpos j) (job_pid r) SIGINT)])%list
         ∧ slots (jobs sh') = delete j (slots (jobs sh))
         ∧ sigmask sh' = sigmask sh.
Proof.
  intros Hp Hz Hi Hc Hfg Hr Hpid Hone.
  unfold waitfg. cbn [length Nat.add].
  rewrite (waitfg_loop_turn _ _ _ _ _ j Hfg).
  rewrite (sigsuspend_one m KeyInterrupt _ sh Hp Hi).
  cbn [handler_for signal_of child_of]. rewrite app_nil_r, sigint_handler_eq.
  cbn [jobs set_sigmask set_zombies]. rewrite Hfg. cbn [Z.eqb].
  set (sh1 := set_errno EINTR (set_sigmask (sigmask sh) _)).
  assert (jobs sh1 = jobs sh) as Hj1 by done.
  rewrite (waitfg_loop_turn _ _ _ _ sh1 j) by (by rewrite Hj1).
  rewrite (sigsuspend_one m (ChildChanged (job_pid r) (WSignaled SIGINT)) _ sh1)
    by done.
  cbn [handler_for signal_of child_of]. rewrite sigchld_handler_eq.
  set (sh2 := set_errno EINTR (set_sigmask (sigmask sh1) _)).
  assert (zombies sh1 = []) as Hz1 by (unfold sh1; cbn; by rewrite Hz).
  assert (sh2 = set_errno EINTR (set_sigmask (sigmask sh) (set_pending ∅ (set_zombies []
            (set_jobs (delete_job (Zpos j) (jobs sh)).2
               (sio_printf (terminated_notice (Zpos j) (job_pid r) SIGINT)
                  (killpg (job_pid r) SIGINT sh))))))) as Hsh2.
  { unfold sh2. cbn [zombies set_sigmask set_errno set_zombies errno sigmask].
    rewrite Hz1. cbn [app reap_all].
    unfold reap. cbn [jobs set_zombies set_sigmask WIFSIGNALED WIFSTOPPED WTERMSIG negb andb].
    rewrite Hj1, Hpid. cbn [Z.eqb negb andb].
    unfold sh1, job_get_pid. cbn [lookup_job]. rewrite Hr. cbn [from_option].
    destruct sh as [t μ p z o f k fk d g e]. cbn in *. by subst. }
  rewrite Hsh2.
  rewrite waitfg_loop_exit.
  - eexists. split; [reflexivity|]. cbn. by rewrite Hr.
  - apply fg_job_zero_no_fg.
    cbn [jobs set_errno set_sigmask set_pending set_zombies set_jobs].
    unfold delete_job. rewrite Hr. cbn [snd].
    intros j' r' Hr' Hfg'. cbn [slots] in Hr'.
    apply lookup_delete_Some in Hr' as [Hne Hr'].
    destruct (fg_job_pos _ _ Hfg) as (r0 & Hr0 & Hfg0).
    apply Hne. by apply (Hone _ _ _ _ Hr0 Hr').
Qed.

Lemma wait_interrupted_witness :
  ∃ sh', waitfg id ∅ [KeyInterrupt; ChildChanged 100 (WSignaled SIGINT)]
                one_fg_job
         = Returned sh'
         ∧ kills sh' = (kills one_fg_job ++ [(100, SIGINT)])%list
         ∧ output sh' = (output one_fg_job
                         ++ [(STDOUT_FILENO, terminated_notice 1 100 SIGINT)])%list
         ∧ slots (jobs sh') = delete 1%positive (slots (jobs one_fg_job))
         ∧ sigmask sh' = sigmask one_fg_job.
Proof.
  apply (wait_interrupted id ∅ one_fg_job 1%positive (mk_job 100 FG "sleep 5")).
  - reflexivity.
  - reflexivity.
  - apply not_elem_of_empty.
  - apply not_elem_of_empty.
  - reflexivity.
  - reflexivity.
  - reflexivity.
  - apply count_fg_at_most_one. vm_compute. lia.
Defined.

(** X21.  The suspend key while the shell waits for the foreground job.  The
    key wakes the shell, the handler sends [SIGTSTP] to the process group
    of the job, and the shell sleeps again; the stopped child wakes it a
    second time, the notice [Job [jid] (pid) stopped by signal 20] is
    printed and the record is kept with state [ST]; the wait then returns
    through the test of [fg_job], with the mask it was entered with and
    without the statement in front of [break] having run. *)
Theorem wait_suspended on_stopped m sh j r :
  pending sh = ∅ → zombies sh = [] →
  SIGTSTP ∉ m → SIGCHLD ∉ m →
  fg_job (jobs sh) = Zpos j → slots (jobs sh) !! j = Some r →
  job_from_pid (jobs sh) (job_pid r) = Zpos j →
  at_most_one_fg (jobs sh) →
  ∃ sh', waitfg on_stopped m
           [KeySuspend; ChildChanged (job_pid r) (WStopped SIGTSTP)] sh
         = Returned sh'
         ∧ kills sh' = (kills sh ++ [(job_pid r, SIGTSTP)])%list
         ∧ output sh' = (output sh ++ [(STDOUT_FILENO,
                           stopped_notice (Zpos j) (job_pid r) SIGTSTP)])%list
         ∧ slots (jobs sh')
           = <[j := mk_job (job_pid r) ST (job_cmdline r)]> (slots (jobs sh))
         ∧ sigmask sh' = sigmask sh.
Proof.
  intros Hp Hz Hi Hc Hfg Hr Hpid Hone.
  unfold waitfg. cbn [length Nat.add].
  rewrite (waitfg_loop_turn _ _ _ _ _ j Hfg).
  rewrite (sigsuspend_one m KeySuspend _ sh Hp Hi).
  cbn [handler_for signal_of child_of]. rewrite app_nil_r, sigtstp_handler_eq.
  cbn [jobs set_sigmask set_zombies]. rewrite Hfg. cbn [Z.eqb].
  set (sh1 := set_errno EINTR (set_sigmask (sigmask sh) _)).
  assert (jobs sh1 = jobs sh) as Hj1 by done.
  rewrite (waitfg_loop_turn _ _ _ _ sh1 j) by (by rewrite Hj1).
  rewrite (sigsuspend_one m (ChildChanged (job_pid r) (WStopped SIGTSTP)) _ sh1)
    by done.
  cbn [handler_for signal_of child_of]. rewrite sigchld_handler_eq.
  set (sh2 := set_errno EINTR (set_sigmask (sigmask sh1) _)).
  assert (zombies sh1 = []) as Hz1 by (unfold sh1; cbn; by rewrite Hz).
  assert (sh2 = set_errno EINTR (set_sigmask (sigmask sh) (set_pending ∅ (set_zombies []
            (set_jobs (job_set_state (Zpos j) ST (jobs sh))
               (sio_printf (stopped_notice (Zpos j) (job_pid r) SIGTSTP)
                  (killpg (job_pid r) SIGTSTP sh))))))) as Hsh2.
  { unfold sh2. cbn [zombies set_sigmask set_errno set_zombies errno sigmask].
    rewrite Hz1. cbn [app reap_all].
    unfold reap. cbn [jobs set_zombies set_sigmask WIFSIGNALED WIFSTOPPED WSTOPSIG negb andb].
    rewrite Hj1.
    unfold sh1, job_get_pid. cbn [lookup_job]. rewrite Hr. cbn [from_option].
    rewrite Hpid.
    destruct sh as [t μ p z o f k fk d g e]. cbn in *. by subst. }
  rewrite Hsh2.
  rewrite waitfg_loop_exit.
  - eexists. split; [reflexivity|]. cbn.
    split_and!; [done..| |done].
    apply map_eq. intros i. destruct (decide (i = j)) as [->|Hne].
    + by rewrite lookup_alter_eq, lookup_insert_eq, Hr.
    + by rewrite lookup_alter_ne, lookup_insert_ne.
  - apply fg_job_zero_no_fg.
    cbn [jobs set_errno set_sigmask set_pending set_zombies set_jobs].
    intros j' r' Hr' Hfg'. cbn in Hr'.
    destruct (decide (j' = j)) as [->|Hne].
    + rewrite lookup_alter_eq, Hr in Hr'. cbn in Hr'. injection Hr' as <-. done.
    + rewrite lookup_alter_ne in Hr' by done.
      destruct (fg_job_pos _ _ Hfg) as (r0 & Hr0 & Hfg0).
      apply Hne. symmetry. by apply (Hone _ _ _ _ Hr0 Hr').
Qed.

Lemma wait_suspended_witness :
  ∃ sh', waitfg id ∅ [KeySuspend; ChildChanged 100 (WStopped SIGTSTP)]
                one_fg_job
         = Returned sh'
         ∧ kills sh' = (kills one_fg_job ++ [(100, SIGTSTP)])%list
         ∧ output sh' = (output one_fg_job
                         ++ [(STDOUT_FILENO, stopped_notice 1 100 SIGTSTP)])%list
         ∧ slots (jobs sh')
           = <[1%positive := mk_job 100 ST "sleep 5"]> (slots (jobs one_fg_job))
         ∧ sigmask sh' = sigmask one_fg_job.
Proof.
  apply (wait_suspended id ∅ one_fg_job 1%positive (mk_job 100 FG "sleep 5")).
  - reflexivity.
  - reflexivity.
  - apply not_elem_of_empty.
  - apply not_elem_of_empty.
  - reflexivity.
  - reflexivity.
  - reflexivity.
  - apply count_fg_at_most_one. vm_compute. lia.
Defined.

(** ** Processes and descriptors *)

Lemma same_resources_trans sh1 sh2 sh3 :
  same_resources sh1 sh2 → same_resources sh2 sh3 → same_resources sh1 sh3.
Proof. intros (? & ? & ?) (? & ? & ?). split_and!; congruence. Qed.

Lemma handled_same_resources sh sh' : handled sh sh' → same_resources sh sh'.
Proof. intros (_ & _ & _ & ? & ? & ? & _). by split_and!. Qed.

Lemma sigprocmask_same_resources how set sh :
  same_resources sh (sigprocmask how set sh).2.
Proof. apply handled_same_resources, sigprocmask_handled. Qed.

Lemma list_jobs_same_resources fd sh : same_resources sh (list_jobs fd sh).
Proof.
  unfold list_jobs. generalize (list_jobs_lines (jobs sh)).
  intros l. revert sh. induction l as [|x l IH]; intros sh; [done|].
  cbn [fold_left]. apply (same_resources_trans _ (write_fd fd x sh)); [done|apply IH].
Qed.

Lemma file_error_same_resources name sh : same_resources sh (file_error name sh).
Proof. unfold file_error. by destruct (_ =? _). Qed.

Lemma returned_same_resources sh0 sh how set :
  same_resources sh0 sh →
  same_resources sh0 (final_state (Returned (sigprocmask how set sh).2)).
Proof.
  intros H. cbn [final_state].
  eapply same_resources_trans; [exact H|apply sigprocmask_same_resources].
Qed.

Lemma wait_same_resources sh0 sh m evs how set :
  same_resources sh0 sh →
  same_resources sh0
    (final_state (and_then (waitfg id m evs sh)
                    (λ s, Returned (sigprocmask how set s).2))).
Proof.
  intros H. eapply same_resources_trans; [exact H|].
  apply handled_same_resources.
  apply and_then_handled; [|intros s; apply sigprocmask_handled].
  apply waitfg_handled. intros s. apply handled_refl.
Qed.

(** X22.  What no builtin does.  However [builtincmd] ends (it returns, the
    shell exits on [quit], or the shell sleeps in the wait of [fg]), no
    process was created, no descriptor was duplicated, and no descriptor
    is open that was not open before: the one [jobs] opens for its
    output file is closed again. *)
Theorem builtincmd_no_process pr token os sh :
  let sh' := final_state (builtincmd pr token os sh) in
  forks sh' = forks sh ∧ dups sh' = dups sh ∧ fds sh' ⊆ fds sh.
Proof.
  intros sh'. subst sh'.
  assert (∀ s, same_resources sh s →
               forks s = forks sh ∧ dups s = dups sh ∧ fds s ⊆ fds sh) as Hweak.
  { intros s (-> & -> & ->). done. }
  unfold builtincmd.
  destruct (builtin token); try (by apply Hweak).
  - destruct (sigprocmask SIG_BLOCK sigfillset sh) as [prev_all s0] eqn:E.
    assert (same_resources sh s0) as H0.
    { replace s0 with (sigprocmask SIG_BLOCK sigfillset sh).2 by (by rewrite E).
      apply sigprocmask_same_resources. }
    destruct (outfile token) as [name|].
    + destruct (open_outfile os) as [fd|e]; cbn [open].
      * replace (Z.of_N fd <? 0) with false by (symmetry; apply Z.ltb_ge; lia).
        cbn [final_state].
        match goal with |- context [sigprocmask SIG_SETMASK prev_all ?S] =>
          destruct (sigprocmask_same_resources SIG_SETMASK prev_all S)
            as (-> & -> & ->) end.
        destruct (list_jobs_same_resources (Z.of_N fd)
                    (set_fds (fds s0 ∪ {[Z.of_N fd]}) s0)) as (Hf & Hd & Hfd).
        destruct H0 as (Hf0 & Hd0 & Hfd0).
        cbn [forks dups fds close set_fds] in *.
        split_and!; [congruence|congruence|].
        unfold close. cbn [fds set_fds]. rewrite Hfd. cbn [fds set_fds].
        rewrite Hfd0. intros x Hx.
        apply elem_of_difference in Hx as [Hx Hn].
        apply elem_of_union in Hx as [Hx|Hx]; [done|by destruct Hn].
      * cbn [Z.ltb Z.compare]. apply Hweak, returned_same_resources.
        eapply same_resources_trans; [exact H0|].
        eapply same_resources_trans; [|apply file_error_same_resources]. done.
    + apply Hweak, returned_same_resources.
      eapply same_resources_trans; [exact H0|apply list_jobs_same_resources].
  - destruct (argc token =? 1); [done|]. destruct (_ =? 0); [done|].
    destruct (sigprocmask SIG_BLOCK sigfillset sh) as [prev_all s0] eqn:E.
    assert (same_resources sh s0) as H0.
    { replace s0 with (sigprocmask SIG_BLOCK sigfillset sh).2 by (by rewrite E).
      apply sigprocmask_same_resources. }
    destruct (job_exists _ _); [|destruct (_ =? 0)].
    all: apply Hweak, returned_same_resources.
    all: eapply same_resources_trans; [exact H0|done].
  - destruct (argc token =? 1); [done|]. destruct (_ =? 0); [done|].
    destruct (sigprocmask SIG_BLOCK sigfillset sh) as [prev_all s0] eqn:E.
    assert (same_resources sh s0) as H0.
    { replace s0 with (sigprocmask SIG_BLOCK sigfillset sh).2 by (by rewrite E).
      apply sigprocmask_same_resources. }
    destruct (job_exists _ _); [|destruct (_ =? 0)].
    + apply Hweak, wait_same_resources.
      eapply same_resources_trans; [exact H0|].
      eapply same_resources_trans; [|apply sigprocmask_same_resources].
      eapply same_resources_trans; [|apply sigprocmask_same_resources]. done.
    + apply Hweak, returned_same_resources.
      eapply same_resources_trans; [exact H0|done].
    + apply Hweak, wait_same_resources.
      eapply same_resources_trans; [exact H0|].
      eapply same_resources_trans; [|apply sigprocmask_same_resources].
      eapply same_resources_trans; [|apply sigprocmask_same_resources]. done.
Qed.

(** X23.  For a builtin command [eval] is [builtincmd] and nothing more: it
    returns right after the call, so the three signals are not blocked,
    no redirection file is opened and [fork] is not called. *)
Theorem eval_builtin MAXJOBS cmdline pr token os sh :
  pr = PARSELINE_FG ∨ pr = PARSELINE_BG →
  builtin token ≠ BUILTIN_NONE →
  eval MAXJOBS cmdline pr token os sh = builtincmd pr token os sh.
Proof.
  intros Hpr Hb. unfold eval. rewrite bool_decide_eq_false_2 by done. cbn [negb].
  destruct Hpr as [-> | ->]; by destruct (builtincmd _ token os sh).
Qed.

Lemma eval_builtin_witness :
  eval 16 "jobs" PARSELINE_FG (command BUILTIN_JOBS ["jobs"]) no_answers
       one_stopped_job
  = builtincmd PARSELINE_FG (command BUILTIN_JOBS ["jobs"]) no_answers
               one_stopped_job.
Proof.
  apply (eval_builtin 16 "jobs" PARSELINE_FG (command BUILTIN_JOBS ["jobs"])
                      no_answers one_stopped_job).
  - by left.
  - discriminate.
Defined.

Lemma arrive_all_same_resources evs sh : same_resources sh (arrive_all evs sh).
Proof.
  unfold arrive_all. revert sh. induction evs as [|e evs IH]; intros sh; [done|].
  cbn [fold_left]. apply (same_resources_trans _ (arrive e sh)); [|apply IH].
  apply handled_same_resources, arrive_handled.
Qed.

Lemma wait_then (P : outcome → Prop) on_stopped m evs sh k :
  (∀ s, handled s (on_stopped s)) →
  (∀ s, same_resources sh s → P (k s)) →
  (∀ s, same_resources sh s → P (Asleep s)) →
  P (and_then (waitfg on_stopped m evs sh) k).
Proof.
  intros Hon Hk Ha.
  pose proof (waitfg_handled on_stopped m evs sh Hon) as Hh.
  apply handled_same_resources in Hh.
  pose proof (waitfg_survives on_stopped m evs sh) as Hs.
  destruct (waitfg on_stopped m evs sh) as [s| | |s]; try done; cbn [and_then].
  - by apply Hk.
  - by apply Ha.
Qed.

Lemma sio_printf_handled x s : handled s (sio_printf x s).
Proof.
  split_and!; try done;
    [apply shrinks_refl|exists []; by rewrite app_nil_r|by eexists|by left].
Qed.

(** X24.  A launch in the foreground closes what it opened.  Seen from the
    shell, with the redirections open: exactly one process was created;
    when [eval] returns the descriptors of the redirections are closed
    again and the others are as before; while the shell sleeps in the
    wait they are open. *)
Theorem foreground_launch_closes MAXJOBS cmdline token os sh :
  builtin token = BUILTIN_NONE → redirections_open token os →
  fork_pid os ≠ 0 →
  let o := eval MAXJOBS cmdline PARSELINE_FG token os sh in
  forks (final_state o) = (forks sh ++ [fork_pid os])%list
  ∧ files_closed (fds sh) (opened token os) o.
Proof.
  intros Hb [Hin Hout] Hf o. subst o. unfold eval, opened.
  rewrite (builtincmd_none _ _ _ _ Hb). cbn [and_then].
  rewrite Hb.
  rewrite bool_decide_eq_true_2 by done. cbn [negb].
  destruct (sigprocmask SIG_BLOCK three_signals sh) as [prev_all s0] eqn:E0.
  assert (same_resources sh s0) as (Hf0 & _ & Hfd0).
  { replace s0 with (sigprocmask SIG_BLOCK three_signals sh).2 by (by rewrite E0).
    apply sigprocmask_same_resources. }
  destruct (infile token) as [n|].
  all: try (destruct Hin as [fd1 ->]; [done|]).
  all: destruct (outfile token) as [n'|].
  all: try (destruct Hout as [fd2 ->]; [done|]).
  all: cbn [negb open fork fst snd andb].
  all: repeat match goal with |- context [Z.of_N ?n <? 0] =>
         replace (Z.of_N n <? 0) with false by (symmetry; apply Z.ltb_ge; lia) end.
  all: rewrite ?andb_false_r; cbn [andb].
  all: destruct (Z.eqb_spec (fork_pid os) 0) as [|_]; [done|].
  all: destruct (add_job _ _ _ _ _) as [jid t].
  all: match goal with |- context [arrive_all _ ?S] => set (S1 := S) end.
  all: match goal with |- context [waitfg _ _ _ ?S] => set (S3 := S) end.
  all: assert (same_resources S1 S3) as H13
    by (unfold S3;
        eapply same_resources_trans; [|apply sigprocmask_same_resources];
        eapply same_resources_trans; [|apply sigprocmask_same_resources];
        apply (same_resources_trans _ (arrive_all (early os) S1));
          [apply arrive_all_same_resources|];
        eapply same_resources_trans; [apply sigprocmask_same_resources|done]).
  all: clearbody S3.
  all: match goal with |- context [and_then ?W ?K] =>
         apply (wait_then (λ o, forks (final_state o) = _ ∧ files_closed _ _ o))
       end; [intros s; apply sio_printf_handled| |].
  all: intros s Hs; pose proof (same_resources_trans _ _ _ H13 Hs) as (Hfk & _ & Hfd).
  all: cbn beta; cbn [final_state files_closed].
  all: rewrite ?(bool_decide_eq_true_2 (is_Some (Some _))) by eauto.
  all: rewrite ?(bool_decide_eq_false_2 (is_Some None)) by (intros [? [=]]).
  all: try match goal with |- context [sigprocmask ?how ?set ?S] =>
    destruct (sigprocmask_same_resources how set S) as (-> & _ & ->) end.
  all: cbn [close forks fds set_fds]; rewrite ?Hfk, ?Hfd; unfold S1.
  all: cbn [forks fds set_fds set_forks]; rewrite ?Hf0, ?Hfd0.
  all: split; [done|].
  all: rewrite ?union_empty_l_L, ?union_empty_r_L, ?difference_empty_L,
    ?difference_difference_l_L, ?(assoc_L (∪) (fds sh)); done.
Qed.

Lemma foreground_launch_closes_witness :
  let o := eval 16 "/bin/sort < in.txt > out.txt" PARSELINE_FG sort_tokens
                sort_answers (fresh_shell ∅) in
  forks (final_state o)
  = (forks (fresh_shell ∅) ++ [fork_pid sort_answers])%list
  ∧ files_closed (fds (fresh_shell ∅)) (opened sort_tokens sort_answers) o.
Proof.
  apply (foreground_launch_closes 16 "/bin/sort < in.txt > out.txt" sort_tokens
                                  sort_answers (fresh_shell ∅)).
  - reflexivity.
  - split; intros _; [by exists 3%N|by exists 4%N].
  - by vm_compute.
Defined.

(** ** Job references as typed *)

Lemma digit_of_pretty_N_char d :
  (d < 10)%N → digit_of (pretty_N_char d) = Some (Z.of_N d).
Proof.
  intros Hd.
  assert (d = 0 ∨ d = 1 ∨ d = 2 ∨ d = 3 ∨ d = 4 ∨ d = 5 ∨ d = 6 ∨ d = 7
          ∨ d = 8 ∨ d = 9)%N as H by lia.
  repeat destruct H as [-> | H]; try subst d; reflexivity.
Qed.

Lemma digits_pretty_N_go x s :
  ∃ k : Z, 0 ≤ k ∧ ∀ acc, digits acc (pretty_N_go x s) = digits (acc * 10 ^ k + Z.of_N x) s.
Proof.
  revert s. induction (N.lt_wf_0 x) as [x _ IH]; intros s.
  destruct (decide (x = 0%N)) as [->|Hx].
  - exists 0. split; [done|]. intros acc. rewrite pretty_N_go_0. f_equal. lia.
  - rewrite pretty_N_go_step by lia.
    destruct (IH (x `div` 10)%N) with (s := String (pretty_N_char (x `mod` 10)) s)
      as (k & Hk & Hd).
    { apply N.div_lt; lia. }
    exists (k + 1). split; [lia|]. intros acc. rewrite Hd. cbn [digits].
    rewrite digit_of_pretty_N_char by (apply N.mod_lt; lia).
    f_equal. rewrite Z.pow_add_r by lia.
    pose proof (N.div_mod x 10 ltac:(lia)) as Hdm.
    assert (Z.of_N x = 10 * Z.of_N (x `div` 10) + Z.of_N (x `mod` 10)) as -> by lia.
    lia.
Qed.

Lemma pretty_N_go_head x s :
  (0 < x)%N →
  ∃ d s', (d < 10)%N ∧ pretty_N_go x s = String (pretty_N_char d) s'.
Proof.
  revert s. induction (N.lt_wf_0 x) as [x _ IH]; intros s Hx.
  rewrite pretty_N_go_step by done.
  destruct (decide (x `div` 10 = 0)%N) as [Hz|Hnz].
  - rewrite Hz, pretty_N_go_0. exists (x `mod` 10)%N, s.
    split; [apply N.mod_lt; lia|done].
  - apply IH; [apply N.div_lt; lia|by apply N.neq_0_lt_0].
Qed.

Lemma ends_number_digit d : (d < 10)%N →
  is_space (pretty_N_char d) = false
  ∧ Ascii.eqb (pretty_N_char d) "-" = false
  ∧ Ascii.eqb (pretty_N_char d) "+" = false.
Proof.
  intros Hd.
  assert (d = 0 ∨ d = 1 ∨ d = 2 ∨ d = 3 ∨ d = 4 ∨ d = 5 ∨ d = 6 ∨ d = 7
          ∨ d = 8 ∨ d = 9)%N as H by lia.
  repeat destruct H as [-> | H]; try subst d; done.
Qed.

Lemma strtol_pretty p : strtol (pretty (Zpos p)) = Z.max (- 2 ^ 63) (Z.min (2 ^ 63 - 1) (Zpos p)).
Proof.
  unfold strtol. f_equal. f_equal.
  change (pretty (Zpos p)) with (pretty_N_go (Npos p) "").
  destruct (pretty_N_go_head (Npos p) "") as (d & s' & Hd & Hs); [lia|].
  destruct (digits_pretty_N_go (Npos p) "") as (k & Hk & Hdig).
  pose proof (Hdig 0) as H0. rewrite Hs in H0 |- *.
  destruct (ends_number_digit d Hd) as (Hsp & Hm & Hp).
  cbn [skip_spaces]. rewrite Hsp, Hm, Hp, H0. cbn [digits]. lia.
Qed.

(** X25.  A number the shell prints is read back as the same number.  The job
    id and the process id in a line [[jid] (pid) cmdline] are printed
    with [%d]; typed back as an argument of [bg] or [fg], with or without
    the percent sign, [atoi] gives the number that was printed (for
    every positive number of the range of [int]). *)
Theorem printed_number_reads_back p :
  Zpos p < 2 ^ 31 →
  atoi (job_ref_num (pretty (Zpos p))) = Zpos p
  ∧ atoi (job_ref_num ("%" +:+ pretty (Zpos p))) = Zpos p.
Proof.
  intros Hp.
  assert (atoi (pretty (Zpos p)) = Zpos p) as Ha.
  { unfold atoi, to_int. rewrite strtol_pretty.
    rewrite Z.min_r, Z.max_r by lia.
    rewrite Z.mod_small by lia. lia. }
  split; [|by rewrite job_ref_num_marker].
  replace (job_ref_num (pretty (Zpos p))) with (pretty (Zpos p)); [done|].
  change (pretty (Zpos p)) with (pretty_N_go (Npos p) "").
  destruct (pretty_N_go_head (Npos p) "") as (d & s' & Hd & ->); [lia|].
  assert (d = 0 ∨ d = 1 ∨ d = 2 ∨ d = 3 ∨ d = 4 ∨ d = 5 ∨ d = 6 ∨ d = 7
          ∨ d = 8 ∨ d = 9)%N as H by lia.
  repeat destruct H as [-> | H]; try subst d; reflexivity.
Qed.

Lemma printed_number_reads_back_witness :
  atoi (job_ref_num (pretty 100)) = 100
  ∧ atoi (job_ref_num ("%" +:+ pretty 100)) = 100.
Proof. apply (printed_number_reads_back 100). reflexivity. Defined.

Lemma append_nil s : "" +:+ s = s.
Proof. reflexivity. Qed.

Lemma append_cons c a s : String c a +:+ s = String c (a +:+ s).
Proof. reflexivity. Qed.

Lemma digits_app acc a c rest :
  digit_of c = None → digits acc (a +:+ String c rest) = digits acc a.
Proof.
  intros Hc. revert acc. induction a as [|x a IH]; intros acc;
    rewrite ?append_nil, ?append_cons; cbn [digits].
  - by rewrite Hc.
  - destruct (digit_of x); [apply IH|done].
Qed.

Lemma skip_spaces_app a c rest :
  is_space c = false →
  skip_spaces (a +:+ String c rest) = skip_spaces a +:+ String c rest.
Proof.
  intros Hc. induction a as [|x a IH];
    rewrite ?append_nil, ?append_cons; cbn [skip_spaces].
  - by rewrite Hc.
  - by destruct (is_space x).
Qed.

Lemma ends_number_spec c :
  ends_number c = true →
  is_space c = false ∧ Ascii.eqb c "-" = false ∧ Ascii.eqb c "+" = false
  ∧ digit_of c = None.
Proof.
  unfold ends_number. intros H.
  apply andb_true_iff in H as [H Hd]. apply andb_true_iff in H as [H Hp].
  apply andb_true_iff in H as [Hs Hm].
  apply negb_true_iff in Hs, Hm, Hp, Hd.
  split_and!; try done.
  apply bool_decide_eq_false in Hd. destruct (digit_of c); [|done].
  destruct Hd. by eexists.
Qed.

Lemma atoi_app a c rest :
  ends_number c = true → atoi (a +:+ String c rest) = atoi a.
Proof.
  intros (Hs & Hm & Hp & Hd)%ends_number_spec.
  unfold atoi, strtol. rewrite (skip_spaces_app _ _ _ Hs).
  destruct (skip_spaces a) as [|x a']; rewrite ?append_nil, ?append_cons.
  - rewrite Hm, Hp. cbn [digits]. by rewrite Hd.
  - destruct (Ascii.eqb x "-"); [by rewrite digits_app|].
    destruct (Ascii.eqb x "+"); [by rewrite digits_app|].
    rewrite <- append_cons. by rewrite digits_app.
Qed.

Lemma job_ref_num_app a s :
  a ≠ "" → job_ref_num (a +:+ s) = job_ref_num a +:+ s.
Proof.
  destruct a as [|x a]; [done|]. intros _. rewrite append_cons. cbn [job_ref_num].
  destruct (Ascii.eqb_spec x "%") as [->|Hne]; [done|].
  destruct x as [[] [] [] [] [] [] [] []]; try done.
Qed.

(** X26.  Text after the number of a job reference is ignored.  [atoi] stops
    at the first character that cannot go on a number and the rest of
    the argument is never looked at: when the reference resolves to a job
    (or to 0, the invalid argument), [bg] and [fg] do with [%1xyz]
    exactly what they do with [%1]. *)
Theorem job_ref_trailing_text b pr os sh name a c rest inf outf :
  b = BUILTIN_BG ∨ b = BUILTIN_FG →
  a ≠ "" → ends_number c = true →
  let n := atoi (job_ref_num a) in
  n = 0 ∨ job_exists (jobs sh) n = true ∨ job_from_pid (jobs sh) n ≠ 0 →
  builtincmd pr (mk_tokens [name; a +:+ String c rest] inf outf b) os sh
  = builtincmd pr (mk_tokens [name; a] inf outf b) os sh.
Proof.
  intros Hb Ha Hc n Hres. subst n.
  unfold builtincmd, argc, argv_at. cbn [builtin argv nth length].
  rewrite (job_ref_num_app _ _ Ha), (atoi_app _ _ _ Hc).
  destruct Hb as [-> | ->]; cbn [Z.of_nat Pos.of_succ_nat Pos.succ Z.eqb Pos.eqb].
  all: destruct (Z.eqb_spec (atoi (job_ref_num a)) 0) as [|Hn]; [done|].
  all: rewrite (sigprocmask_block _ _ three_subseteq_fill); cbn [jobs set_sigmask].
  all: destruct (job_exists (jobs sh) (atoi (job_ref_num a))) eqn:He; [done|].
  all: destruct (Z.eqb_spec (job_from_pid (jobs sh) (atoi (job_ref_num a))) 0)
    as [Hz|]; [|done].
  all: by destruct Hres as [|[|]].
Qed.

Lemma job_ref_trailing_text_witness :
  builtincmd PARSELINE_FG (mk_tokens ["bg"; "%1" +:+ String "x" "yz"] None None
                                     BUILTIN_BG) no_answers one_stopped_job
  = builtincmd PARSELINE_FG (mk_tokens ["bg"; "%1"] None None BUILTIN_BG)
               no_answers one_stopped_job.
Proof.
  apply (job_ref_trailing_text BUILTIN_BG PARSELINE_FG no_answers one_stopped_job
                               "bg" "%1" "x" "yz" None None).
  - by left.
  - discriminate.
  - reflexivity.
  - right. left. by vm_compute.
Defined.

(** ** Between fork and add_job *)

Lemma add_job_pids_distinct n pid st cmd t :
  pids_distinct t → no_record_of pid t → pids_distinct (add_job n pid st cmd t).2.
Proof.
  intros Hd Hno. unfold add_job. case_decide; [done|]. cbn [snd].
  intros j1 j2 r1 r2 H1 H2 Hp. cbn [slots] in H1, H2.
  destruct (decide (nextjid t = j1)) as [<-|Hn1], (decide (nextjid t = j2)) as [<-|Hn2].
  - done.
  - rewrite lookup_insert_eq in H1. rewrite lookup_insert_ne in H2 by done.
    injection H1 as <-. destruct (Hno _ _ H2). by rewrite <- Hp.
  - rewrite lookup_insert_eq in H2. rewrite lookup_insert_ne in H1 by done.
    injection H2 as <-. by destruct (Hno _ _ H1).
  - rewrite lookup_insert_ne in H1, H2 by done. by apply (Hd _ _ _ _ H1 H2).
Qed.

Lemma add_job_fg_is_new n pid st cmd t j r :
  no_fg t → slots (add_job n pid st cmd t).2 !! j = Some r → job_st r = FG →
  job_pid r = pid.
Proof.
  intros Hno. unfold add_job. case_decide; cbn [snd slots].
  - intros Hr Hfg. by destruct (Hno _ _ Hr).
  - destruct (decide (nextjid t = j)) as [<-|Hne].
    + rewrite lookup_insert_eq. by intros [= <-].
    + rewrite lookup_insert_ne by done. intros Hr Hfg. by destruct (Hno _ _ Hr).
Qed.

Lemma sigprocmask_setmask_chld m sh :
  pending sh = {[SIGCHLD]} → SIGCHLD ∉ m →
  (sigprocmask SIG_SETMASK m sh).2 = run_handler SIGCHLD (set_sigmask m sh).
Proof.
  intros Hp Hm. unfold sigprocmask, change_mask. cbn [snd].
  apply deliver_only; [by right; left|done|done].
Qed.

Lemma run_sigchld_jobs sh :
  jobs (run_handler SIGCHLD sh)
  = jobs (reap_all (zombies sh)
            (set_sigmask (sigmask sh ∪ {[SIGCHLD]} ∪ three_signals)
               (set_pending (pending sh ∖ {[SIGCHLD]}) sh))).
Proof.
  unfold run_handler. change (handler_of SIGCHLD) with (Some sigchld_handler).
  cbv beta iota zeta. by rewrite sigchld_handler_eq.
Qed.

(** After the record of the new child is made and the mask put back, a
    child that has ended in the meantime is off the list, and no job is
    in the foreground. *)
Lemma early_exit_after_add n pid st status cmd m S :
  pids_distinct (jobs S) → no_record_of pid (jobs S) → no_fg (jobs S) →
  pending S = {[SIGCHLD]} → (pid, status) ∈ zombies S →
  WIFSTOPPED status = false → SIGCHLD ∉ m →
  let S5 := (sigprocmask SIG_SETMASK m
               (set_jobs (add_job n pid st cmd (jobs S)).2 S)).2 in
  no_record_of pid (jobs S5) ∧ no_fg (jobs S5).
Proof.
  intros Hd Hno Hfg Hp Hz Hst Hm S5. subst S5.
  rewrite sigprocmask_setmask_chld by done.
  rewrite run_sigchld_jobs.
  set (t := (add_job n pid st cmd (jobs S)).2).
  match goal with |- context [reap_all ?zs ?X] => set (X0 := X); set (zs0 := zs) end.
  assert (jobs X0 = t) as HX by done.
  assert (no_record_of pid (jobs (reap_all zs0 X0))) as Hgone.
  { apply (reap_all_removes zs0 X0 pid status); [|done..].
    rewrite HX. by apply add_job_pids_distinct. }
  split; [done|].
  intros j r' Hr' Hfg'.
  destruct (reap_all_shrinks zs0 X0 _ _ Hr') as (r & Hr & Hpid & _ & [Hs|Hs]);
    [|congruence].
  rewrite HX in Hr. apply (Hgone _ _ Hr'). rewrite Hpid.
  apply (add_job_fg_is_new n pid st cmd (jobs S) j r Hfg Hr). congruence.
Qed.

Lemma no_record_after_close pid (b1 b2 : bool) fd1 fd2 how set s :
  no_record_of pid (jobs s) →
  no_record_of pid
    (jobs (sigprocmask how set
             (if b2 then close fd2 (if b1 then close fd1 s else s)
              else if b1 then close fd1 s else s)).2).
Proof.
  intros H. eapply no_record_of_shrinks; [apply sigprocmask_shrinks|].
  by destruct b1, b2.
Qed.

(** X27.  A child that ends before its record is made.  [SIGCHLD] is blocked
    from before [fork] until after [add_job], so the handler runs only
    when the record exists: when the child has ended (exited or been
    killed) by the time the shell reaches [add_job], [eval] still
    returns, without sleeping whatever happens later, and the job list
    holds no record of the child. *)
Theorem early_exit_leaves_no_record MAXJOBS cmdline pr token os sh status :
  launches pr token → redirections_open token os → fork_pid os ≠ 0 →
  early os = [ChildChanged (fork_pid os) status] → WIFSTOPPED status = false →
  pending sh = ∅ → SIGCHLD ∉ sigmask sh →
  pids_distinct (jobs sh) → no_record_of (fork_pid os) (jobs sh) →
  no_fg (jobs sh) →
  ∃ sh', eval MAXJOBS cmdline pr token os sh = Returned sh'
         ∧ no_record_of (fork_pid os) (jobs sh').
Proof.
  intros [Hpr Hb] [Hin Hout] Hf He Hst Hp Hm Hd Hno Hfg. unfold eval.
  rewrite (builtincmd_none _ _ _ _ Hb).
  destruct Hpr as [-> | ->]; cbn [and_then].
  all: rewrite Hb, He, (sigprocmask_block _ _ three_subseteq_three).
  all: rewrite bool_decide_eq_true_2 by done.
  all: destruct (infile token) as [n|].
  all: try (destruct Hin as [fd1 ->]; [done|]).
  all: destruct (outfile token) as [n'|].
  all: try (destruct Hout as [fd2 ->]; [done|]).
  all: cbn [negb open fork fst snd andb].
  all: repeat match goal with |- context [Z.of_N ?n <? 0] =>
         replace (Z.of_N n <? 0) with false by (symmetry; apply Z.ltb_ge; lia) end.
  all: rewrite ?andb_false_r; cbn [andb].
  all: destruct (Z.eqb_spec (fork_pid os) 0) as [|_]; [done|].
  all: cbn [arrive_all fold_left].
  all: rewrite (sigprocmask_block _ _ three_subseteq_fill); cbn [fst snd].
  all: match goal with |- context [add_job ?N ?pid ?st ?cmd (jobs ?S)] =>
         pose proof (early_exit_after_add N pid st status cmd (sigmask sh) S)
           as Hafter;
         destruct (add_job N pid st cmd (jobs S)) as [jid t] eqn:Ea
       end.
  all: cbn [snd] in Hafter.
  all: destruct Hafter as [Hgone Hnofg]; [done|done|done| | |done|done|].
  all: try (cbn; rewrite Hp; apply leibniz_equiv; set_solver).
  all: try (cbn; apply elem_of_app; right; constructor).
  all: match type of Hgone with no_record_of _ (jobs ?X) => set (S5 := X) in * end.
  all: clearbody S5.
  1-4: rewrite waitfg_no_fg
    by (apply fg_job_zero_no_fg; by apply no_fg_sigprocmask).
  1-4: cbn [and_then].
  5-8: destruct (sigprocmask SIG_BLOCK sigfillset S5) as [prev_all' S6] eqn:E6;
    apply sigprocmask_pair in E6 as [_ ->].
  all: eexists; split; [reflexivity|].
  1-4: apply no_record_after_close;
    eapply no_record_of_shrinks; [apply sigprocmask_shrinks|done].
  all: eapply no_record_of_shrinks; [apply sigprocmask_shrinks|].
  all: rewrite jobs_sio_printf.
  all: eapply no_record_of_shrinks; [apply sigprocmask_shrinks|done].
Qed.

Lemma early_exit_leaves_no_record_witness :
  ∃ sh', eval 16 "/bin/ls" PARSELINE_FG ls_tokens quick_answers (fresh_shell ∅)
         = Returned sh'
         ∧ no_record_of (fork_pid quick_answers) (jobs sh').
Proof.
  apply (early_exit_leaves_no_record 16 "/bin/ls" PARSELINE_FG ls_tokens
                                     quick_answers (fresh_shell ∅) (WExited 0)).
  - split; [by left|reflexivity].
  - split; intros [? [=]].
  - by vm_compute.
  - reflexivity.
  - reflexivity.
  - reflexivity.
  - apply not_elem_of_empty.
  - apply NoDup_pids_distinct. vm_compute. apply NoDup_nil_2.
  - intros j r Hr. by vm_compute in Hr.
  - apply count_fg_zero. by vm_compute.
Defined.

(** ** The read loop of main *)

(** X28.  The line that [main] gives to [eval] holds no newline, is the line
    read itself when that holds none, and is otherwise the line read up
    to its first newline. *)
Theorem strip_newline_line s :
  has_newline (strip_newline s) = false
  ∧ (has_newline s = false → strip_newline s = s)
  ∧ ∃ rest, s = strip_newline s +:+ rest
            ∧ (rest = "" ∨ ∃ rest', rest = nl +:+ rest').
Proof.
  induction s as [|c s (IH1 & IH2 & rest & IH3 & IH4)].
  - split_and!; [done..|]. exists "". split; [done|by left].
  - cbn [strip_newline has_newline].
    destruct (Ascii.eqb_spec c (ascii_of_nat 10)) as [->|Hc].
    + split_and!; [done..|]. exists (String (ascii_of_nat 10) s).
      split; [done|]. right. by exists s.
    + cbn [has_newline orb].
      destruct (Ascii.eqb_spec c (ascii_of_nat 10)) as [|_]; [done|].
      split_and!; [done| |].
      * cbn [orb]. intros H. by rewrite IH2.
      * exists rest. split; [|done].
        change (String c (strip_newline s) +:+ rest)
          with (String c (strip_newline s +:+ rest)).
        by rewrite <- IH3.
Qed.

Lemma eval_mask_cases MAXJOBS cmdline pr token os sh sh' :
  eval MAXJOBS cmdline pr token os sh = Returned sh' →
  sigmask sh' = sigmask sh ∨ sigmask sh' = ∅.
Proof.
  intros H. pose proof (eval_mask_returns MAXJOBS cmdline pr token os sh) as Hm.
  rewrite H in Hm. destruct Hm as [?|(_ & _ & _ & ?)]; [by left|by right].
Qed.

(** X29.  The signal mask at the prompt.  Whenever [main] is at the top of its
    read loop, after whatever commands and signals, the signal mask of
    the shell is the mask it was started with or the empty set. *)
Theorem prompt_mask MAXJOBS m sh :
  prompt_from MAXJOBS m sh → sigmask sh = m ∨ sigmask sh = ∅.
Proof.
  induction 1 as [|e sh _ IH|cmdline pr token os sh sh' _ IH Hev].
  - by left.
  - by rewrite deliver_sigmask, arrive_sigmask.
  - destruct (eval_mask_cases _ _ _ _ _ _ _ Hev) as [->| ->]; [done|by right].
Qed.

Lemma prompt_mask_witness :
  let sh := final_state (eval 16 "/bin/ls" PARSELINE_FG ls_tokens ls_answers
                              (fresh_shell {[SIGUSR1]})) in
  sigmask sh = {[SIGUSR1]} ∨ sigmask sh = ∅.
Proof.
  apply (prompt_mask 16 {[SIGUSR1]}).
  apply (from_eval 16 {[SIGUSR1]} "/bin/ls" PARSELINE_FG ls_tokens ls_answers
                   (fresh_shell {[SIGUSR1]})).
  - apply from_start.
  - by vm_compute.
Defined.
